(** * waylon-smithers: the loop controller and its text extractors

    A shallow embedding of [src/lib.js] (detectors, extractors, the agent
    runner) and of the command module that drives the loop ([runLoop] and
    [handleResume]), followed by the properties the specification states
    about them.

    JavaScript values are modelled as the code uses them: strings as
    [string] (the UTF-8 bytes of the text), counters as [nat],
    [null]/[undefined] as [None], a thrown
    exception as a [Throw] completion, and every observable effect
    (child processes started, state files written, console lines) as an
    entry of a trace carried by the world. *)

From Stdlib Require Import ZArith Lia Ascii String List Bool Sorted.
From stdpp Require Import base option strings list gmap pretty.

Import ListNotations.
Local Open Scope string_scope.
Local Open Scope list_scope.

(* ===================================================================== *)
(** ** Strings *)
(* ===================================================================== *)

Module Str.

Definition LF : ascii := ascii_of_nat 10.
Definition CR : ascii := ascii_of_nat 13.
Definition DQ : ascii := ascii_of_nat 34.

Definition chars (s : string) : list ascii := list_ascii_of_string s.
Definition of_chars (l : list ascii) : string := string_of_list_ascii l.

(** [s.length === 0] *)
Definition is_empty (s : string) : bool :=
  match s with EmptyString => true | String _ _ => false end.

(** A string is truthy when it is not empty. *)
Definition truthy (s : string) : bool := negb (is_empty s).

(** [hay.startsWith(needle)] *)
Fixpoint startsWith (hay needle : string) {struct needle} : bool :=
  match needle, hay with
  | EmptyString, _ => true
  | String _ _, EmptyString => false
  | String a n, String b h => if Ascii.eqb a b then startsWith h n else false
  end.

(** [hay.includes(needle)]: the needle occurs at some offset. *)
Fixpoint includes (hay needle : string) : bool :=
  startsWith hay needle ||
  match hay with
  | EmptyString => false
  | String _ h => includes h needle
  end.

(** [Array.prototype.join] *)
Fixpoint join (sep : string) (parts : list string) : string :=
  match parts with
  | [] => EmptyString
  | [p] => p
  | p :: rest => p +:+ sep +:+ join sep rest
  end.

(** White space, as [String.prototype.trim] and [parseInt] skip it: the
    [WhiteSpace] and [LineTerminator] characters of ECMAScript.  A text
    is held as its UTF-8 bytes, as the program receives it from the
    command line, the terminal and the files, so a white-space character
    outside ASCII is a sequence of two or three bytes:
    - U+0009 to U+000D and U+0020: one byte;
    - U+00A0: C2 A0;
    - U+1680: E1 9A 80;
    - U+2000 to U+200A, U+2028, U+2029 and U+202F: E2 80 80 to E2 80 8A,
      E2 80 A8, E2 80 A9 and E2 80 AF;
    - U+205F: E2 81 9F;
    - U+3000: E3 80 80;
    - U+FEFF: EF BB BF. *)
Definition is_space (c : ascii) : bool :=
  let n := nat_of_ascii c in (((9 <=? n) && (n <=? 13)) || (n =? 32))%nat.

Definition is_space2 (a b : ascii) : bool :=
  ((nat_of_ascii a =? 194) && (nat_of_ascii b =? 160))%nat.

Definition is_space3 (a b c : ascii) : bool :=
  let x := nat_of_ascii a in
  let y := nat_of_ascii b in
  let z := nat_of_ascii c in
  (((x =? 225) && (y =? 154) && (z =? 128))
   || ((x =? 226) && (y =? 128)
       && (((128 <=? z) && (z <=? 138)) || (z =? 168) || (z =? 169) || (z =? 175)))
   || ((x =? 226) && (y =? 129) && (z =? 159))
   || ((x =? 227) && (y =? 128) && (z =? 128))
   || ((x =? 239) && (y =? 187) && (z =? 191)))%nat.

(** The bytes of one white-space character. *)
Definition space_char (l : list ascii) : bool :=
  match l with
  | [a] => is_space a
  | [a; b] => is_space2 a b
  | [a; b; c] => is_space3 a b c
  | _ => false
  end.

(** A run of white-space characters. *)
Inductive blank : list ascii -> Prop :=
| blank_nil : blank []
| blank_cons (ch rest : list ascii) :
    space_char ch = true -> blank rest -> blank (ch ++ rest).

(** The text without the white space at its head. *)
Fixpoint drop_spaces (l : list ascii) : list ascii :=
  match l with
  | [] => []
  | a :: r =>
      if is_space a then drop_spaces r
      else match r with
           | [] => l
           | b :: r2 =>
               if is_space2 a b then drop_spaces r2
               else match r2 with
                    | [] => l
                    | c :: r3 => if is_space3 a b c then drop_spaces r3 else l
                    end
           end
  end.

(** The same on the text read from its end: [l] holds the bytes last
    one first, so the bytes of a character come in reverse order. *)
Fixpoint drop_spaces_back (l : list ascii) : list ascii :=
  match l with
  | [] => []
  | c :: r =>
      if is_space c then drop_spaces_back r
      else match r with
           | [] => l
           | b :: r2 =>
               if is_space2 b c then drop_spaces_back r2
               else match r2 with
                    | [] => l
                    | a :: r3 => if is_space3 a b c then drop_spaces_back r3 else l
                    end
           end
  end.

Definition trimStart (s : string) : string := of_chars (drop_spaces (chars s)).

Definition trim (s : string) : string :=
  of_chars (rev (drop_spaces_back (rev (drop_spaces (chars s))))).

(** [text.split(/\r?\n/)]: the text is cut at every line feed, and a
    carriage return standing directly before that line feed belongs to
    the separator.  [cur] holds the characters of the piece being read,
    last one first. *)
Definition close_piece (cur : list ascii) : string :=
  of_chars (rev match cur with
                | c :: r => if Ascii.eqb c CR then r else cur
                | [] => []
                end).

Fixpoint split_go (cur : list ascii) (s : string) : list string :=
  match s with
  | EmptyString => [of_chars (rev cur)]
  | String c r =>
      if Ascii.eqb c LF then close_piece cur :: split_go [] r
      else split_go (c :: cur) r
  end.

Definition split_lines (s : string) : list string := split_go [] s.

End Str.

(* ===================================================================== *)
(** ** JSON values and JavaScript completions *)
(* ===================================================================== *)

(** Values produced by [JSON.parse].  Numbers are kept as integers: the
    code only ever asks whether a value is truthy. *)
#[warnings="-register-all"]
Inductive Json : Type :=
| JNull
| JBool (b : bool)
| JNum (z : Z)
| JStr (s : string)
| JArr (items : list Json)
| JObj (fields : list (string * Json)).

(** JavaScript truthiness. *)
Definition truthy (v : Json) : bool :=
  match v with
  | JNull => false
  | JBool b => b
  | JNum z => negb (Z.eqb z 0)
  | JStr s => Str.truthy s
  | JArr _ | JObj _ => true
  end.

(** A possibly absent value ([null] and [undefined] are [None]). *)
Definition truthy_opt (v : option Json) : bool :=
  match v with Some j => truthy j | None => false end.

(** [a || b] on possibly absent values. *)
Definition js_or (a b : option Json) : option Json :=
  if truthy_opt a then a else b.

(** [typeof v === "object"] for a value that is known to be truthy. *)
Definition is_object (v : Json) : bool :=
  match v with JArr _ | JObj _ => true | _ => false end.

Fixpoint assoc (k : string) (fields : list (string * Json)) : option Json :=
  match fields with
  | [] => None
  | (k', v) :: rest => if String.eqb k k' then Some v else assoc k rest
  end.

(** What a JavaScript computation ends with: a value, a thrown error,
    [process.exit(code)], or a SIGINT delivered while the computation is
    suspended in an [await]. *)
Inductive Completion (A : Type) : Type :=
| Normal (a : A)
| Throw (message : string)
| Exit (code : Z)
| Interrupt.
Arguments Normal {A} a.
Arguments Throw {A} message.
Arguments Exit {A} code.
Arguments Interrupt {A}.

Definition cbind {A B} (c : Completion A) (k : A -> Completion B) : Completion B :=
  match c with
  | Normal a => k a
  | Throw m => Throw m
  | Exit z => Exit z
  | Interrupt => Interrupt
  end.

(** [v.k]: reading a property of [null] throws a TypeError, an object
    answers with its field, any other value has no such property. *)
Definition get_prop (v : Json) (k : string) : Completion (option Json) :=
  match v with
  | JNull => Throw "TypeError: Cannot read properties of null"
  | JObj fields => Normal (assoc k fields)
  | _ => Normal None
  end.

(* ===================================================================== *)
(** ** The runtime the program is linked against *)
(* ===================================================================== *)

(** The parts of the JavaScript runtime and of Node's library that the
    program calls and does not define: the regular-expression engine,
    [JSON.parse] and the [path] module. *)
Class Runtime : Type := {
  RegExp : Type;
  (** [new RegExp(source)]: the compiled pattern, or the message of the
      SyntaxError it throws. *)
  RegExp_new : string -> RegExp + string;
  (** [re.test(text)] *)
  RegExp_test : RegExp -> string -> bool;
  (** [JSON.parse(text)], [None] when it throws. *)
  JSON_parse : string -> option Json;
  path_resolve : string -> string -> string;
  path_relative : string -> string -> string;
  path_join : string -> string -> string;
  path_dirname : string -> string;
  path_basename : string -> string -> string;
  path_extname : string -> string;
}.

(* ===================================================================== *)
(** ** The loop state record *)
(* ===================================================================== *)

Inductive Status : Type :=
| running
| completed
| stopped_max_iterations
| paused_hard_stop
| paused_user_interrupt
| canceled
| error_spawn
| error_no_session.

Record CodexInfo : Type := {
  session_id : option Json;
  model : option string;
  sandbox : option string;
  approval : option string;
  profile : option string;
}.

Record Todo : Type := {
  path : string;
  hard_stop_token : string;
  hard_stop_mode : string;
  paused_for_hard_stop : bool;
}.

Record Artifacts : Type := {
  dir : string;
  last_message_path : option string;
  jsonl_path : option string;
  jsonl_events_base : option string;
  summary_json_path : option string;
}.

Record LastResult : Type := {
  exit_code : option Z;
  detected_promise : bool;
}.

(** One entry of [state.history]. *)
Record IterationRecord : Type := {
  it_iteration : nat;
  it_finished_at : nat;
  it_exit_code : option Z;
  it_detected_promise : bool;
  it_last_message_path : option string;
  it_jsonl_path : option string;
}.

Record State : Type := {
  loop_id : string;
  created_at : nat;
  updated_at : nat;
  workspace_root : string;
  prompt : string;
  completion_promise : string;
  promise_mode : string;
  max_iterations : nat;
  same_prompt_each_iteration : option bool;
  iteration : nat;
  status : Status;
  codex : CodexInfo;
  todo : option Todo;
  artifacts : Artifacts;
  history : list IterationRecord;
  last_result : option LastResult;
  state_path : string;
}.

(** The projection written by [updateSummary]. *)
Record Summary : Type := {
  sum_loop_id : string;
  sum_status : Status;
  sum_iteration : nat;
  sum_max_iterations : nat;
  sum_completion_promise : string;
  sum_promise_mode : string;
  sum_history : list IterationRecord;
  sum_workspace_root : string;
  sum_artifacts : Artifacts;
  sum_last_result : option LastResult;
  sum_updated_at : nat;
}.

(** Assignments to the fields of the state record that the program writes
    ([state.status = v] is [set_status v state]). *)
Definition set_updated_at (v : nat) (s : State) : State :=
  {| loop_id := loop_id s; created_at := created_at s; updated_at := v;
     workspace_root := workspace_root s; prompt := prompt s;
     completion_promise := completion_promise s;
     promise_mode := promise_mode s; max_iterations := max_iterations s;
     same_prompt_each_iteration := same_prompt_each_iteration s;
     iteration := iteration s; status := status s; codex := codex s;
     todo := todo s; artifacts := artifacts s; history := history s;
     last_result := last_result s; state_path := state_path s |}.

Definition set_max_iterations (v : nat) (s : State) : State :=
  {| loop_id := loop_id s; created_at := created_at s;
     updated_at := updated_at s; workspace_root := workspace_root s;
     prompt := prompt s; completion_promise := completion_promise s;
     promise_mode := promise_mode s; max_iterations := v;
     same_prompt_each_iteration := same_prompt_each_iteration s;
     iteration := iteration s; status := status s; codex := codex s;
     todo := todo s; artifacts := artifacts s; history := history s;
     last_result := last_result s; state_path := state_path s |}.

Definition set_completion_promise (v : string) (s : State) : State :=
  {| loop_id := loop_id s; created_at := created_at s;
     updated_at := updated_at s; workspace_root := workspace_root s;
     prompt := prompt s; completion_promise := v;
     promise_mode := promise_mode s; max_iterations := max_iterations s;
     same_prompt_each_iteration := same_prompt_each_iteration s;
     iteration := iteration s; status := status s; codex := codex s;
     todo := todo s; artifacts := artifacts s; history := history s;
     last_result := last_result s; state_path := state_path s |}.

Definition set_promise_mode (v : string) (s : State) : State :=
  {| loop_id := loop_id s; created_at := created_at s;
     updated_at := updated_at s; workspace_root := workspace_root s;
     prompt := prompt s; completion_promise := completion_promise s;
     promise_mode := v; max_iterations := max_iterations s;
     same_prompt_each_iteration := same_prompt_each_iteration s;
     iteration := iteration s; status := status s; codex := codex s;
     todo := todo s; artifacts := artifacts s; history := history s;
     last_result := last_result s; state_path := state_path s |}.

Definition set_same_prompt_each_iteration (v : option bool) (s : State) : State :=
  {| loop_id := loop_id s; created_at := created_at s;
     updated_at := updated_at s; workspace_root := workspace_root s;
     prompt := prompt s; completion_promise := completion_promise s;
     promise_mode := promise_mode s; max_iterations := max_iterations s;
     same_prompt_each_iteration := v; iteration := iteration s;
     status := status s; codex := codex s; todo := todo s;
     artifacts := artifacts s; history := history s;
     last_result := last_result s; state_path := state_path s |}.

Definition set_iteration (v : nat) (s : State) : State :=
  {| loop_id := loop_id s; created_at := created_at s;
     updated_at := updated_at s; workspace_root := workspace_root s;
     prompt := prompt s; completion_promise := completion_promise s;
     promise_mode := promise_mode s; max_iterations := max_iterations s;
     same_prompt_each_iteration := same_prompt_each_iteration s;
     iteration := v; status := status s; codex := codex s; todo := todo s;
     artifacts := artifacts s; history := history s;
     last_result := last_result s; state_path := state_path s |}.

Definition set_status (v : Status) (s : State) : State :=
  {| loop_id := loop_id s; created_at := created_at s;
     updated_at := updated_at s; workspace_root := workspace_root s;
     prompt := prompt s; completion_promise := completion_promise s;
     promise_mode := promise_mode s; max_iterations := max_iterations s;
     same_prompt_each_iteration := same_prompt_each_iteration s;
     iteration := iteration s; status := v; codex := codex s; todo := todo s;
     artifacts := artifacts s; history := history s;
     last_result := last_result s; state_path := state_path s |}.

Definition set_codex (v : CodexInfo) (s : State) : State :=
  {| loop_id := loop_id s; created_at := created_at s;
     updated_at := updated_at s; workspace_root := workspace_root s;
     prompt := prompt s; completion_promise := completion_promise s;
     promise_mode := promise_mode s; max_iterations := max_iterations s;
     same_prompt_each_iteration := same_prompt_each_iteration s;
     iteration := iteration s; status := status s; codex := v; todo := todo s;
     artifacts := artifacts s; history := history s;
     last_result := last_result s; state_path := state_path s |}.

Definition set_todo (v : option Todo) (s : State) : State :=
  {| loop_id := loop_id s; created_at := created_at s;
     updated_at := updated_at s; workspace_root := workspace_root s;
     prompt := prompt s; completion_promise := completion_promise s;
     promise_mode := promise_mode s; max_iterations := max_iterations s;
     same_prompt_each_iteration := same_prompt_each_iteration s;
     iteration := iteration s; status := status s; codex := codex s; todo := v;
     artifacts := artifacts s; history := history s;
     last_result := last_result s; state_path := state_path s |}.

Definition set_artifacts (v : Artifacts) (s : State) : State :=
  {| loop_id := loop_id s; created_at := created_at s;
     updated_at := updated_at s; workspace_root := workspace_root s;
     prompt := prompt s; completion_promise := completion_promise s;
     promise_mode := promise_mode s; max_iterations := max_iterations s;
     same_prompt_each_iteration := same_prompt_each_iteration s;
     iteration := iteration s; status := status s; codex := codex s;
     todo := todo s; artifacts := v; history := history s;
     last_result := last_result s; state_path := state_path s |}.

Definition set_history (v : list IterationRecord) (s : State) : State :=
  {| loop_id := loop_id s; created_at := created_at s;
     updated_at := updated_at s; workspace_root := workspace_root s;
     prompt := prompt s; completion_promise := completion_promise s;
     promise_mode := promise_mode s; max_iterations := max_iterations s;
     same_prompt_each_iteration := same_prompt_each_iteration s;
     iteration := iteration s; status := status s; codex := codex s;
     todo := todo s; artifacts := artifacts s; history := v;
     last_result := last_result s; state_path := state_path s |}.

Definition set_last_result (v : option LastResult) (s : State) : State :=
  {| loop_id := loop_id s; created_at := created_at s;
     updated_at := updated_at s; workspace_root := workspace_root s;
     prompt := prompt s; completion_promise := completion_promise s;
     promise_mode := promise_mode s; max_iterations := max_iterations s;
     same_prompt_each_iteration := same_prompt_each_iteration s;
     iteration := iteration s; status := status s; codex := codex s;
     todo := todo s; artifacts := artifacts s; history := history s;
     last_result := v; state_path := state_path s |}.

Definition codex_with_session_id (v : option Json) (c : CodexInfo) : CodexInfo :=
  {| session_id := v; model := model c; sandbox := sandbox c;
     approval := approval c; profile := profile c |}.

Definition codex_with_model (v : option string) (c : CodexInfo) : CodexInfo :=
  {| session_id := session_id c; model := v; sandbox := sandbox c;
     approval := approval c; profile := profile c |}.

Definition codex_with_sandbox (v : option string) (c : CodexInfo) : CodexInfo :=
  {| session_id := session_id c; model := model c; sandbox := v;
     approval := approval c; profile := profile c |}.

Definition codex_with_approval (v : option string) (c : CodexInfo) : CodexInfo :=
  {| session_id := session_id c; model := model c; sandbox := sandbox c;
     approval := v; profile := profile c |}.

Definition codex_with_profile (v : option string) (c : CodexInfo) : CodexInfo :=
  {| session_id := session_id c; model := model c; sandbox := sandbox c;
     approval := approval c; profile := v |}.

Definition artifacts_with_last_message_path (v : option string) (a : Artifacts) : Artifacts :=
  {| dir := dir a; last_message_path := v; jsonl_path := jsonl_path a;
     jsonl_events_base := jsonl_events_base a;
     summary_json_path := summary_json_path a |}.

Definition artifacts_with_jsonl_path (v : option string) (a : Artifacts) : Artifacts :=
  {| dir := dir a; last_message_path := last_message_path a; jsonl_path := v;
     jsonl_events_base := jsonl_events_base a;
     summary_json_path := summary_json_path a |}.

Definition artifacts_with_jsonl_events_base (v : option string) (a : Artifacts) : Artifacts :=
  {| dir := dir a; last_message_path := last_message_path a;
     jsonl_path := jsonl_path a; jsonl_events_base := v;
     summary_json_path := summary_json_path a |}.

Definition todo_with_paused_for_hard_stop (v : bool) (t : Todo) : Todo :=
  {| path := path t; hard_stop_token := hard_stop_token t;
     hard_stop_mode := hard_stop_mode t; paused_for_hard_stop := v |}.

(** [if (state.todo) state.todo.paused_for_hard_stop = v] *)
Definition set_paused_for_hard_stop (v : bool) (s : State) : State :=
  set_todo (todo_with_paused_for_hard_stop v <$> todo s) s.

Definition set_last_result_detected_promise (v : bool) (s : State) : State :=
  set_last_result
    ((fun r => {| exit_code := exit_code r; detected_promise := v |}) <$> last_result s) s.

(* ===================================================================== *)
(** ** The world, the environment and the effect monad *)
(* ===================================================================== *)

(** Everything the program does that can be observed from outside. *)
Inductive Event : Type :=
| Spawned (argv : list Json) (cwd : string)
| StateSaved (file : string) (s : State)
| SummaryWritten (file : string) (s : Summary)
| Logged (line : string)
| ErrorLogged (line : string)
| Warned (line : string)
| StdoutMirrored (text : string)
| StderrMirrored (text : string)
| Asked (question : string).

(** [files] are the text files of the workspace, [disk] the state records
    (a record is stored as it is: the JSON round trip of [writeJson] and
    [readJson] is not modelled); a path that is in neither map holds no
    file.  [trace] are the events so far, newest first,
    [clock] the reading the next [nowIso()] returns, [sigintReceived] the
    module-level flag of [lib.js]. *)
Record World : Type := {
  files : gmap string string;
  disk : gmap string State;
  trace : list Event;
  clock : nat;
  sigintReceived : bool;
}.

(** How one child process ends: with its [error] event, with its
    [close] event, or interrupted by the user. *)
Inductive AgentOutcome : Type :=
| SpawnError (message : string)
| Closed (exitCode : option Z) (stdout stderr : string)
| Sigint.

Inductive UserReply : Type :=
| Typed (resp : string)
| CtrlC.

(** The environment: [agent n argv fs] is what the [n]-th child process
    started by the program does when run with [argv] on the files [fs]
    (how it ends, and the files it leaves behind); [user n] is the reply
    to the [n]-th question. *)
Record Env : Type := {
  agent : nat -> list Json -> gmap string string -> AgentOutcome * gmap string string;
  user : nat -> UserReply;
  process_cwd : string;
}.

Definition M (A : Type) : Type := World -> Completion A * World.

Definition ret {A} (a : A) : M A := fun w => (Normal a, w).

Definition bind {A B} (m : M A) (k : A -> M B) : M B :=
  fun w =>
    match m w with
    | (Normal a, w') => k a w'
    | (Throw e, w') => (Throw e, w')
    | (Exit z, w') => (Exit z, w')
    | (Interrupt, w') => (Interrupt, w')
    end.

Definition throw {A} (message : string) : M A := fun w => (Throw message, w).
Definition process_exit {A} (code : Z) : M A := fun w => (Exit code, w).
Definition interrupted {A} : M A := fun w => (Interrupt, w).

(** [try { body } catch (err) { handler }] *)
Definition try_catch {A} (body : M A) (handler : string -> M A) : M A :=
  fun w =>
    match body w with
    | (Throw e, w') => handler e w'
    | r => r
    end.

(** A computation run while a SIGINT listener is registered: a signal
    that arrives while the computation is suspended runs the listener. *)
Definition on_sigint {A} (body : M A) (listener : M A) : M A :=
  fun w =>
    match body w with
    | (Interrupt, w') => listener w'
    | r => r
    end.

Declare Scope js_scope.
Delimit Scope js_scope with js.
Notation "x <- m ;; k" := (bind m (fun x => k))
  (at level 100, m at next level, right associativity) : js_scope.
Notation "m ;; k" := (bind m (fun _ => k))
  (at level 100, right associativity) : js_scope.
Local Open Scope js_scope.

Definition emit (e : Event) : M unit :=
  fun w => (Normal tt,
            {| files := files w; disk := disk w; trace := e :: trace w;
               clock := clock w; sigintReceived := sigintReceived w |}).

Definition console_log (line : string) : M unit := emit (Logged line).
Definition console_error (line : string) : M unit := emit (ErrorLogged line).
Definition console_warn (line : string) : M unit := emit (Warned line).

(** [new Date().toISOString()]: the clock is read and moves on. *)
Definition nowIso : M nat :=
  fun w => (Normal (clock w),
            {| files := files w; disk := disk w; trace := trace w;
               clock := S (clock w); sigintReceived := sigintReceived w |}).

Definition _setSigintReceived (value : bool) : M unit :=
  fun w => (Normal tt,
            {| files := files w; disk := disk w; trace := trace w;
               clock := clock w; sigintReceived := value |}).

Definition _getSigintReceived : M bool := fun w => (Normal (sigintReceived w), w).

Definition fs_existsSync (file : string) : M bool :=
  fun w => (Normal (bool_decide (is_Some (files w !! file))), w).

Definition fs_readFileSync (file : string) : M string :=
  fun w =>
    match files w !! file with
    | Some text => (Normal text, w)
    | None => (Throw ("ENOENT: no such file or directory, open " +:+ file), w)
    end.

Definition fs_writeFile (file text : string) : M unit :=
  fun w => (Normal tt,
            {| files := <[file := text]> (files w); disk := disk w; trace := trace w;
               clock := clock w; sigintReceived := sigintReceived w |}).

(** The argument vectors of the child processes started so far, the
    state records saved so far and the questions asked so far, newest
    first. *)
Fixpoint spawned (t : list Event) : list (list Json) :=
  match t with
  | [] => []
  | Spawned argv _ :: r => argv :: spawned r
  | _ :: r => spawned r
  end.

Fixpoint saved (t : list Event) : list State :=
  match t with
  | [] => []
  | StateSaved _ s :: r => s :: saved r
  | _ :: r => saved r
  end.

Fixpoint asked (t : list Event) : list string :=
  match t with
  | [] => []
  | Asked q :: r => q :: asked r
  | _ :: r => asked r
  end.

Definition truthy_s (o : option string) : bool :=
  match o with Some s => Str.truthy s | None => false end.

(** [a || b] on possibly absent strings *)
Definition or_s (a b : option string) : option string :=
  if truthy_s a then a else b.

Definition nl : string := String Str.LF EmptyString.

(* ===================================================================== *)
(** ** [lib.js] *)
(* ===================================================================== *)

Section Controller.

Context {RT : Runtime} (env : Env).

Definition DEFAULT_MAX_ITERATIONS : nat := 30.
Definition DEFAULT_COMPLETION_PROMISE : string := "TASK_COMPLETE".
Definition DEFAULT_PROMISE_MODE : string := "tag".
Definition DEFAULT_SANDBOX : string := "read-only".
Definition DEFAULT_APPROVAL : string := "on-request".
Definition DEFAULT_HARD_STOP_TOKEN : string := "HARD STOP".
Definition DEFAULT_HARD_STOP_MODE : string := "pause".
Definition DEFAULT_SAME_PROMPT_EACH_ITERATION : bool := false.

Definition relToWorkspace (absPath workspaceRoot : string) : string :=
  let relative := path_relative workspaceRoot absPath in
  if Str.is_empty relative then "." else relative.

(** [saveState] stamps the record and writes it; the stamped record is
    returned because the caller keeps using the same object. *)
Definition saveState (state : State) (statePath : string) : M State :=
  now <- nowIso ;;
  let state := set_updated_at now state in
  (fun w => (Normal tt,
             {| files := files w; disk := <[statePath := state]> (disk w);
                trace := StateSaved statePath state :: trace w;
                clock := clock w; sigintReceived := sigintReceived w |})) ;;
  ret state.

(** [fs.existsSync] on a path that may hold a text file or a state
    record. *)
Definition fs_existsSync_any (file : string) : M bool :=
  fun w => (Normal (bool_decide (is_Some (files w !! file))
                    || bool_decide (is_Some (disk w !! file))), w).

(** [readJson] of a state path.  A file that holds a record gives the
    record.  Of the other files the model covers those whose text is not
    JSON, on which [JSON.parse] throws; a text that is JSON of another
    shape is outside the model. *)
Definition readJson (filePath : string) : M State :=
  fun w =>
    match disk w !! filePath with
    | Some state => (Normal state, w)
    | None =>
        match files w !! filePath with
        | Some raw => (Throw "SyntaxError: Unexpected token in JSON", w)
        | None => (Throw ("ENOENT: no such file or directory, open " +:+ filePath), w)
        end
    end.

Definition loadState (statePath : string) : M State :=
  present <- fs_existsSync_any statePath ;;
  if negb present then throw ("State file not found at " +:+ statePath)
  else readJson statePath.

(** The options handed to [codex exec]. *)
Record CodexOptions : Type := {
  co_model : option string;
  co_profile : option string;
  co_sandbox : option string;
  co_askForApproval : option string;
  co_fullAuto : bool;
  co_skipGitRepoCheck : bool;
  co_cd : option string;
}.

Definition warnDangerous (options : CodexOptions) : M unit :=
  if bool_decide (co_sandbox options = Some "danger-full-access")
     || bool_decide (co_askForApproval options = Some "never")
  then console_warn
    "[WARN] Running with dangerous settings. Commands may execute without sandbox or approvals."
  else ret tt.

Definition promiseTag (completionPromise : string) : string :=
  "<promise>" +:+ completionPromise +:+ "</promise>".

Definition buildPromptTemplate (loopId : string) (iteration maxIterations : nat)
    (promiseMode completionPromise userPrompt : string)
    (todoFile : option string) (hardStopToken : string) : string :=
  let promiseText :=
    if String.eqb promiseMode "tag" then promiseTag completionPromise
    else if String.eqb promiseMode "plain" then completionPromise
    else "Regex: " +:+ completionPromise in
  let promiseRule :=
    if String.eqb promiseMode "tag"
    then "You MUST output the exact string: " +:+ promiseTag completionPromise
         +:+ " ONLY when all requirements are satisfied and verification passes."
    else "You MUST output the completion promise (" +:+ promiseText
         +:+ ") ONLY when all requirements are satisfied and verification passes." in
  let todoRules :=
    if truthy_s todoFile
    then [ "If " +:+ hardStopToken +:+ " is present in " +:+ default EmptyString todoFile
             +:+ ", stop and request human review before continuing.";
           "Work through TODO items from top to bottom before moving on." ]
    else [] in
  Str.join nl
    ([ "Waylon-Smithers loop";
       "Loop ID: " +:+ loopId;
       "Iteration: " +:+ pretty iteration +:+ " of " +:+ pretty maxIterations;
       "Completion promise (" +:+ promiseMode +:+ " mode): " +:+ promiseText;
       EmptyString;
       "Task:";
       Str.trim userPrompt;
       EmptyString;
       "Iteration philosophy (Ralph Wiggum pattern):";
       "- You have access to your own previous work in the files and git history.";
       "- Each iteration refines the codebase based on what you observe.";
       "- Iteration > perfection: don't aim for perfect on the first try; let the loop refine your work.";
       "- Failures are data: use test/lint failures to inform the next iteration.";
       "- Read your previous output and commit history to understand what has been done.";
       EmptyString;
       "Rules:";
       promiseRule;
       "If blocked, output a short BLOCKED section with what is needed to proceed.";
       "Prefer deterministic verification steps (tests, linters, typechecks) before claiming completion.";
       "After verifying, if any check fails, fix the issue and verify again in this same iteration if possible." ]
     ++ todoRules ++
     [ EmptyString;
       "When you are certain the task is complete and all verification passes, output ONLY the completion promise token on its own line." ]).

Definition buildContinuePrompt (loopId : string) (iteration maxIterations : nat)
    (promiseMode completionPromise : string) : string :=
  let promiseText :=
    if String.eqb promiseMode "tag" then promiseTag completionPromise
    else completionPromise in
  Str.join nl
    [ "Continue the Waylon-Smithers loop.";
      "Loop ID: " +:+ loopId;
      "Iteration: " +:+ pretty iteration +:+ " of " +:+ pretty maxIterations +:+ ".";
      "Remember the completion promise (" +:+ promiseMode +:+ "): " +:+ promiseText;
      "Only output the promise when the task is fully complete and validated." ].

(** [new RegExp(source)] *)
Definition new_RegExp (source : string) : M RegExp :=
  match RegExp_new source with
  | inl re => ret re
  | inr message => throw message
  end.

Definition detectCompletion (lastMessage : option string)
    (promiseMode completionPromise : string) : M bool :=
  if negb (truthy_s lastMessage) then ret false
  else
    let lastMessage := default EmptyString lastMessage in
    if String.eqb promiseMode "regex" then
      try_catch
        (re <- new_RegExp completionPromise ;;
         ret (RegExp_test re lastMessage))
        (fun message =>
           console_error ("Invalid completion regex: " +:+ message) ;;
           ret false)
    else if String.eqb promiseMode "tag" then
      ret (Str.includes lastMessage (promiseTag completionPromise))
    else
      ret (Str.includes lastMessage completionPromise).

Definition checkHardStop (todoPath : option string) (token : string) : M bool :=
  if negb (truthy_s todoPath) then ret false
  else
    let todoPath := default EmptyString todoPath in
    present <- fs_existsSync todoPath ;;
    if negb present then ret false
    else
      content <- fs_readFileSync todoPath ;;
      ret (Str.includes content token).

Definition readFileSafe (filePath : option string) : M string :=
  if negb (truthy_s filePath) then ret EmptyString
  else
    let filePath := default EmptyString filePath in
    present <- fs_existsSync filePath ;;
    if negb present then ret EmptyString
    else fs_readFileSync filePath.

(** The pattern of [parseSessionIdFromText],
    [/[0-9a-f]{8}-[0-9a-f]{4}-[0-9a-f]{4}-[0-9a-f]{4}-[0-9a-f]{12}/i]:
    [hex_run n] reads [n] hexadecimal digits of either case, [dash] one
    hyphen; both answer with the characters that follow. *)
Definition is_hex (c : ascii) : bool :=
  let n := nat_of_ascii c in
  (((48 <=? n) && (n <=? 57)) || ((65 <=? n) && (n <=? 70))
   || ((97 <=? n) && (n <=? 102)))%nat.

Fixpoint hex_run (n : nat) (l : list ascii) : option (list ascii) :=
  match n with
  | 0 => Some l
  | S k =>
      match l with
      | c :: r => if is_hex c then hex_run k r else None
      | [] => None
      end
  end.

Definition dash (l : list ascii) : option (list ascii) :=
  match l with
  | c :: r => if Ascii.eqb c "-" then Some r else None
  | [] => None
  end.

(** Groups of hexadecimal digits with a hyphen between two groups. *)
Fixpoint hex_groups (sizes : list nat) (l : list ascii) : option (list ascii) :=
  match sizes with
  | [] => Some l
  | [n] => hex_run n l
  | n :: more =>
      match hex_run n l with
      | Some l1 =>
          match dash l1 with
          | Some l2 => hex_groups more l2
          | None => None
          end
      | None => None
      end
  end.

Definition uuid_here (l : list ascii) : bool :=
  match hex_groups [8; 4; 4; 4; 12] l with Some _ => true | None => false end.

(** [line.match(re)]: the leftmost place where the pattern matches, and
    the 36 characters matched there. *)
Fixpoint match_uuid (l : list ascii) : option string :=
  if uuid_here l then Some (Str.of_chars (take 36 l))
  else match l with
       | [] => None
       | _ :: r => match_uuid r
       end.

(** A [for ... of] loop that returns at the first element for which the
    body returns a value. *)
Fixpoint first_some {A B} (f : A -> option B) (l : list A) : option B :=
  match l with
  | [] => None
  | x :: r => match f x with Some y => Some y | None => first_some f r end
  end.

Definition parseSessionIdFromText (text : string) : option string :=
  first_some (fun line => match_uuid (Str.chars line)) (Str.split_lines text).

(** [type === "session"] *)
Definition is_session (type : option Json) : bool :=
  match type with
  | Some (JStr t) => String.eqb t "session"
  | _ => false
  end.

(** The body of the [try] block of [parseSessionIdFromJsonLines]:
    [Normal (Some id)] is [return id], [Normal None] falls out of the
    block, [Throw] is caught by the empty handler. *)
Definition event_session_id (line : string) : Completion (option Json) :=
  match JSON_parse line with
  | None => Throw "SyntaxError"
  | Some event =>
      cbind (get_prop event "session_id") (fun sid =>
      if truthy_opt sid then Normal sid else
      cbind (get_prop event "session") (fun session =>
      cbind (match session with
             | Some sess =>
                 if truthy sess && is_object sess
                 then cbind (get_prop sess "id") (fun id =>
                      Normal (if truthy_opt id then id else None))
                 else Normal None
             | None => Normal None
             end) (fun nested =>
      match nested with
      | Some id => Normal (Some id)
      | None =>
          cbind (get_prop event "id") (fun id =>
          if truthy_opt id then
            cbind (get_prop event "type") (fun type =>
            Normal (if is_session type then id else None))
          else Normal None)
      end)))
  end.

Definition event_line_id (line : string) : option Json :=
  if negb (Str.startsWith (Str.trim line) "{") then None
  else match event_session_id line with
       | Normal (Some id) => Some id
       | _ => None
       end.

Definition parseSessionIdFromJsonLines (text : string) : option Json :=
  let lines := List.filter Str.truthy (Str.split_lines text) in
  first_some event_line_id lines.

Definition computeJsonlPath (jsonlBase : option string) (iteration : nat)
    (workspaceRoot : string) : option string :=
  if negb (truthy_s jsonlBase) then None
  else
    let resolved := path_resolve workspaceRoot (default EmptyString jsonlBase) in
    if String.eqb (path_extname resolved) ".jsonl" then
      let name := path_basename resolved ".jsonl" in
      let dir := path_dirname resolved in
      Some (path_join dir (name +:+ "_iter_" +:+ pretty iteration +:+ ".jsonl"))
    else
      Some (path_join resolved ("events_iter_" +:+ pretty iteration +:+ ".jsonl")).

(** [toLowerCase] on the letters A to Z.  The program compares the
    result with [y] and [yes] only, and no character outside ASCII has
    [y], [e] or [s] as its lower case, so the bytes of the other
    characters are left as they are. *)
Definition lower (c : ascii) : ascii :=
  let n := nat_of_ascii c in
  if ((65 <=? n) && (n <=? 90))%nat then ascii_of_nat (n + 32) else c.

Definition toLowerCase (s : string) : string :=
  Str.of_chars (map lower (Str.chars s)).

(** [readline]'s question: the question is printed, and the controller is
    suspended until the user replies. *)
Definition rl_question (question : string) : M string :=
  fun w =>
    let n := length (asked (trace w)) in
    let w' := {| files := files w; disk := disk w;
                 trace := Asked question :: trace w;
                 clock := clock w; sigintReceived := sigintReceived w |} in
    match user env n with
    | Typed resp => (Normal resp, w')
    | CtrlC => (Interrupt, w')
    end.

Definition promptYesNo (message : string) : M bool :=
  resp <- rl_question (message +:+ " [y/N]: ") ;;
  let answer := toLowerCase (Str.trim resp) in
  ret (String.eqb answer "y" || String.eqb answer "yes").

(** [spawn("codex", args, options)] and the wait for the child's [error]
    or [close] event: the process is recorded, the environment says how
    it ends and which files it leaves. *)
Definition child_process_spawn (args : list Json) (cwd : string) : M AgentOutcome :=
  fun w =>
    let n := length (spawned (trace w)) in
    let '(outcome, fs') := agent env n args (files w) in
    (Normal outcome,
     {| files := fs'; disk := disk w; trace := Spawned args cwd :: trace w;
        clock := clock w; sigintReceived := sigintReceived w |}).

Record IterationResult : Type := {
  r_exitCode : option Z;
  r_sessionId : option Json;
  r_stdout : string;
  r_stderr : string;
}.

Definition flag (name : string) (value : option string) : list Json :=
  if truthy_s value then [JStr name; JStr (default EmptyString value)] else [].

Definition codex_args (prompt : string) (resumeSessionId : option Json)
    (lastMessagePath : string) (codexOptions : CodexOptions) : list Json :=
  [JStr "exec"]
  ++ (if truthy_opt resumeSessionId
      then [JStr "resume"; default JNull resumeSessionId]
           ++ (if Str.truthy prompt then [JStr prompt] else [])
      else [JStr prompt])
  ++ [JStr "--output-last-message"; JStr lastMessagePath; JStr "--json"]
  ++ flag "--cd" (co_cd codexOptions)
  ++ flag "--model" (co_model codexOptions)
  ++ flag "--profile" (co_profile codexOptions)
  ++ flag "--sandbox" (co_sandbox codexOptions)
  ++ flag "--ask-for-approval" (co_askForApproval codexOptions)
  ++ (if co_fullAuto codexOptions then [JStr "--full-auto"] else [])
  ++ (if co_skipGitRepoCheck codexOptions then [JStr "--skip-git-repo-check"] else []).

(** The last three lines before the [return] of [runCodexIteration]. *)
Definition resolveSessionId (stdout stderr : string) (resumeSessionId : option Json)
    : option Json :=
  let sessionIdFromJson := parseSessionIdFromJsonLines (stdout +:+ nl +:+ stderr) in
  let sessionIdFromText :=
    js_or (JStr <$> parseSessionIdFromText stdout)
          (JStr <$> parseSessionIdFromText stderr) in
  js_or (js_or (js_or sessionIdFromJson sessionIdFromText) resumeSessionId) None.

Definition runCodexIteration (prompt : string) (resumeSessionId : option Json)
    (workspaceRoot lastMessagePath : string) (jsonlPath : option string)
    (codexOptions : CodexOptions) : M IterationResult :=
  let args := codex_args prompt resumeSessionId lastMessagePath codexOptions in
  let eventsStream text :=
    if truthy_s jsonlPath then fs_writeFile (default EmptyString jsonlPath) text
    else ret tt in
  outcome <- child_process_spawn args workspaceRoot ;;
  match outcome with
  | Sigint => interrupted
  | SpawnError message =>
      eventsStream EmptyString ;;
      throw message
  | Closed exitCode stdout stderr =>
      emit (StdoutMirrored stdout) ;;
      emit (StderrMirrored stderr) ;;
      eventsStream stdout ;;
      ret {| r_exitCode := exitCode;
             r_sessionId := resolveSessionId stdout stderr resumeSessionId;
             r_stdout := stdout;
             r_stderr := stderr |}
  end.

(** The command-line options of the start and resume commands. *)
Record Options : Type := {
  opt_loopId : option string;
  opt_cd : option string;
  opt_stateFile : option string;
  opt_maxIterations : option nat;
  opt_completionPromise : option string;
  opt_promiseMode : option string;
  opt_samePromptEachIteration : option bool;
  opt_jsonlEvents : option string;
  opt_model : option string;
  opt_profile : option string;
  opt_sandbox : option string;
  opt_askForApproval : option string;
  opt_fullAuto : bool;
  opt_skipGitRepoCheck : bool;
}.

(** The third parameter of [buildCodexOptions], [{}] by default. *)
Record Fallback : Type := {
  fb_model : option string;
  fb_profile : option string;
  fb_sandbox : option string;
  fb_approval : option string;
}.

Definition no_fallback : Fallback :=
  {| fb_model := None; fb_profile := None; fb_sandbox := None; fb_approval := None |}.

Definition buildCodexOptions (options : Options) (workspaceRoot : string)
    (fallback : Fallback) : CodexOptions :=
  let sandboxFromOptions :=
    or_s (opt_sandbox options)
         (if opt_fullAuto options then Some "workspace-write" else None) in
  let approvalFromOptions :=
    or_s (opt_askForApproval options)
         (if opt_fullAuto options then Some "on-request" else None) in
  {| co_model := or_s (or_s (opt_model options) (fb_model fallback)) None;
     co_profile := or_s (or_s (opt_profile options) (fb_profile fallback)) None;
     co_sandbox := or_s (or_s sandboxFromOptions (fb_sandbox fallback)) (Some DEFAULT_SANDBOX);
     co_askForApproval :=
       or_s (or_s approvalFromOptions (fb_approval fallback)) (Some DEFAULT_APPROVAL);
     co_fullAuto := opt_fullAuto options || false;
     co_skipGitRepoCheck := opt_skipGitRepoCheck options || false;
     co_cd := Some workspaceRoot |}.

Definition createInitialState (loopId workspaceRoot prompt completionPromise promiseMode : string)
    (maxIterations : nat) (statePath artifactsDir : string)
    (summaryJson jsonlEventsBase todoFile : option string)
    (hardStopToken hardStopMode : string) (samePromptEachIteration : bool)
    (codexOptions : CodexOptions) : M State :=
  created <- nowIso ;;
  updated <- nowIso ;;
  ret {| loop_id := loopId;
         created_at := created;
         updated_at := updated;
         workspace_root := workspaceRoot;
         prompt := prompt;
         completion_promise := completionPromise;
         promise_mode := promiseMode;
         max_iterations := maxIterations;
         same_prompt_each_iteration := Some samePromptEachIteration;
         iteration := 0;
         status := running;
         codex := {| session_id := None;
                     model := or_s (co_model codexOptions) None;
                     sandbox := or_s (co_sandbox codexOptions) None;
                     approval := or_s (co_askForApproval codexOptions) None;
                     profile := or_s (co_profile codexOptions) None |};
         todo := if truthy_s todoFile
                 then Some {| path := relToWorkspace (default EmptyString todoFile) workspaceRoot;
                              hard_stop_token := hardStopToken;
                              hard_stop_mode := hardStopMode;
                              paused_for_hard_stop := false |}
                 else None;
         artifacts := {| dir := relToWorkspace artifactsDir workspaceRoot;
                         last_message_path := None;
                         jsonl_path := None;
                         jsonl_events_base :=
                           if truthy_s jsonlEventsBase
                           then Some (relToWorkspace (default EmptyString jsonlEventsBase)
                                        workspaceRoot)
                           else None;
                         summary_json_path :=
                           if truthy_s summaryJson
                           then Some (relToWorkspace (default EmptyString summaryJson)
                                        workspaceRoot)
                           else None |};
         history := [];
         last_result := None;
         state_path := relToWorkspace statePath workspaceRoot |}.

Definition summary_of (state : State) : Summary :=
  {| sum_loop_id := loop_id state;
     sum_status := status state;
     sum_iteration := iteration state;
     sum_max_iterations := max_iterations state;
     sum_completion_promise := completion_promise state;
     sum_promise_mode := promise_mode state;
     sum_history := history state;
     sum_workspace_root := workspace_root state;
     sum_artifacts := artifacts state;
     sum_last_result := last_result state;
     sum_updated_at := updated_at state |}.

(** The summary is a document of its own, beside the text files and the
    records: its write is recorded in the trace, with the path and the
    content. *)
Definition updateSummary (summaryPath : option string) (state : State) : M unit :=
  if negb (truthy_s summaryPath) then ret tt
  else emit (SummaryWritten (default EmptyString summaryPath) (summary_of state)).

(** [path.resolve(p)] with one argument resolves against the working
    directory of the process. *)
Definition resolve1 (p : string) : string := path_resolve (process_cwd env) p.

Definition loops_dir : string := ".codex/waylon-smithers/loops".

Definition resolveStatePath (loopId stateFile : option string) (workspaceRoot : string)
    : M string :=
  if truthy_s stateFile then ret (resolve1 (default EmptyString stateFile))
  else if negb (truthy_s loopId)
  then throw "A loop id is required when no state file is provided."
  else ret (path_resolve (path_resolve workspaceRoot loops_dir)
              (default EmptyString loopId +:+ ".json")).

Definition resolveArtifactsDir (loopId workspaceRoot : string) : string :=
  path_resolve (path_resolve workspaceRoot loops_dir) loopId.

(* ===================================================================== *)
(** ** The command module: [runLoop] and [handleResume] *)
(* ===================================================================== *)

(** The named arguments of [runLoop], the state record apart. *)
Record LoopArgs : Type := {
  statePath : string;
  workspaceRoot : string;
  completionPromise : string;
  promiseMode : string;
  maxIterations : nat;
  samePromptEachIteration : bool;
  artifactsDir : string;
  summaryJson : option string;
  jsonlEventsBase : option string;
  todoFile : option string;
  hardStopToken : string;
  hardStopMode : string;
  codexOptions : CodexOptions;
}.

(** How one pass through the body of the [for] loop ends: it falls
    through to the next iteration, or leaves by [break] or by [return]. *)
Inductive Flow : Type := Next | Break | Return.

(** [v == null] *)
Definition is_nullish (v : option Json) : bool :=
  match v with None | Some JNull => true | _ => false end.

(** The listener [runLoop] registers for SIGINT, run on the state record
    as it is when the signal arrives. *)
Definition sigint_listener {A} (a : LoopArgs) (state : State) : M A :=
  _setSigintReceived true ;;
  let state := set_status paused_user_interrupt state in
  state <- saveState state (statePath a) ;;
  updateSummary (summaryJson a) state ;;
  console_error (nl +:+ "Paused due to user interrupt. State saved for resume.") ;;
  process_exit 1.

(** The path of the final-message artifact of one iteration. *)
Definition lastMessagePathOf (a : LoopArgs) (iteration : nat) : string :=
  path_resolve (artifactsDir a) ("last_message_iter_" +:+ pretty iteration +:+ ".txt").

(** The prompt of one iteration: the full template while no session is
    known or in same-prompt mode, the short continuation otherwise. *)
Definition promptOf (a : LoopArgs) (iteration : nat) (state : State) : string :=
  let useFullPrompt :=
    is_nullish (session_id (codex state)) || samePromptEachIteration a in
  if useFullPrompt
  then buildPromptTemplate (loop_id state) iteration (maxIterations a) (promiseMode a)
         (completionPromise a) (prompt state) (todoFile a) (hardStopToken a)
  else buildContinuePrompt (loop_id state) iteration (maxIterations a) (promiseMode a)
         (completionPromise a).

(** The body of the [for] loop is written in four parts, in the order
    of the source: the call of the agent runner inside [try]/[catch]
    ([invoke]), the bookkeeping up to the first save ([record]), the
    checkpoint block ([checkpoint]) and the loop body that chains them. *)

(** [try { result = await runCodexIteration(...) } catch (err) { ... }]:
    the result of the runner, or the record as the [catch] block leaves
    it before its [return]. *)
Definition invoke (a : LoopArgs) (iteration : nat) (state : State)
    : M (IterationResult + State) :=
  let lastMessagePath := lastMessagePathOf a iteration in
  let jsonlPath := computeJsonlPath (jsonlEventsBase a) iteration (workspaceRoot a) in
  let prompt := promptOf a iteration state in
  try_catch
    (result <- on_sigint
                 (runCodexIteration prompt (session_id (codex state)) (workspaceRoot a)
                    lastMessagePath jsonlPath (codexOptions a))
                 (sigint_listener a state) ;;
     ret (inl result))
    (fun message =>
       console_error ("codex exec failed: " +:+ message) ;;
       let state := set_status error_spawn state in
       let state :=
         set_last_result (Some {| exit_code := None; detected_promise := false |}) state in
       state <- saveState state (statePath a) ;;
       updateSummary (summaryJson a) state ;;
       ret (inr state)).

(** From [state.codex.session_id = sessionId] to the first
    [updateSummary]: the record is brought up to date, the final message
    is read and tested, the history entry is pushed, the record is
    saved.  The result is [detectedPromise] with the record and the
    history. *)
Definition record (a : LoopArgs) (iteration : nat) (state : State)
    (history : list IterationRecord) (result : IterationResult)
    : M (bool * State * list IterationRecord) :=
  let lastMessagePath := lastMessagePathOf a iteration in
  let jsonlPath := computeJsonlPath (jsonlEventsBase a) iteration (workspaceRoot a) in
  let exitCode := r_exitCode result in
  let sessionId := r_sessionId result in
  let state := set_codex (codex_with_session_id sessionId (codex state)) state in
  let state := set_iteration iteration state in
  let state := set_status running state in
  let state :=
    set_last_result (Some {| exit_code := exitCode; detected_promise := false |}) state in
  let state :=
    set_artifacts (artifacts_with_last_message_path
                     (Some (relToWorkspace lastMessagePath (workspaceRoot a)))
                     (artifacts state)) state in
  let state :=
    set_artifacts (artifacts_with_jsonl_path
                     (if truthy_s jsonlPath
                      then Some (relToWorkspace (default EmptyString jsonlPath) (workspaceRoot a))
                      else None)
                     (artifacts state)) state in
  lastMessage <- readFileSafe (Some lastMessagePath) ;;
  detectedPromise <- detectCompletion (Some lastMessage) (promiseMode a) (completionPromise a) ;;
  let state := set_last_result_detected_promise detectedPromise state in
  finished <- nowIso ;;
  let iterationRecord :=
    {| it_iteration := iteration;
       it_finished_at := finished;
       it_exit_code := exitCode;
       it_detected_promise := detectedPromise;
       it_last_message_path := last_message_path (artifacts state);
       it_jsonl_path := jsonl_path (artifacts state) |} in
  let history := history ++ [iterationRecord] in
  let state := set_history history state in
  state <- saveState state (statePath a) ;;
  updateSummary (summaryJson a) state ;;
  ret (detectedPromise, state, history).

(** The block run when the HARD STOP token is found. *)
Definition checkpoint (a : LoopArgs) (state : State) : M (Flow * State) :=
  let state := set_status paused_hard_stop state in
  let state := set_paused_for_hard_stop true state in
  state <- saveState state (statePath a) ;;
  updateSummary (summaryJson a) state ;;
  console_log (nl +:+ "HARD STOP token found in "
               +:+ default EmptyString (todoFile a) +:+ ".") ;;
  if String.eqb (hardStopMode a) "exit" then
    console_log "Exiting loop. Resume later to continue." ;;
    ret (Break, state)
  else
    shouldContinue <-
      on_sigint (promptYesNo "HARD STOP reached. Continue the loop after review?")
                (sigint_listener a state) ;;
    if negb shouldContinue then
      console_log "Pausing loop. Run `waylon-smithers resume --loop-id <id>` to continue." ;;
      ret (Break, state)
    else
      let state := set_paused_for_hard_stop false state in
      let state := set_status running state in
      state <- saveState state (statePath a) ;;
      updateSummary (summaryJson a) state ;;
      ret (Next, state).

Definition loop_body (a : LoopArgs) (iteration : nat) (state : State)
    (history : list IterationRecord) : M (Flow * State * list IterationRecord) :=
  interrupted <- _getSigintReceived ;;
  if interrupted then ret (Break, state, history) else
  console_log (nl +:+ "--- Waylon-Smithers iteration " +:+ pretty iteration +:+ "/"
               +:+ pretty (maxIterations a) +:+ " (loop " +:+ loop_id state +:+ ") ---") ;;
  attempt <- invoke a iteration state ;;
  match attempt with
  | inr state => ret (Return, state, history)
  | inl result =>
      if negb (truthy_opt (r_sessionId result)) then
        console_error "Unable to detect Codex session id. The loop cannot continue." ;;
        let state := set_status error_no_session state in
        state <- saveState state (statePath a) ;;
        updateSummary (summaryJson a) state ;;
        ret (Return, state, history)
      else
        recorded <- record a iteration state history result ;;
        let '(detectedPromise, state, history) := recorded in
        if detectedPromise then
          let state := set_status completed state in
          state <- saveState state (statePath a) ;;
          updateSummary (summaryJson a) state ;;
          console_log ("Completion promise detected on iteration " +:+ pretty iteration
                       +:+ ". Loop " +:+ loop_id state +:+ " completed.") ;;
          ret (Break, state, history)
        else
          hardStop <- (if truthy_s (todoFile a)
                       then checkHardStop (todoFile a) (hardStopToken a)
                       else ret false) ;;
          checked <- (if hardStop then checkpoint a state else ret (Next, state)) ;;
          match checked with
          | (Next, state) =>
              if (maxIterations a <=? iteration)%nat then
                let state := set_status stopped_max_iterations state in
                state <- saveState state (statePath a) ;;
                updateSummary (summaryJson a) state ;;
                console_log ("Reached max iterations (" +:+ pretty (maxIterations a)
                             +:+ ") without detecting completion promise.") ;;
                ret (Break, state, history)
              else ret (Next, state, history)
          | (flow, state) => ret (flow, state, history)
          end
  end.

(** [for (let iteration = ...; iteration <= maxIterations; iteration++)]
    over the iteration numbers that satisfy the loop condition. *)
Fixpoint for_iterations (a : LoopArgs) (iterations : list nat) (state : State)
    (history : list IterationRecord) : M State :=
  match iterations with
  | [] => ret state
  | iteration :: later =>
      r <- loop_body a iteration state history ;;
      match r with
      | (Next, state, history) => for_iterations a later state history
      | (_, state, _) => ret state
      end
  end.

(** The state record is changed in place by the JavaScript code; here
    [runLoop] returns the record as it is when the function returns. *)
Definition runLoop (a : LoopArgs) (state : State) : M State :=
  _setSigintReceived false ;;
  warnDangerous (codexOptions a) ;;
  let state :=
    set_artifacts (artifacts_with_jsonl_events_base
                     (if truthy_s (jsonlEventsBase a)
                      then Some (relToWorkspace (default EmptyString (jsonlEventsBase a))
                                   (workspaceRoot a))
                      else None)
                     (artifacts state)) state in
  let history := history state in
  for_iterations a
    (seq (iteration state + 1) (maxIterations a - iteration state)) state history.

(** A positive count is truthy. *)
Definition truthy_n (o : option nat) : bool :=
  match o with Some (S _) => true | _ => false end.

(** The arguments [handleResume] hands to [runLoop], computed from the
    record as it stands after the overrides. *)
Definition resume_args (options : Options) (state : State)
    (statePath workspaceRoot : string) (codexOptions : CodexOptions) : LoopArgs :=
  let artifactsDir := path_resolve workspaceRoot (dir (artifacts state)) in
  let summaryJson :=
    if truthy_s (summary_json_path (artifacts state))
    then path_resolve workspaceRoot (default EmptyString (summary_json_path (artifacts state)))
    else path_join artifactsDir "summary.json" in
  let jsonlEventsBase :=
    if truthy_s (opt_jsonlEvents options)
    then Some (path_resolve workspaceRoot (default EmptyString (opt_jsonlEvents options)))
    else if truthy_s (jsonl_events_base (artifacts state))
    then Some (path_resolve workspaceRoot
                 (default EmptyString (jsonl_events_base (artifacts state))))
    else None in
  {| statePath := statePath;
     workspaceRoot := workspaceRoot;
     completionPromise := completion_promise state;
     promiseMode := promise_mode state;
     maxIterations := max_iterations state;
     samePromptEachIteration :=
       default DEFAULT_SAME_PROMPT_EACH_ITERATION (same_prompt_each_iteration state);
     artifactsDir := artifactsDir;
     summaryJson := Some summaryJson;
     jsonlEventsBase := jsonlEventsBase;
     todoFile := (fun t => path_resolve workspaceRoot (path t)) <$> todo state;
     hardStopToken :=
       match todo state with
       | Some t => hard_stop_token t
       | None => DEFAULT_HARD_STOP_TOKEN
       end;
     hardStopMode :=
       match todo state with
       | Some t => hard_stop_mode t
       | None => DEFAULT_HARD_STOP_MODE
       end;
     codexOptions := codexOptions |}.

(** [path.resolve(options.cd || process.cwd())] *)
Definition stateLookupRootOf (options : Options) : string :=
  resolve1 (default (process_cwd env) (or_s (opt_cd options) (Some (process_cwd env)))).

(** The part of [handleResume] before the call of [runLoop]: the record
    is loaded, the overrides are written into it, and it is saved.  The
    result is the saved record with the arguments for [runLoop]. *)
Definition resume_step (options : Options) : M (LoopArgs * State) :=
  let loopId := opt_loopId options in
  let stateLookupRoot := stateLookupRootOf options in
  statePath <- resolveStatePath loopId (opt_stateFile options) stateLookupRoot ;;
  state <- loadState statePath ;;
  let workspaceRoot :=
    if Str.truthy (workspace_root state) then resolve1 (workspace_root state)
    else stateLookupRoot in
  let state :=
    if truthy_n (opt_maxIterations options)
    then set_max_iterations (default 0 (opt_maxIterations options)) state else state in
  let state :=
    if truthy_s (opt_completionPromise options)
    then set_completion_promise (default EmptyString (opt_completionPromise options)) state
    else state in
  let state :=
    if truthy_s (opt_promiseMode options)
    then set_promise_mode (default EmptyString (opt_promiseMode options)) state
    else state in
  let state :=
    match opt_samePromptEachIteration options with
    | Some v => set_same_prompt_each_iteration (Some v) state
    | None => state
    end in
  let codexOptions := buildCodexOptions options workspaceRoot no_fallback in
  let state := set_codex (codex_with_model (co_model codexOptions) (codex state)) state in
  let state := set_codex (codex_with_sandbox (co_sandbox codexOptions) (codex state)) state in
  let state :=
    set_codex (codex_with_approval (co_askForApproval codexOptions) (codex state)) state in
  let state := set_codex (codex_with_profile (co_profile codexOptions) (codex state)) state in
  state <- saveState state statePath ;;
  ret (resume_args options state statePath workspaceRoot codexOptions, state).

Definition handleResume (options : Options) : M State :=
  r <- resume_step options ;;
  runLoop (fst r) (snd r).

(* ===================================================================== *)
(** ** The other commands: [handleStart], [handleCancel], [parseInteger] *)
(* ===================================================================== *)

(** *** [parseInteger] *)

(** The values [parseInt] returns: not a number, an integer that a
    Number holds exactly (below 2^53 in absolute value), or a number
    beyond that range, of which only the sign is kept here. *)
Inductive Num : Type :=
| NaN
| Int (z : Z)
| Beyond (negative : bool).

Definition is_decimal (c : ascii) : bool :=
  let n := nat_of_ascii c in ((48 <=? n) && (n <=? 57))%nat.

(** The decimal digits at the head of the text. *)
Fixpoint leading_digits (l : list ascii) : list ascii :=
  match l with
  | c :: r => if is_decimal c then c :: leading_digits r else []
  | [] => []
  end.

Definition digit_value (c : ascii) : Z := Z.of_nat (nat_of_ascii c - 48).

Definition decimal_value (ds : list ascii) : Z :=
  fold_left (fun acc c => 10 * acc + digit_value c)%Z ds 0%Z.

Definition safe_limit : Z := 2 ^ 53.

(** [parseInt(value, 10)] on a text: leading white space is skipped
    (the same characters as for [Str.trim]), one sign is read, then the
    longest run of decimal digits; what follows the digits is ignored,
    and without a digit the result is [NaN]. *)
Definition parseInt10 (value : string) : Num :=
  let s := Str.chars (Str.trimStart value) in
  let '(negative, body) :=
    match s with
    | c :: r =>
        if Ascii.eqb c "-" then (true, r)
        else if Ascii.eqb c "+" then (false, r)
        else (false, s)
    | [] => (false, [])
    end in
  match leading_digits body with
  | [] => NaN
  | ds =>
      let v := decimal_value ds in
      if (v <? safe_limit)%Z then Int (if negative then (- v)%Z else v)
      else Beyond negative
  end.

(** [Number.isNaN(parsed)] and [parsed <= 0] *)
Definition isNaN (n : Num) : bool :=
  match n with NaN => true | _ => false end.

Definition not_positive (n : Num) : bool :=
  match n with
  | NaN => false
  | Int z => (z <=? 0)%Z
  | Beyond negative => negative
  end.

Definition parseInteger (value : string) : Completion Num :=
  let parsed := parseInt10 value in
  if isNaN parsed || not_positive parsed
  then Throw "Value must be a positive integer."
  else Normal parsed.

(** *** [defaultLoopId] *)

(** How a reading of the clock is written: [Date.prototype.toISOString]. *)
Variable toISOString : nat -> string.

(** [s.replace(/[:]/g, "-")] *)
Definition replace_colons (s : string) : string :=
  Str.of_chars (map (fun c => if Ascii.eqb c ":" then "-"%char else c) (Str.chars s)).

(** The pattern [\.\d+Z?$] matches at the head of the text: a dot, at
    least one digit, at most one [Z], and nothing more. *)
Definition fraction_here (l : list ascii) : bool :=
  match l with
  | c :: r =>
      Ascii.eqb c "." &&
      match leading_digits r with
      | [] => false
      | ds =>
          match drop (length ds) r with
          | [] => true
          | [z] => Ascii.eqb z "Z"
          | _ => false
          end
      end
  | [] => false
  end.

(** [s.replace(/\.\d+Z?$/, "")]: the text up to the leftmost place
    where the pattern matches. *)
Fixpoint strip_fraction (l : list ascii) : list ascii :=
  if fraction_here l then []
  else match l with
       | [] => []
       | c :: r => c :: strip_fraction r
       end.

(** [path.basename(p)]: the second argument of [path.basename] is
    optional, and the empty suffix removes nothing. *)
Definition defaultLoopId (workspaceRoot : string) : M string :=
  let name :=
    path_basename (if Str.truthy workspaceRoot then workspaceRoot else process_cwd env)
      EmptyString in
  now <- nowIso ;;
  let stamp :=
    Str.of_chars (strip_fraction (Str.chars (replace_colons (toISOString now)))) in
  ret (name +:+ "-" +:+ stamp).

(** *** [handleStart] *)

(** The options of the start command that the resume command does not
    have; the others are in [so_common]. *)
Record StartOptions : Type := {
  so_common : Options;
  so_lastMessageDir : option string;
  so_summaryJson : option string;
  so_todoFile : option string;
  so_hardStopToken : option string;
  so_hardStopMode : option string;
}.

Definition handleStart (prompt : string) (options : StartOptions) : M State :=
  let common := so_common options in
  let workspaceRoot :=
    resolve1 (default (process_cwd env) (or_s (opt_cd common) (Some (process_cwd env)))) in
  loopId <- (if truthy_s (opt_loopId common)
             then ret (default EmptyString (opt_loopId common))
             else defaultLoopId workspaceRoot) ;;
  statePath <- resolveStatePath (Some loopId) (opt_stateFile common) workspaceRoot ;;
  let artifactsDir :=
    if truthy_s (so_lastMessageDir options)
    then resolve1 (default EmptyString (so_lastMessageDir options))
    else resolveArtifactsDir loopId workspaceRoot in
  let summaryJson :=
    if truthy_s (so_summaryJson options)
    then resolve1 (default EmptyString (so_summaryJson options))
    else path_join artifactsDir "summary.json" in
  let jsonlEventsBase :=
    if truthy_s (opt_jsonlEvents common)
    then Some (path_resolve workspaceRoot (default EmptyString (opt_jsonlEvents common)))
    else None in
  present <- fs_existsSync_any statePath ;;
  if present then
    throw ("State file already exists at " +:+ statePath
           +:+ ". Use --loop-id to start a new loop.")
  else
    let codexOptions := buildCodexOptions common workspaceRoot no_fallback in
    let todoFile :=
      if truthy_s (so_todoFile options)
      then Some (path_resolve workspaceRoot (default EmptyString (so_todoFile options)))
      else None in
    let samePromptEachIteration :=
      default DEFAULT_SAME_PROMPT_EACH_ITERATION (opt_samePromptEachIteration common) in
    let hardStopToken :=
      default EmptyString (or_s (so_hardStopToken options) (Some DEFAULT_HARD_STOP_TOKEN)) in
    let hardStopMode :=
      default EmptyString (or_s (so_hardStopMode options) (Some DEFAULT_HARD_STOP_MODE)) in
    initialState <-
      createInitialState loopId workspaceRoot prompt
        (default EmptyString
           (or_s (opt_completionPromise common) (Some DEFAULT_COMPLETION_PROMISE)))
        (default EmptyString (or_s (opt_promiseMode common) (Some DEFAULT_PROMISE_MODE)))
        (if truthy_n (opt_maxIterations common)
         then default 0 (opt_maxIterations common) else DEFAULT_MAX_ITERATIONS)
        statePath artifactsDir (Some summaryJson) jsonlEventsBase todoFile
        hardStopToken hardStopMode samePromptEachIteration codexOptions ;;
    initialState <- saveState initialState statePath ;;
    updateSummary (Some summaryJson) initialState ;;
    runLoop
      {| statePath := statePath;
         workspaceRoot := workspaceRoot;
         completionPromise := completion_promise initialState;
         promiseMode := promise_mode initialState;
         maxIterations := max_iterations initialState;
         (* [initialState.same_prompt_each_iteration]: the field of the
            record just created; an absent value would be falsy *)
         samePromptEachIteration :=
           default false (same_prompt_each_iteration initialState);
         artifactsDir := artifactsDir;
         summaryJson := Some summaryJson;
         jsonlEventsBase := jsonlEventsBase;
         todoFile := todoFile;
         hardStopToken := hardStopToken;
         hardStopMode := hardStopMode;
         codexOptions := codexOptions |}
      initialState.

(** *** [handleCancel] *)

(** Whether a path is a directory or lies below it. *)
Variable below : string -> string -> bool.

(** [fs.rmSync(dir, { recursive: true, force: true })] and
    [fs.rmSync(file, { force: true })].  Both are guarded by
    [fs.existsSync] in [deleteArtifacts]; with [force] the removal of
    what does not exist does nothing, so the guards change nothing. *)
Definition fs_rmSync_recursive (dir : string) : M unit :=
  fun w => (Normal tt,
            {| files := filter (fun kv => below dir kv.1 = false) (files w);
               disk := filter (fun kv => below dir kv.1 = false) (disk w);
               trace := trace w; clock := clock w;
               sigintReceived := sigintReceived w |}).

Definition fs_rmSync (file : string) : M unit :=
  fun w => (Normal tt,
            {| files := delete file (files w); disk := delete file (disk w);
               trace := trace w; clock := clock w;
               sigintReceived := sigintReceived w |}).

Definition deleteArtifacts (artifactsDir statePath : string) : M unit :=
  fs_rmSync_recursive artifactsDir ;;
  fs_rmSync statePath.

Definition handleCancel (options : Options) (cleanupArtifacts : bool) : M unit :=
  let workspaceRoot := stateLookupRootOf options in
  statePath <- resolveStatePath (opt_loopId options) (opt_stateFile options) workspaceRoot ;;
  state <- loadState statePath ;;
  let state := set_status canceled state in
  state <- saveState state statePath ;;
  if cleanupArtifacts then
    let artifactsDir := path_resolve workspaceRoot (dir (artifacts state)) in
    deleteArtifacts artifactsDir statePath ;;
    console_log ("Canceled loop " +:+ loop_id state +:+ " and removed artifacts.")
  else
    console_log ("Canceled loop " +:+ loop_id state +:+ ". Artifacts remain at "
                 +:+ dir (artifacts state) +:+ ".").

(* ===================================================================== *)
(** ** What the properties observe *)
(* ===================================================================== *)

(** The definitions below are not part of the program: they name what
    the program reads and leaves behind, so that the properties can be
    stated. *)

(** The world with one more line on the error console. *)
Definition with_error (line : string) (w : World) : World :=
  {| files := files w; disk := disk w; trace := ErrorLogged line :: trace w;
     clock := clock w; sigintReceived := sigintReceived w |}.

Definition empty_world : World :=
  {| files := ∅; disk := ∅; trace := []; clock := 0; sigintReceived := false |}.

Definition on_files (fs : gmap string string) : World :=
  {| files := fs; disk := ∅; trace := []; clock := 0; sigintReceived := false |}.

Definition value_or {A} (d : A) (r : Completion A * World) : A :=
  match fst r with Normal a => a | _ => d end.

(** What [readFileSafe], [detectCompletion] and the checkpoint test of
    the loop answer on given files. *)
Definition file_text (fs : gmap string string) (p : string) : string :=
  value_or EmptyString (readFileSafe (Some p) (on_files fs)).

Definition detected (message mode token : string) : bool :=
  value_or false (detectCompletion (Some message) mode token empty_world).

Definition sentinel (fs : gmap string string) (todoFile : option string) (token : string) : bool :=
  value_or false
    ((if truthy_s todoFile then checkHardStop todoFile token else ret false) (on_files fs)).

(** *** What one pass through the loop body does *)
(** The fields of the state record the properties speak about. *)
Record View : Type := {
  v_status : Status;
  v_iteration : nat;
  v_history : list IterationRecord;
  v_todo : option Todo;
  v_session : option Json;
  v_loop_id : string;
  v_prompt : string;
}.

Definition view (s : State) : View :=
  {| v_status := status s; v_iteration := iteration s; v_history := history s;
     v_todo := todo s; v_session := session_id (codex s);
     v_loop_id := loop_id s; v_prompt := prompt s |}.

Definition with_status (st : Status) (v : View) : View :=
  {| v_status := st; v_iteration := v_iteration v; v_history := v_history v;
     v_todo := v_todo v; v_session := v_session v;
     v_loop_id := v_loop_id v; v_prompt := v_prompt v |}.

Definition with_paused (flag : bool) (v : View) : View :=
  {| v_status := v_status v; v_iteration := v_iteration v; v_history := v_history v;
     v_todo := todo_with_paused_for_hard_stop flag <$> v_todo v; v_session := v_session v;
     v_loop_id := v_loop_id v; v_prompt := v_prompt v |}.

(** The arguments of the child process of an iteration, and what the
    environment answers to it. *)
Definition args_of (a : LoopArgs) (i : nat) (s : State) : list Json :=
  codex_args (promptOf a i s) (session_id (codex s)) (lastMessagePathOf a i) (codexOptions a).

Definition respond (a : LoopArgs) (i : nat) (s : State) (w : World)
    : AgentOutcome * gmap string string :=
  agent env (length (spawned (trace w))) (args_of a i s) (files w).

(** The files once the runner has closed the event stream of the
    iteration: the files the child left, with the captured standard
    output under the event-log path when there is one. *)
Definition stream_files (a : LoopArgs) (i : nat) (text : string) (fs : gmap string string)
    : gmap string string :=
  let jsonlPath := computeJsonlPath (jsonlEventsBase a) i (workspaceRoot a) in
  if truthy_s jsonlPath then <[default EmptyString jsonlPath := text]> fs else fs.

(** From world [w] to world [w']: the files are [fs], the child
    processes [sp] were started, the records [sv] were saved at the state
    path and the questions [qs] were asked (newest first). *)
Definition effects (a : LoopArgs) (w w' : World) (fs : gmap string string)
    (sp : list (list Json)) (sv : list State) (qs : list string) : Prop :=
  files w' = fs
  /\ spawned (trace w') = sp ++ spawned (trace w)
  /\ saved (trace w') = sv ++ saved (trace w)
  /\ asked (trace w') = qs ++ asked (trace w)
  /\ disk w' = foldr (fun s d => <[statePath a := s]> d) (disk w) sv.

(** The three ways the call of the runner ends. *)
Inductive invoked (a : LoopArgs) (i : nat) (s : State) (w : World)
    : Completion (IterationResult + State) -> World -> Prop :=
| invoked_sigint fs' snap w' :
    respond a i s w = (Sigint, fs') ->
    effects a w w' fs' [args_of a i s] [snap] [] ->
    view snap = with_status paused_user_interrupt (view s) ->
    invoked a i s w (Exit 1) w'
| invoked_error message fs' s' w' :
    respond a i s w = (SpawnError message, fs') ->
    effects a w w' (stream_files a i EmptyString fs') [args_of a i s] [s'] [] ->
    sigintReceived w' = sigintReceived w ->
    view s' = with_status error_spawn (view s) ->
    invoked a i s w (Normal (inr s')) w'
| invoked_closed code out err fs' w' :
    respond a i s w = (Closed code out err, fs') ->
    effects a w w' (stream_files a i out fs') [args_of a i s] [] [] ->
    sigintReceived w' = sigintReceived w ->
    invoked a i s w
      (Normal (inl {| r_exitCode := code;
                      r_sessionId := resolveSessionId out err (session_id (codex s));
                      r_stdout := out; r_stderr := err |})) w'.

(** What [record] leaves: the record of the iteration is new, the state
    is saved once, the files are untouched. *)
Definition booked_view (i : nat) (s : State) (h : list IterationRecord)
    (rec : IterationRecord) (sid : option Json) : View :=
  {| v_status := running; v_iteration := i; v_history := h ++ [rec];
     v_todo := todo s; v_session := sid;
     v_loop_id := loop_id s; v_prompt := prompt s |}.

(** The reply that [promptYesNo] takes for a yes. *)
Definition says_yes (resp : string) : bool :=
  let answer := toLowerCase (Str.trim resp) in
  String.eqb answer "y" || String.eqb answer "yes".

Definition reply (w : World) : UserReply := user env (length (asked (trace w))).

(** The four ways the checkpoint block ends. *)
Inductive checkpointed (a : LoopArgs) (s : State) (w : World)
    : Completion (Flow * State) -> World -> Prop :=
| checkpoint_exit s1 w' :
    hardStopMode a = "exit" ->
    effects a w w' (files w) [] [s1] [] ->
    sigintReceived w' = sigintReceived w ->
    view s1 = with_paused true (with_status paused_hard_stop (view s)) ->
    checkpointed a s w (Normal (Break, s1)) w'
| checkpoint_declined resp q s1 w' :
    hardStopMode a <> "exit" ->
    reply w = Typed resp -> says_yes resp = false ->
    effects a w w' (files w) [] [s1] [q] ->
    sigintReceived w' = sigintReceived w ->
    view s1 = with_paused true (with_status paused_hard_stop (view s)) ->
    checkpointed a s w (Normal (Break, s1)) w'
| checkpoint_sigint q s1 snap w' :
    hardStopMode a <> "exit" ->
    reply w = CtrlC ->
    effects a w w' (files w) [] [snap; s1] [q] ->
    view s1 = with_paused true (with_status paused_hard_stop (view s)) ->
    view snap = with_status paused_user_interrupt (view s1) ->
    checkpointed a s w (Exit 1) w'
| checkpoint_continued resp q s1 s2 w' :
    hardStopMode a <> "exit" ->
    reply w = Typed resp -> says_yes resp = true ->
    effects a w w' (files w) [] [s2; s1] [q] ->
    sigintReceived w' = sigintReceived w ->
    view s1 = with_paused true (with_status paused_hard_stop (view s)) ->
    view s2 = with_paused false (with_status running (view s)) ->
    checkpointed a s w (Normal (Next, s2)) w'.

(** An iteration that reaches the bookkeeping: the child closed with
    [code], [out] and [err] and left the files [fs'], a session
    identifier was resolved, and [rec] is the history entry pushed. *)
Definition session_of (s : State) (out err : string) : option Json :=
  resolveSessionId out err (session_id (codex s)).

Definition message_of (a : LoopArgs) (i : nat) (out : string) (fs' : gmap string string)
    : string :=
  file_text (stream_files a i out fs') (lastMessagePathOf a i).

Definition checkpoint_hit (a : LoopArgs) (i : nat) (out : string) (fs' : gmap string string)
    : bool :=
  sentinel (stream_files a i out fs') (todoFile a) (hardStopToken a).

Definition concluded (a : LoopArgs) (i : nat) (s : State) (w : World)
    (code : option Z) (out err : string) (fs' : gmap string string)
    (rec : IterationRecord) : Prop :=
  sigintReceived w = false
  /\ respond a i s w = (Closed code out err, fs')
  /\ truthy_opt (session_of s out err) = true
  /\ it_iteration rec = i
  /\ it_exit_code rec = code
  /\ it_detected_promise rec
     = detected (message_of a i out fs') (promiseMode a) (completionPromise a).

(** Every way one pass through the loop body can end. *)
Inductive outcome (a : LoopArgs) (i : nat) (s : State) (h : list IterationRecord) (w : World)
    : Completion (Flow * State * list IterationRecord) -> World -> Prop :=
| skipped :
    sigintReceived w = true ->
    outcome a i s h w (Normal (Break, s, h)) w
| agent_interrupted fs' snap w' :
    sigintReceived w = false ->
    respond a i s w = (Sigint, fs') ->
    effects a w w' fs' [args_of a i s] [snap] [] ->
    view snap = with_status paused_user_interrupt (view s) ->
    outcome a i s h w (Exit 1) w'
| spawn_failed message fs' s' w' :
    sigintReceived w = false ->
    respond a i s w = (SpawnError message, fs') ->
    effects a w w' (stream_files a i EmptyString fs') [args_of a i s] [s'] [] ->
    sigintReceived w' = false ->
    view s' = with_status error_spawn (view s) ->
    outcome a i s h w (Normal (Return, s', h)) w'
| session_missing code out err fs' s' w' :
    sigintReceived w = false ->
    respond a i s w = (Closed code out err, fs') ->
    truthy_opt (session_of s out err) = false ->
    effects a w w' (stream_files a i out fs') [args_of a i s] [s'] [] ->
    sigintReceived w' = false ->
    view s' = with_status error_no_session (view s) ->
    outcome a i s h w (Normal (Return, s', h)) w'
| promise_detected code out err fs' rec s1 s2 w' :
    concluded a i s w code out err fs' rec ->
    it_detected_promise rec = true ->
    effects a w w' (stream_files a i out fs') [args_of a i s] [s2; s1] [] ->
    sigintReceived w' = false ->
    view s1 = booked_view i s h rec (session_of s out err) ->
    view s2 = with_status completed (view s1) ->
    outcome a i s h w (Normal (Break, s2, h ++ [rec])) w'
| went_on code out err fs' rec s1 w' :
    concluded a i s w code out err fs' rec ->
    it_detected_promise rec = false ->
    checkpoint_hit a i out fs' = false ->
    (maxIterations a <=? i)%nat = false ->
    effects a w w' (stream_files a i out fs') [args_of a i s] [s1] [] ->
    sigintReceived w' = false ->
    view s1 = booked_view i s h rec (session_of s out err) ->
    outcome a i s h w (Normal (Next, s1, h ++ [rec])) w'
| ran_out code out err fs' rec s1 s2 w' :
    concluded a i s w code out err fs' rec ->
    it_detected_promise rec = false ->
    checkpoint_hit a i out fs' = false ->
    (maxIterations a <=? i)%nat = true ->
    effects a w w' (stream_files a i out fs') [args_of a i s] [s2; s1] [] ->
    sigintReceived w' = false ->
    view s1 = booked_view i s h rec (session_of s out err) ->
    view s2 = with_status stopped_max_iterations (view s1) ->
    outcome a i s h w (Normal (Break, s2, h ++ [rec])) w'
| hard_stop_exit code out err fs' rec s1 s2 w' :
    concluded a i s w code out err fs' rec ->
    it_detected_promise rec = false ->
    checkpoint_hit a i out fs' = true ->
    hardStopMode a = "exit" ->
    effects a w w' (stream_files a i out fs') [args_of a i s] [s2; s1] [] ->
    sigintReceived w' = false ->
    view s1 = booked_view i s h rec (session_of s out err) ->
    view s2 = with_paused true (with_status paused_hard_stop (view s1)) ->
    outcome a i s h w (Normal (Break, s2, h ++ [rec])) w'
| hard_stop_declined code out err fs' rec resp q s1 s2 w' :
    concluded a i s w code out err fs' rec ->
    it_detected_promise rec = false ->
    checkpoint_hit a i out fs' = true ->
    hardStopMode a <> "exit" ->
    reply w = Typed resp -> says_yes resp = false ->
    effects a w w' (stream_files a i out fs') [args_of a i s] [s2; s1] [q] ->
    sigintReceived w' = false ->
    view s1 = booked_view i s h rec (session_of s out err) ->
    view s2 = with_paused true (with_status paused_hard_stop (view s1)) ->
    outcome a i s h w (Normal (Break, s2, h ++ [rec])) w'
| hard_stop_interrupted code out err fs' rec q s1 s2 snap w' :
    concluded a i s w code out err fs' rec ->
    it_detected_promise rec = false ->
    checkpoint_hit a i out fs' = true ->
    hardStopMode a <> "exit" ->
    reply w = CtrlC ->
    effects a w w' (stream_files a i out fs') [args_of a i s] [snap; s2; s1] [q] ->
    view s1 = booked_view i s h rec (session_of s out err) ->
    view s2 = with_paused true (with_status paused_hard_stop (view s1)) ->
    view snap = with_status paused_user_interrupt (view s2) ->
    outcome a i s h w (Exit 1) w'
| hard_stop_continued code out err fs' rec resp q s1 s2 s3 w' :
    concluded a i s w code out err fs' rec ->
    it_detected_promise rec = false ->
    checkpoint_hit a i out fs' = true ->
    hardStopMode a <> "exit" ->
    reply w = Typed resp -> says_yes resp = true ->
    (maxIterations a <=? i)%nat = false ->
    effects a w w' (stream_files a i out fs') [args_of a i s] [s3; s2; s1] [q] ->
    sigintReceived w' = false ->
    view s1 = booked_view i s h rec (session_of s out err) ->
    view s2 = with_paused true (with_status paused_hard_stop (view s1)) ->
    view s3 = with_paused false (view s1) ->
    outcome a i s h w (Normal (Next, s3, h ++ [rec])) w'
| hard_stop_continued_last code out err fs' rec resp q s1 s2 s3 s4 w' :
    concluded a i s w code out err fs' rec ->
    it_detected_promise rec = false ->
    checkpoint_hit a i out fs' = true ->
    hardStopMode a <> "exit" ->
    reply w = Typed resp -> says_yes resp = true ->
    (maxIterations a <=? i)%nat = true ->
    effects a w w' (stream_files a i out fs') [args_of a i s] [s4; s3; s2; s1] [q] ->
    sigintReceived w' = false ->
    view s1 = booked_view i s h rec (session_of s out err) ->
    view s2 = with_paused true (with_status paused_hard_stop (view s1)) ->
    view s3 = with_paused false (view s1) ->
    view s4 = with_status stopped_max_iterations (view s3) ->
    outcome a i s h w (Normal (Break, s4, h ++ [rec])) w'.

(** A run of the loop over the iteration numbers that are left. *)
Inductive run (a : LoopArgs)
    : list nat -> State -> list IterationRecord -> World
      -> Completion State -> World -> Prop :=
| run_end s h w :
    run a [] s h w (Normal s) w
| run_next i later s h w s1 h1 w1 c w2 :
    outcome a i s h w (Normal (Next, s1, h1)) w1 ->
    run a later s1 h1 w1 c w2 ->
    run a (i :: later) s h w c w2
| run_stop i later s h w flow s1 h1 w1 :
    outcome a i s h w (Normal (flow, s1, h1)) w1 ->
    flow <> Next ->
    run a (i :: later) s h w (Normal s1) w1
| run_exit i later s h w z w1 :
    outcome a i s h w (Exit z) w1 ->
    run a (i :: later) s h w (Exit z) w1.

(** Every child process closes, names a session, leaves a final message
    that does not satisfy the promise and a workspace in which the
    checkpoint does not fire. *)
Definition uneventful (a : LoopArgs) : Prop :=
  forall i s w,
    exists code out err fs',
      respond a i s w = (Closed code out err, fs')
      /\ truthy_opt (session_of s out err) = true
      /\ detected (message_of a i out fs') (promiseMode a) (completionPromise a) = false
      /\ checkpoint_hit a i out fs' = false.

(** [st] is the record [s] after the history entries [new]: they are
    appended, the counter has advanced by their number, and the identity
    of the loop is the same. *)
Definition at_stage (s : State) (new : list IterationRecord) (st : State) : Prop :=
  history st = history s ++ new
  /\ iteration st = iteration s + length new
  /\ loop_id st = loop_id s
  /\ prompt st = prompt s.

(** [st] continues [s]: some entries were appended, numbered from the
    counter of [s] on, one per iteration. *)
Definition continues (s st : State) : Prop :=
  exists new,
    at_stage s new st
    /\ map it_iteration new = seq (S (iteration s)) (length new).

(** Of two saved records, the later one has the history of the earlier
    one as a prefix. *)
Definition grown_from (later earlier : State) : Prop :=
  history earlier `prefix_of` history later.

(** The shape the pattern of [parseSessionIdFromText] asks for: five
    groups of 8, 4, 4, 4 and 12 hexadecimal digits of either case, with
    a hyphen between two groups. *)
Definition uuid_shaped (cs : list ascii) : Prop :=
  exists g1 g2 g3 g4 g5 : list ascii,
    cs = g1 ++ "-"%char :: g2 ++ "-"%char :: g3 ++ "-"%char :: g4 ++ "-"%char :: g5
    /\ length g1 = 8 /\ length g2 = 4 /\ length g3 = 4 /\ length g4 = 4 /\ length g5 = 12
    /\ Forall (fun c => is_hex c = true) (g1 ++ g2 ++ g3 ++ g4 ++ g5).

(** A text has a part of the shape; and [u] is the first such part of
    the text: it has the shape, and no part of the shape begins before
    it. *)
Definition has_uuid (l : list ascii) : Prop :=
  exists pre cs post, l = pre ++ cs ++ post /\ uuid_shaped cs.


(** The paused flag of a record: the flag of its checkpoint entry, and
    not set when there is no entry. *)
Definition paused_flag (s : State) : bool :=
  match todo s with
  | Some t => paused_for_hard_stop t
  | None => false
  end.


(** The loop identifier [handleStart] works with: the one given, or the
    default one. *)
Definition chosenLoopId (options : StartOptions) : M string :=
  if truthy_s (opt_loopId (so_common options))
  then ret (default EmptyString (opt_loopId (so_common options)))
  else defaultLoopId (stateLookupRootOf (so_common options)).

End Controller.

(* ===================================================================== *)
(** ** A small runtime to run the model on concrete inputs *)
(* ===================================================================== *)

(** An executable instance of [Runtime] for a fragment of what Node
    offers.  Regular expressions: literals, [.], the escapes [\d \w \s]
    and their complements, escaped punctuation, character classes with
    ranges and negation, groups, alternation and the quantifiers
    [* + ?]; a source outside the fragment is not compiled.  JSON:
    objects, arrays, strings with the simple escapes, integers and the
    three literals.  Paths: POSIX, without [.] and [..] segments. *)
Module Mini.

(** *** Regular expressions, matched by derivatives *)

Inductive Re : Type :=
| Eps
| Cls (negated : bool) (ranges : list (nat * nat))
| Cat (a b : Re)
| Alt (a b : Re)
| Star (a : Re).

Definition in_ranges (ranges : list (nat * nat)) (c : ascii) : bool :=
  let n := nat_of_ascii c in
  existsb (fun r => ((fst r <=? n) && (n <=? snd r))%nat) ranges.

Definition in_class (negated : bool) (ranges : list (nat * nat)) (c : ascii) : bool :=
  xorb negated (in_ranges ranges c).

Definition Void : Re := Cls false [].
Definition AnyChar : Re := Cls true [].

Fixpoint nullable (r : Re) : bool :=
  match r with
  | Eps => true
  | Cls _ _ => false
  | Cat a b => nullable a && nullable b
  | Alt a b => nullable a || nullable b
  | Star _ => true
  end.

Fixpoint deriv (c : ascii) (r : Re) : Re :=
  match r with
  | Eps => Void
  | Cls negated ranges => if in_class negated ranges c then Eps else Void
  | Cat a b =>
      if nullable a then Alt (Cat (deriv c a) b) (deriv c b) else Cat (deriv c a) b
  | Alt a b => Alt (deriv c a) (deriv c b)
  | Star a => Cat (deriv c a) (Star a)
  end.

(** The whole text is in the language of [r]. *)
Fixpoint accepts (r : Re) (text : string) : bool :=
  match text with
  | EmptyString => nullable r
  | String c rest => accepts (deriv c r) rest
  end.

(** [re.test(text)]: some part of the text is in the language. *)
Definition test (r : Re) (text : string) : bool :=
  accepts (Cat (Star AnyChar) (Cat r (Star AnyChar))) text.

Definition digit : list (nat * nat) := [(48, 57)].
Definition word : list (nat * nat) := [(48, 57); (65, 90); (95, 95); (97, 122)].
Definition space : list (nat * nat) := [(9, 13); (32, 32)].

Definition code (c : string) : nat :=
  match c with String a _ => nat_of_ascii a | EmptyString => 0 end.

(** The class an escaped character stands for, with its negation flag. *)
Definition escape (c : ascii) : bool * list (nat * nat) :=
  let n := nat_of_ascii c in
  if (n =? code "d")%nat then (false, digit)
  else if (n =? code "D")%nat then (true, digit)
  else if (n =? code "w")%nat then (false, word)
  else if (n =? code "W")%nat then (true, word)
  else if (n =? code "s")%nat then (false, space)
  else if (n =? code "S")%nat then (true, space)
  else if (n =? code "n")%nat then (false, [(10, 10)])
  else if (n =? code "r")%nat then (false, [(13, 13)])
  else if (n =? code "t")%nat then (false, [(9, 9)])
  else (false, [(n, n)]).

(** The items of a character class up to its closing bracket; [None]
    when the bracket is missing. *)
Fixpoint class_items (l : list ascii) (acc : list (nat * nat))
    : option (list (nat * nat) * list ascii) :=
  match l with
  | [] => None
  | c :: r =>
      let n := nat_of_ascii c in
      if (n =? code "]")%nat then Some (acc, r)
      else if (n =? code "\")%nat then
        match r with
        | e :: r' =>
            let '(negated, ranges) := escape e in
            if negated then None else class_items r' (acc ++ ranges)
        | [] => None
        end
      else
        match r with
        | d :: hi :: r' =>
            if ((nat_of_ascii d =? code "-") && negb (nat_of_ascii hi =? code "]")
                && negb (nat_of_ascii hi =? code "\"))%nat
            then if (n <=? nat_of_ascii hi)%nat
                 then class_items r' (acc ++ [(n, nat_of_ascii hi)])
                 else None
            else class_items r (acc ++ [(n, n)])
        | _ => class_items r (acc ++ [(n, n)])
        end
  end.

Definition is_one_of (chars : string) (c : ascii) : bool :=
  existsb (Ascii.eqb c) (Str.chars chars).

(** A quantifier after an atom, with the optional lazy mark. *)
Definition quantified (a : Re) (l : list ascii) : Re * list ascii :=
  let lazy r := match r with
                | c :: r' => if is_one_of "?" c then r' else r
                | [] => r
                end in
  match l with
  | c :: r =>
      if is_one_of "*" c then (Star a, lazy r)
      else if is_one_of "+" c then (Cat a (Star a), lazy r)
      else if is_one_of "?" c then (Alt Eps a, lazy r)
      else (a, l)
  | [] => (a, l)
  end.

Fixpoint p_alt (fuel : nat) (l : list ascii) {struct fuel} : option (Re * list ascii) :=
  match fuel with
  | 0 => None
  | S k =>
      match p_cat k l with
      | Some (a, c :: r) =>
          if is_one_of "|" c
          then match p_alt k r with
               | Some (b, r') => Some (Alt a b, r')
               | None => None
               end
          else Some (a, c :: r)
      | other => other
      end
  end
with p_cat (fuel : nat) (l : list ascii) {struct fuel} : option (Re * list ascii) :=
  match fuel with
  | 0 => None
  | S k =>
      match l with
      | [] => Some (Eps, [])
      | c :: _ =>
          if is_one_of "|)" c then Some (Eps, l)
          else match p_atom k l with
               | Some (a, r) =>
                   let '(q, r') := quantified a r in
                   match p_cat k r' with
                   | Some (b, r'') => Some (Cat q b, r'')
                   | None => None
                   end
               | None => None
               end
      end
  end
with p_atom (fuel : nat) (l : list ascii) {struct fuel} : option (Re * list ascii) :=
  match fuel with
  | 0 => None
  | S k =>
      match l with
      | [] => None
      | c :: r =>
          if is_one_of "(" c then
            let inner := match r with
                         | q :: colon :: r' =>
                             if is_one_of "?" q && is_one_of ":" colon then r' else r
                         | _ => r
                         end in
            match p_alt k inner with
            | Some (a, close :: r') => if is_one_of ")" close then Some (a, r') else None
            | _ => None
            end
          else if is_one_of "[" c then
            match r with
            | n :: r' =>
                if is_one_of "^" n
                then match class_items r' [] with
                     | Some (ranges, rest) => Some (Cls true ranges, rest)
                     | None => None
                     end
                else match class_items r [] with
                     | Some (ranges, rest) => Some (Cls false ranges, rest)
                     | None => None
                     end
            | [] => None
            end
          else if is_one_of "\" c then
            match r with
            | e :: r' => let '(negated, ranges) := escape e in Some (Cls negated ranges, r')
            | [] => None
            end
          else if is_one_of "." c then Some (Cls true [(10, 10); (13, 13)], r)
          else if is_one_of "*+?{}^$" c then None
          else Some (Cls false [(nat_of_ascii c, nat_of_ascii c)], r)
      end
  end.

Definition compile (source : string) : Re + string :=
  let l := Str.chars source in
  match p_alt (4 * length l + 4) l with
  | Some (r, []) => inl r
  | _ => inr ("Invalid regular expression: /" +:+ source +:+ "/")
  end.

(** *** [JSON.parse] *)

Definition is_json_space (c : ascii) : bool :=
  let n := nat_of_ascii c in ((n =? 32) || (n =? 9) || (n =? 10) || (n =? 13))%nat.

Fixpoint skip_ws (l : list ascii) : list ascii :=
  match l with
  | c :: r => if is_json_space c then skip_ws r else l
  | [] => []
  end.

(** The characters of a string literal after its opening quote, up to
    the closing quote; [acc] holds them last one first. *)
Fixpoint string_body (l acc : list ascii) : option (string * list ascii) :=
  match l with
  | [] => None
  | c :: r =>
      if Ascii.eqb c Str.DQ then Some (Str.of_chars (rev acc), r)
      else if is_one_of "\" c then
        match r with
        | e :: r' =>
            if Ascii.eqb e Str.DQ || is_one_of "\/" e then string_body r' (e :: acc)
            else if is_one_of "n" e then string_body r' (Str.LF :: acc)
            else if is_one_of "r" e then string_body r' (Str.CR :: acc)
            else if is_one_of "t" e then string_body r' (ascii_of_nat 9 :: acc)
            else None
        | [] => None
        end
      else if (nat_of_ascii c <? 32)%nat then None
      else string_body r (c :: acc)
  end.

Definition is_digit (c : ascii) : bool :=
  let n := nat_of_ascii c in ((48 <=? n) && (n <=? 57))%nat.

Fixpoint digits (l : list ascii) (acc : Z) : Z * list ascii :=
  match l with
  | c :: r =>
      if is_digit c then digits r (10 * acc + Z.of_nat (nat_of_ascii c - 48))%Z
      else (acc, l)
  | [] => (acc, [])
  end.

(** An integer literal; a fraction or an exponent is outside the
    fragment. *)
Definition number (l : list ascii) : option (Json * list ascii) :=
  let '(negative, l1) :=
    match l with
    | c :: r => if is_one_of "-" c then (true, r) else (false, l)
    | [] => (false, l)
    end in
  match l1 with
  | c :: r =>
      if negb (is_digit c) then None
      else if is_one_of "0" c && match r with d :: _ => is_digit d | [] => false end
      then None
      else
        let '(z, rest) := digits l1 0%Z in
        match rest with
        | d :: _ => if is_one_of ".eE" d then None
                    else Some (JNum (if negative then - z else z)%Z, rest)
        | [] => Some (JNum (if negative then - z else z)%Z, rest)
        end
  | [] => None
  end.

Fixpoint strip (prefix : string) (l : list ascii) : option (list ascii) :=
  match prefix with
  | EmptyString => Some l
  | String a p =>
      match l with
      | c :: r => if Ascii.eqb a c then strip p r else None
      | [] => None
      end
  end.

(** [p_value] reads one value, [p_fields] the members of an object after
    its opening brace, [p_items] the elements of an array after its
    opening bracket.  Members are collected newest first, so that of two
    members with one key the later one is found. *)
Fixpoint p_value (fuel : nat) (l : list ascii) {struct fuel} : option (Json * list ascii) :=
  match fuel with
  | 0 => None
  | S k =>
      match skip_ws l with
      | [] => None
      | c :: r =>
          if is_one_of "{" c then
            match skip_ws r with
            | d :: r' => if is_one_of "}" d then Some (JObj [], r') else p_fields k (d :: r') []
            | [] => None
            end
          else if is_one_of "[" c then
            match skip_ws r with
            | d :: r' => if is_one_of "]" d then Some (JArr [], r') else p_items k (d :: r') []
            | [] => None
            end
          else if Ascii.eqb c Str.DQ then
            match string_body r [] with
            | Some (s, rest) => Some (JStr s, rest)
            | None => None
            end
          else
            match strip "true" (c :: r), strip "false" (c :: r), strip "null" (c :: r) with
            | Some rest, _, _ => Some (JBool true, rest)
            | _, Some rest, _ => Some (JBool false, rest)
            | _, _, Some rest => Some (JNull, rest)
            | _, _, _ => number (c :: r)
            end
      end
  end
with p_fields (fuel : nat) (l : list ascii) (acc : list (string * Json)) {struct fuel}
    : option (Json * list ascii) :=
  match fuel with
  | 0 => None
  | S k =>
      match skip_ws l with
      | q :: r =>
          if negb (Ascii.eqb q Str.DQ) then None
          else match string_body r [] with
               | Some (key, rest) =>
                   match skip_ws rest with
                   | colon :: rest' =>
                       if negb (is_one_of ":" colon) then None
                       else match p_value k rest' with
                            | Some (v, after) =>
                                match skip_ws after with
                                | d :: more =>
                                    if is_one_of "}" d then Some (JObj ((key, v) :: acc), more)
                                    else if is_one_of "," d then p_fields k more ((key, v) :: acc)
                                    else None
                                | [] => None
                                end
                            | None => None
                            end
                   | [] => None
                   end
               | None => None
               end
      | [] => None
      end
  end
with p_items (fuel : nat) (l : list ascii) (acc : list Json) {struct fuel}
    : option (Json * list ascii) :=
  match fuel with
  | 0 => None
  | S k =>
      match p_value k l with
      | Some (v, after) =>
          match skip_ws after with
          | d :: more =>
              if is_one_of "]" d then Some (JArr (rev (v :: acc)), more)
              else if is_one_of "," d then p_items k more (v :: acc)
              else None
          | [] => None
          end
      | None => None
      end
  end.

Definition parse (text : string) : option Json :=
  let l := Str.chars text in
  match p_value (2 * length l + 2) l with
  | Some (v, rest) => match skip_ws rest with [] => Some v | _ => None end
  | None => None
  end.

(** *** Paths *)

Definition is_absolute (p : string) : bool := Str.startsWith p "/".

Definition resolve (base p : string) : string :=
  if is_absolute p then p
  else if Str.is_empty p then base
  else base +:+ "/" +:+ p.

Fixpoint drop_prefix (prefix s : string) : option string :=
  match prefix with
  | EmptyString => Some s
  | String a p =>
      match s with
      | String c r => if Ascii.eqb a c then drop_prefix p r else None
      | EmptyString => None
      end
  end.

Definition relative (from to : string) : string :=
  match drop_prefix from to with
  | Some EmptyString => EmptyString
  | Some (String c r) => if is_one_of "/" c then r else to
  | None => to
  end.

(** The characters after the last occurrence of [sep], and the ones
    before it; [None] when there is no [sep]. *)
Fixpoint split_last (sep : ascii) (l : list ascii) : option (list ascii * list ascii) :=
  match l with
  | [] => None
  | c :: r =>
      match split_last sep r with
      | Some (before, after) => Some (c :: before, after)
      | None => if Ascii.eqb c sep then Some ([], r) else None
      end
  end.

Definition dirname (p : string) : string :=
  match split_last "/" (Str.chars p) with
  | Some ([], _) => "/"
  | Some (before, _) => Str.of_chars before
  | None => "."
  end.

Definition last_segment (p : string) : string :=
  match split_last "/" (Str.chars p) with
  | Some (_, after) => Str.of_chars after
  | None => p
  end.

Definition extname (p : string) : string :=
  match split_last "." (Str.chars (last_segment p)) with
  | Some ([], _) => EmptyString
  | Some (_, after) => "." +:+ Str.of_chars after
  | None => EmptyString
  end.

Definition basename (p ext : string) : string :=
  let name := last_segment p in
  match drop_prefix (Str.of_chars (rev (Str.chars ext))) (Str.of_chars (rev (Str.chars name))) with
  | Some (String c r) =>
      if Str.is_empty ext then name else Str.of_chars (rev (Str.chars (String c r)))
  | _ => name
  end.

#[export] Instance runtime : Runtime := {|
  RegExp := Re;
  RegExp_new := compile;
  RegExp_test := test;
  JSON_parse := parse;
  path_resolve := resolve;
  path_relative := relative;
  path_join := fun a b => a +:+ "/" +:+ b;
  path_dirname := dirname;
  path_basename := basename;
  path_extname := extname;
|}.

End Mini.

(* ===================================================================== *)
(** ** Concrete runs *)
(* ===================================================================== *)

(** A workspace [/w] with one loop [l1], a checkpoint file [/w/TODO.md]
    and three agents, on which the model is run with the runtime
    [Mini.runtime]. *)
Module Scenario.

Definition quoted (s : string) : string :=
  String Str.DQ (s +:+ String Str.DQ EmptyString).

(** The event line with the one field [k] of value [v]. *)
Definition event (k v : string) : string :=
  "{" +:+ quoted k +:+ ": " +:+ quoted v +:+ "}".

(** The path that follows [--output-last-message] in the arguments of
    the child process. *)
Fixpoint last_message_arg (args : list Json) : string :=
  match args with
  | [] => EmptyString
  | JStr name :: rest =>
      if String.eqb name "--output-last-message"
      then match rest with JStr p :: _ => p | _ => EmptyString end
      else last_message_arg rest
  | _ :: rest => last_message_arg rest
  end.

Definition session_line : string := event "session_id" "s1" +:+ nl.

(** An agent that announces its session, leaves [text] as its final
    message and exits with code 0. *)
Definition writes (text : string) (n : nat) (args : list Json) (fs : gmap string string)
    : AgentOutcome * gmap string string :=
  (Closed (Some 0%Z) session_line EmptyString, <[last_message_arg args := text]> fs).

Definition env_done : Env :=
  {| agent := writes "All checks pass. <promise>DONE</promise>";
     user := fun _ => Typed "n"; process_cwd := "/w" |}.

Definition env_busy : Env :=
  {| agent := writes "Still working on it.";
     user := fun _ => Typed "n"; process_cwd := "/w" |}.

Definition env_broken : Env :=
  {| agent := fun _ _ fs => (SpawnError "spawn codex ENOENT", fs);
     user := fun _ => Typed "n"; process_cwd := "/w" |}.

(** An agent that announces its session and leaves an empty workspace
    behind. *)
Definition env_blank : Env :=
  {| agent := fun _ _ _ => (Closed (Some 0%Z) session_line EmptyString, ∅);
     user := fun _ => Typed "n"; process_cwd := "/w" |}.

Definition codex_options : CodexOptions :=
  {| co_model := None; co_profile := None; co_sandbox := Some "read-only";
     co_askForApproval := Some "on-request"; co_fullAuto := false;
     co_skipGitRepoCheck := false; co_cd := Some "/w" |}.

Definition state_file : string := "/w/.codex/waylon-smithers/loops/l1.json".

Definition loop_args : LoopArgs :=
  {| statePath := state_file;
     workspaceRoot := "/w";
     completionPromise := "DONE";
     promiseMode := "tag";
     maxIterations := 2;
     samePromptEachIteration := false;
     artifactsDir := "/w/.codex/waylon-smithers/loops/l1";
     summaryJson := None;
     jsonlEventsBase := None;
     todoFile := Some "/w/TODO.md";
     hardStopToken := "HARD STOP";
     hardStopMode := "exit";
     codexOptions := codex_options |}.

(** The record of the loop before its first iteration. *)
Definition fresh : State :=
  {| loop_id := "l1";
     created_at := 0;
     updated_at := 0;
     workspace_root := "/w";
     prompt := "Make the tests pass.";
     completion_promise := "DONE";
     promise_mode := "tag";
     max_iterations := 2;
     same_prompt_each_iteration := Some false;
     iteration := 0;
     status := running;
     codex := {| session_id := None; model := None; sandbox := Some "read-only";
                 approval := Some "on-request"; profile := None |};
     todo := Some {| path := "TODO.md"; hard_stop_token := "HARD STOP";
                     hard_stop_mode := "exit"; paused_for_hard_stop := false |};
     artifacts := {| dir := ".codex/waylon-smithers/loops/l1";
                     last_message_path := None; jsonl_path := None;
                     jsonl_events_base := None; summary_json_path := None |};
     history := [];
     last_result := None;
     state_path := ".codex/waylon-smithers/loops/l1.json" |}.

(** The workspace without a checkpoint file, and with one that holds the
    sentinel. *)
Definition plain_workspace : World :=
  {| files := ∅; disk := ∅; trace := []; clock := 0; sigintReceived := false |}.

Definition at_checkpoint : World :=
  {| files := {[ "/w/TODO.md" := "- [ ] HARD STOP: ask for a review" ]};
     disk := ∅; trace := []; clock := 0; sigintReceived := false |}.

(** The record of the loop as stored after one iteration that ended at
    the checkpoint, and the disk that holds it. *)
Definition stored : State :=
  set_history
    [ {| it_iteration := 1; it_finished_at := 1; it_exit_code := Some 0%Z;
         it_detected_promise := false;
         it_last_message_path :=
           Some ".codex/waylon-smithers/loops/l1/last_message_iter_1.txt";
         it_jsonl_path := None |} ]
    (set_codex (codex_with_session_id (Some (JStr "s1")) (codex fresh))
       (set_iteration 1 (set_status paused_hard_stop fresh))).

Definition stored_workspace : World :=
  {| files := ∅; disk := {[ state_file := stored ]}; trace := []; clock := 5;
     sigintReceived := false |}.

(** [resume --loop-id l1 --cd /w --max-iterations 7 --completion-promise
    FINISHED] *)
Definition resume_options : Options :=
  {| opt_loopId := Some "l1";
     opt_cd := Some "/w";
     opt_stateFile := None;
     opt_maxIterations := Some 7;
     opt_completionPromise := Some "FINISHED";
     opt_promiseMode := None;
     opt_samePromptEachIteration := None;
     opt_jsonlEvents := None;
     opt_model := None;
     opt_profile := None;
     opt_sandbox := None;
     opt_askForApproval := None;
     opt_fullAuto := false;
     opt_skipGitRepoCheck := false |}.


(** An agent that leaves the promise as its final message but names no
    session. *)
Definition env_mute : Env :=
  {| agent := fun _ args fs =>
       (Closed (Some 0%Z) "nothing to report" EmptyString,
        <[last_message_arg args := "<promise>DONE</promise>"]> fs);
     user := fun _ => Typed "n"; process_cwd := "/w" |}.

(** An agent that is interrupted by the user. *)
Definition env_sigint : Env :=
  {| agent := fun _ _ fs => (Sigint, fs);
     user := fun _ => Typed "n"; process_cwd := "/w" |}.

(** An agent that exits with code 1. *)
Definition env_failing : Env :=
  {| agent := fun _ args fs =>
       (Closed (Some 1%Z) session_line "error: tests failed",
        <[last_message_arg args := "Still working on it."]> fs);
     user := fun _ => Typed "n"; process_cwd := "/w" |}.

(** The busy agent with a user who answers yes, and with one who
    interrupts. *)
Definition env_yes : Env :=
  {| agent := writes "Still working on it.";
     user := fun _ => Typed " YES "; process_cwd := "/w" |}.

Definition env_ctrlc : Env :=
  {| agent := writes "Still working on it.";
     user := fun _ => CtrlC; process_cwd := "/w" |}.

(** The arguments of the loop with the checkpoint in [pause] mode. *)
Definition pause_args : LoopArgs :=
  {| statePath := state_file;
     workspaceRoot := "/w";
     completionPromise := "DONE";
     promiseMode := "tag";
     maxIterations := 2;
     samePromptEachIteration := false;
     artifactsDir := "/w/.codex/waylon-smithers/loops/l1";
     summaryJson := None;
     jsonlEventsBase := None;
     todoFile := Some "/w/TODO.md";
     hardStopToken := "HARD STOP";
     hardStopMode := "pause";
     codexOptions := codex_options |}.

(** A stored record with a model and a sandbox of its own. *)
Definition stored_tuned : State :=
  set_codex (codex_with_model (Some "o3")
               (codex_with_sandbox (Some "workspace-write") (codex stored))) stored.

Definition tuned_workspace : World :=
  {| files := {[ "/w/.codex/waylon-smithers/loops/l1/last_message_iter_1.txt" := "Still working on it.";
                 "/w/README.md" := "read me" ]};
     disk := {[ state_file := stored_tuned ]}; trace := []; clock := 5;
     sigintReceived := false |}.

(** [resume --loop-id l1 --cd /w] *)
Definition bare_options : Options :=
  {| opt_loopId := Some "l1";
     opt_cd := Some "/w";
     opt_stateFile := None;
     opt_maxIterations := None;
     opt_completionPromise := None;
     opt_promiseMode := None;
     opt_samePromptEachIteration := None;
     opt_jsonlEvents := None;
     opt_model := None;
     opt_profile := None;
     opt_sandbox := None;
     opt_askForApproval := None;
     opt_fullAuto := false;
     opt_skipGitRepoCheck := false |}.

(** [start --loop-id l2 --cd /w] *)
Definition start_options : StartOptions :=
  {| so_common :=
       {| opt_loopId := Some "l2";
          opt_cd := Some "/w";
          opt_stateFile := None;
          opt_maxIterations := None;
          opt_completionPromise := None;
          opt_promiseMode := None;
          opt_samePromptEachIteration := None;
          opt_jsonlEvents := None;
          opt_model := None;
          opt_profile := None;
          opt_sandbox := None;
          opt_askForApproval := None;
          opt_fullAuto := false;
          opt_skipGitRepoCheck := false |};
     so_lastMessageDir := None;
     so_summaryJson := None;
     so_todoFile := None;
     so_hardStopToken := None;
     so_hardStopMode := None |}.

Definition iso (now : nat) : string := "2026-01-02T03:04:05.678Z".

(** Containment of POSIX paths. *)
Definition posix_below (dir file : string) : bool :=
  String.eqb file dir || Str.startsWith file (dir +:+ "/").

(** The no-break space U+00A0, in UTF-8. *)
Definition nbsp : string :=
  String (ascii_of_nat 194) (String (ascii_of_nat 160) EmptyString).

(** The files and the records as they are, for a new run of the
    program: nothing has happened yet in it. *)
Definition restarted (w : World) : World :=
  {| files := files w; disk := disk w; trace := []; clock := clock w;
     sigintReceived := false |}.

End Scenario.

Arguments args_of : simpl never.
Arguments respond : simpl never.
Arguments reply : simpl never.
Arguments session_of : simpl never.
Arguments stream_files : simpl never.
Arguments detected : simpl never.
Arguments file_text : simpl never.
Arguments sentinel : simpl never.

Ltac solve_effects :=
  solve [ eassumption
        | reflexivity
        | unfold effects, stream_files; cbn; auto 10
        | unfold view, with_paused, with_status; cbn;
          match goal with |- context [todo ?s] => destruct (todo s) end; reflexivity ].

(** Facts about the effects of a sequence of steps follow from the facts
    about its parts. *)
Ltac split_effects :=
  repeat match goal with
         | H : effects _ _ _ _ _ _ _ |- _ =>
             destruct H as (? & ? & ? & ? & ?)
         end.

Ltac rewrite_effects :=
  repeat match goal with
         | H : files ?w = _ |- context [files ?w] => rewrite H
         | H : spawned (trace ?w) = _ |- context [spawned (trace ?w)] => rewrite H
         | H : saved (trace ?w) = _ |- context [saved (trace ?w)] => rewrite H
         | H : asked (trace ?w) = _ |- context [asked (trace ?w)] => rewrite H
         | H : disk ?w = _ |- context [disk ?w] => rewrite H
         end.

Ltac effects_from_parts :=
  split_effects; unfold effects; cbn in *; repeat split; rewrite_effects; reflexivity.

(* ===================================================================== *)
(** ** Lemmas *)
(* ===================================================================== *)

Section Properties.

Context {RT : Runtime} (env : Env).

Lemma startsWith_spec (hay needle : string) :
  Str.startsWith hay needle = true <-> exists rest, hay = needle +:+ rest.
Proof.
  revert hay; induction needle as [|a n IH]; intros hay; simpl.
  - split; [intros _; exists hay; reflexivity | reflexivity].
  - destruct hay as [|b h].
    + split; [discriminate | intros [rest H]; discriminate].
    + destruct (Ascii.eqb_spec a b) as [->|Hne].
      * rewrite IH. split; intros [rest H]; exists rest.
        -- simpl. now rewrite H.
        -- simpl in H. now inversion H.
      * split; [discriminate | intros [rest H]; simpl in H; inversion H; congruence].
Qed.

Lemma includes_spec (hay needle : string) :
  Str.includes hay needle = true <-> exists before after, hay = before +:+ needle +:+ after.
Proof.
  induction hay as [|c h IH]; simpl.
  - rewrite orb_false_r, startsWith_spec. split.
    + intros [rest H]. exists EmptyString, rest. exact H.
    + intros [before [after H]]. destruct before; simpl in H.
      * exists after. exact H.
      * discriminate.
  - rewrite orb_true_iff, startsWith_spec, IH. split.
    + intros [[rest H]|[before [after H]]].
      * exists EmptyString, rest. exact H.
      * exists (String c before), after. simpl. now rewrite H.
    + intros [before [after H]]. destruct before as [|b before]; simpl in H.
      * left. exists after. exact H.
      * right. inversion H. exists before, after. reflexivity.
Qed.

Lemma append_cons (c : ascii) (a b : string) : String c a +:+ b = String c (a +:+ b).
Proof. reflexivity. Qed.

Lemma append_assoc (a b c : string) : (a +:+ b) +:+ c = a +:+ (b +:+ c).
Proof.
  induction a as [|x a IH]; [reflexivity |].
  rewrite !append_cons. f_equal. exact IH.
Qed.

(** A text that contains [left +:+ needle +:+ right] contains [needle]. *)
Lemma includes_inner (hay left needle right : string) :
  Str.includes hay (left +:+ needle +:+ right) = true -> Str.includes hay needle = true.
Proof.
  rewrite !includes_spec. intros [before [after H]].
  exists (before +:+ left), (right +:+ after).
  rewrite H, !append_assoc. reflexivity.
Qed.

Lemma detect_falsy (message : option string) (mode token : string) (w : World) :
  truthy_s message = false -> detectCompletion message mode token w = (Normal false, w).
Proof. intros H. unfold detectCompletion. rewrite H. reflexivity. Qed.

Lemma detect_regex (c : ascii) (rest token : string) (w : World) :
  detectCompletion (Some (String c rest)) "regex" token w =
  match RegExp_new token with
  | inl re => (Normal (RegExp_test re (String c rest)), w)
  | inr message => (Normal false, with_error ("Invalid completion regex: " +:+ message) w)
  end.
Proof.
  unfold detectCompletion, new_RegExp, try_catch, bind. simpl.
  destruct (RegExp_new token); reflexivity.
Qed.

Lemma detect_tag (message token : string) (w : World) :
  detectCompletion (Some message) "tag" token w =
  (Normal (Str.truthy message && Str.includes message (promiseTag token)), w).
Proof. unfold detectCompletion. destruct message; reflexivity. Qed.

Lemma detect_substring (message mode token : string) (w : World) :
  String.eqb mode "regex" = false -> String.eqb mode "tag" = false ->
  detectCompletion (Some message) mode token w =
  (Normal (Str.truthy message && Str.includes message token), w).
Proof.
  intros H1 H2. unfold detectCompletion. rewrite H1, H2. destruct message; reflexivity.
Qed.

(** The detector always returns a boolean, and all it changes in the
    world is the console. *)
Lemma detect_total (message : option string) (mode token : string) (w : World) :
  exists b w', detectCompletion message mode token w = (Normal b, w')
               /\ (w' = w \/ exists line, w' = with_error line w).
Proof.
  destruct (truthy_s message) eqn:Hm.
  2:{ exists false, w. split; [now apply detect_falsy | now left]. }
  destruct message as [[|c rest]|]; try discriminate.
  destruct (String.eqb mode "regex") eqn:Hr.
  - apply String.eqb_eq in Hr. subst mode. rewrite detect_regex.
    destruct (RegExp_new token); eauto 6.
  - destruct (String.eqb mode "tag") eqn:Ht.
    + apply String.eqb_eq in Ht. subst mode. rewrite detect_tag. eauto 6.
    + rewrite detect_substring by assumption. eauto 6.
Qed.

Lemma readFileSafe_run (p : string) (w : World) :
  readFileSafe (Some p) w = (Normal (file_text (files w) p), w).
Proof.
  unfold file_text, value_or, readFileSafe, fs_existsSync, fs_readFileSync, bind, ret.
  cbn. destruct (Str.truthy p); cbn; [|reflexivity].
  destruct (files w !! p) eqn:E; cbn; rewrite ?E; reflexivity.
Qed.

Lemma hardStop_run (todoFile : option string) (token : string) (w : World) :
  (if truthy_s todoFile then checkHardStop todoFile token else ret false) w
  = (Normal (sentinel (files w) todoFile token), w).
Proof.
  unfold sentinel, value_or, checkHardStop, fs_existsSync, fs_readFileSync, bind, ret.
  destruct (truthy_s todoFile); cbn; [|reflexivity].
  destruct (files w !! default EmptyString todoFile) eqn:E; cbn; rewrite ?E; reflexivity.
Qed.

Lemma detect_run (message mode token : string) (w : World) :
  exists w', detectCompletion (Some message) mode token w
             = (Normal (detected message mode token), w')
             /\ (w' = w \/ exists line, w' = with_error line w).
Proof.
  unfold detected, value_or.
  destruct message as [|c rest].
  - rewrite !detect_falsy by reflexivity. cbn. eauto.
  - destruct (String.eqb mode "regex") eqn:Hr.
    + apply String.eqb_eq in Hr. subst mode. rewrite !detect_regex.
      destruct (RegExp_new token); cbn; eauto 6.
    + destruct (String.eqb mode "tag") eqn:Ht.
      * apply String.eqb_eq in Ht. subst mode. rewrite !detect_tag. cbn. eauto.
      * rewrite !detect_substring by assumption. cbn. eauto.
Qed.

Lemma effects_trans a w w1 w2 fs1 fs2 sp1 sp2 sv1 sv2 qs1 qs2 :
  effects a w w1 fs1 sp1 sv1 qs1 -> effects a w1 w2 fs2 sp2 sv2 qs2 ->
  effects a w w2 fs2 (sp2 ++ sp1) (sv2 ++ sv1) (qs2 ++ qs1).
Proof.
  intros (F1 & P1 & V1 & Q1 & D1) (F2 & P2 & V2 & Q2 & D2).
  unfold effects. rewrite P2, P1, V2, V1, Q2, Q1, D2, D1, foldr_app, <- !app_assoc.
  auto.
Qed.

Lemma bind_normal {A B} (m : M A) (k : A -> M B) (w w' : World) (x : A) :
  m w = (Normal x, w') -> bind m k w = k x w'.
Proof. intros H. unfold bind. rewrite H. reflexivity. Qed.

Lemma bind_exit {A B} (m : M A) (k : A -> M B) (w w' : World) (z : Z) :
  m w = (Exit z, w') -> bind m k w = (Exit z, w').
Proof. intros H. unfold bind. rewrite H. reflexivity. Qed.

Lemma invoke_invoked a i s w :
  invoked env a i s w (fst (invoke env a i s w)) (snd (invoke env a i s w)).
Proof.
  destruct (respond env a i s w) as [outcome fs'] eqn:R.
  pose proof R as R'. unfold respond, args_of in R'.
  unfold invoke, runCodexIteration, child_process_spawn, try_catch, on_sigint, bind.
  rewrite R'.
  destruct (truthy_s (summaryJson a)) eqn:Esum;
  destruct (truthy_s (computeJsonlPath (jsonlEventsBase a) i (workspaceRoot a))) eqn:Ejs;
  destruct outcome; cbn; unfold updateSummary; rewrite ?Esum; cbn;
  econstructor; try eassumption; try reflexivity;
  unfold effects, stream_files; rewrite ?Ejs; cbn; auto.
Qed.

Lemma record_run a i s h r w :
  exists rec s1 w1,
    record a i s h r w
    = (Normal (detected (file_text (files w) (lastMessagePathOf a i))
                 (promiseMode a) (completionPromise a), s1, h ++ [rec]), w1)
    /\ effects a w w1 (files w) [] [s1] []
    /\ sigintReceived w1 = sigintReceived w
    /\ it_iteration rec = i
    /\ it_detected_promise rec
       = detected (file_text (files w) (lastMessagePathOf a i))
           (promiseMode a) (completionPromise a)
    /\ it_exit_code rec = r_exitCode r
    /\ view s1 = booked_view i s h rec (r_sessionId r).
Proof.
  unfold record.
  rewrite (bind_normal _ _ _ _ _ (readFileSafe_run _ w)).
  destruct (detect_run (file_text (files w) (lastMessagePathOf a i))
              (promiseMode a) (completionPromise a) w) as (w' & Hd & Hw).
  rewrite (bind_normal _ _ _ _ _ Hd).
  destruct (truthy_s (summaryJson a)) eqn:Esum;
  (destruct Hw as [->|[line ->]];
   unfold bind, updateSummary; rewrite ?Esum; cbn;
   do 3 eexists; (split; [reflexivity|]);
   unfold effects; cbn; auto 10).
Qed.

Lemma with_paused_twice (b c : bool) (v : View) :
  with_paused b (with_paused c v) = with_paused b v.
Proof. unfold with_paused. cbn. destruct (v_todo v); reflexivity. Qed.

Lemma checkpoint_checkpointed a s w :
  checkpointed env a s w (fst (checkpoint env a s w)) (snd (checkpoint env a s w)).
Proof.
  unfold checkpoint, promptYesNo, rl_question, on_sigint.
  destruct (reply env w) as [resp|] eqn:R; pose proof R as R'; unfold reply in R';
  destruct (String.eqb_spec (hardStopMode a) "exit") as [Hm|Hm];
  destruct (truthy_s (summaryJson a)) eqn:Esum;
  try (destruct (says_yes resp) eqn:Y; pose proof Y as Y'; unfold says_yes in Y'; cbn in Y');
  repeat (progress (cbn; unfold updateSummary, sigint_listener, bind;
                    rewrite ?Esum, ?R', ?Y')).
  all: first [ eapply checkpoint_exit; solve_effects
             | eapply checkpoint_continued; solve_effects
             | eapply checkpoint_declined; solve_effects
             | eapply checkpoint_sigint; solve_effects ].
Qed.

Lemma loop_body_outcome a i s h w :
  outcome env a i s h w (fst (loop_body env a i s h w)) (snd (loop_body env a i s h w)).
Proof.
  unfold loop_body.
  rewrite (bind_normal _getSigintReceived _ w w (sigintReceived w) eq_refl).
  destruct (sigintReceived w) eqn:Hs.
  { cbn. now constructor. }
  erewrite bind_normal by reflexivity.
  match goal with |- context [bind (invoke env a i s) _ ?w0] => set (w0' := w0) end.
  assert (E0 : effects a w w0' (files w) [] [] []) by (unfold effects; cbn; auto).
  assert (R0 : respond env a i s w0' = respond env a i s w) by reflexivity.
  assert (S0 : sigintReceived w0' = false) by exact Hs.
  clearbody w0'.
  pose proof (invoke_invoked a i s w0') as Hi.
  destruct (invoke env a i s w0') as [c w1] eqn:Ei. cbn [fst snd] in Hi.
  inversion Hi as [fs' snap w' R E V | message fs' s' w' R E Sg V
                  | code out err fs' w' R E Sg]; subst; rewrite R0 in R.
  - rewrite (bind_exit _ _ _ _ _ Ei). cbn [fst snd].
    eapply agent_interrupted; [exact Hs | exact R | effects_from_parts | exact V].
  - rewrite (bind_normal _ _ _ _ _ Ei). cbn [fst snd ret].
    eapply spawn_failed; [exact Hs | exact R | effects_from_parts | congruence | exact V].
  - rewrite (bind_normal _ _ _ _ _ Ei). cbn [r_sessionId r_exitCode].
    assert (E1 : effects a w w1 (stream_files a i out fs') [args_of a i s] [] [])
      by effects_from_parts.
    assert (S1 : sigintReceived w1 = false) by congruence.
    clear E0 E Sg S0 R0 Hi Ei w0'.
    fold (session_of s out err).
    destruct (truthy_opt (session_of s out err)) eqn:Hsid; cbn [negb].
    2:{ destruct (truthy_s (summaryJson a)) eqn:Esum;
        repeat (progress (cbn; unfold updateSummary, bind; rewrite ?Esum));
        (eapply session_missing;
         [ exact Hs | exact R | exact Hsid | effects_from_parts | exact S1 | reflexivity ]). }
    destruct (record_run a i s h
                {| r_exitCode := code; r_sessionId := session_of s out err;
                   r_stdout := out; r_stderr := err |} w1)
      as (rec & s1 & w2 & Er & E2 & S2 & Ri & Rd & Rc & V1).
    cbn [r_sessionId r_exitCode] in *.
    assert (F1 : files w1 = stream_files a i out fs') by (destruct E1; assumption).
    rewrite F1 in Er, Rd. fold (message_of a i out fs') in Er, Rd.
    assert (C : concluded env a i s w code out err fs' rec)
      by (unfold concluded; auto 10).
    assert (F2 : files w2 = stream_files a i out fs')
      by (destruct E2 as [F _]; congruence).
    assert (S2' : sigintReceived w2 = false) by congruence.
    assert (Q2 : reply env w2 = reply env w).
    { unfold reply. split_effects. cbn in *. rewrite_effects. reflexivity. }
    rewrite (bind_normal _ _ _ _ _ Er).
    destruct (detected (message_of a i out fs') (promiseMode a) (completionPromise a))
      eqn:Hd.
    { (* the promise is detected *)
      destruct (truthy_s (summaryJson a)) eqn:Esum;
      repeat (progress (cbn; unfold updateSummary, bind; rewrite ?Esum));
      (eapply promise_detected;
       [ exact C | exact Rd | effects_from_parts | exact S2' | exact V1 | reflexivity ]). }
    rewrite (bind_normal _ _ _ _ _ (hardStop_run _ _ w2)).
    rewrite F2. fold (checkpoint_hit a i out fs').
    destruct (checkpoint_hit a i out fs') eqn:Hc.
    2:{ (* no checkpoint *)
      erewrite bind_normal by reflexivity.
      destruct (maxIterations a <=? i)%nat eqn:Hm.
      + destruct (truthy_s (summaryJson a)) eqn:Esum;
        repeat (progress (cbn; unfold updateSummary, bind; rewrite ?Esum));
        (eapply ran_out;
         [ exact C | exact Rd | exact Hc | exact Hm | effects_from_parts | exact S2'
         | exact V1 | reflexivity ]).
      + cbn. eapply went_on;
         [ exact C | exact Rd | exact Hc | exact Hm | effects_from_parts | exact S2'
         | exact V1 ]. }
    pose proof (checkpoint_checkpointed a s1 w2) as Hk.
    destruct (checkpoint env a s1 w2) as [c w3] eqn:Ek. cbn [fst snd] in Hk.
    inversion Hk as [s2 w' Hx E3 S3 V2 | resp q s2 w' Hx Hr Hy E3 S3 V2
                    | q s2 snap w' Hx Hr E3 V2 V3
                    | resp q s2 s3 w' Hx Hr Hy E3 S3 V2 V3]; subst c w';
      try rewrite Q2 in Hr.
    + rewrite (bind_normal _ _ _ _ _ Ek). cbn.
      eapply hard_stop_exit;
        [ exact C | exact Rd | exact Hc | exact Hx | effects_from_parts | congruence
        | exact V1 | exact V2 ].
    + rewrite (bind_normal _ _ _ _ _ Ek). cbn.
      eapply hard_stop_declined;
        [ exact C | exact Rd | exact Hc | exact Hx | exact Hr | exact Hy
        | effects_from_parts | congruence | exact V1 | exact V2 ].
    + rewrite (bind_exit _ _ _ _ _ Ek). cbn.
      eapply hard_stop_interrupted;
        [ exact C | exact Rd | exact Hc | exact Hx | exact Hr
        | effects_from_parts | exact V1 | exact V2 | exact V3 ].
    + rewrite (bind_normal _ _ _ _ _ Ek).
      assert (V3' : view s3 = with_paused false (view s1)).
      { rewrite V3, V1. reflexivity. }
      assert (S3' : sigintReceived w3 = false) by congruence.
      destruct (maxIterations a <=? i)%nat eqn:Hm.
      * destruct (truthy_s (summaryJson a)) eqn:Esum;
        repeat (progress (cbn; unfold updateSummary, bind; rewrite ?Esum, ?Hm));
        (eapply hard_stop_continued_last;
         [ exact C | exact Rd | exact Hc | exact Hx | exact Hr | exact Hy | exact Hm
         | effects_from_parts | exact S3' | exact V1 | exact V2 | exact V3'
         | reflexivity ]).
      * cbn.
        eapply hard_stop_continued;
         [ exact C | exact Rd | exact Hc | exact Hx | exact Hr | exact Hy | exact Hm
         | effects_from_parts | exact S3' | exact V1 | exact V2 | exact V3' ].
Qed.


(** *** Reading the state record through its view *)

Lemma view_fields (s : State) (v : View) :
  view s = v ->
  status s = v_status v /\ iteration s = v_iteration v /\ history s = v_history v
  /\ todo s = v_todo v /\ session_id (codex s) = v_session v
  /\ loop_id s = v_loop_id v /\ prompt s = v_prompt v.
Proof. intros <-. cbn. auto 10. Qed.

Ltac read_views :=
  repeat match goal with
         | H : view _ = _ |- _ =>
             apply view_fields in H; cbn in H;
             destruct H as (? & ? & ? & ? & ? & ? & ?)
         end.

(** The record saved last is the one on disk. *)
Lemma effects_disk a w w' fs sp s' sv qs :
  effects a w w' fs sp (s' :: sv) qs -> disk w' !! statePath a = Some s'.
Proof. intros (_ & _ & _ & _ & D). rewrite D. cbn. apply lookup_insert_eq. Qed.

(** The completion of a pass determines its world. *)
Lemma outcome_of a i s h w c w' :
  loop_body env a i s h w = (c, w') -> outcome env a i s h w c w'.
Proof.
  intros E. pose proof (loop_body_outcome a i s h w) as O. rewrite E in O. exact O.
Qed.

(** The cases of [outcome] that contradict what is known about the pass
    are closed; the premises of the remaining ones are opened, and the
    answer of the environment is identified with the known one. *)
Ltac same_response R :=
  repeat match goal with
         | H : respond _ _ _ _ _ = _ |- _ =>
             rewrite R in H; first [ discriminate H | injection H as <- <- <- <- | clear H ]
         end.

Ltac open_outcome O c w' :=
  inversion O; subst c; try subst w';
  repeat match goal with
         | H : concluded _ _ _ _ _ _ _ _ _ _ |- _ =>
             destruct H as (? & ? & ? & ? & ? & ?)
         end;
  try congruence.

Ltac read_effects :=
  match goal with
  | H : effects _ _ _ _ _ (_ :: _) _ |- _ =>
      pose proof (effects_disk _ _ _ _ _ _ _ _ H);
      destruct H as (? & ? & ? & ? & _)
  | H : effects _ _ _ _ _ _ _ |- _ =>
      destruct H as (? & ? & ? & ? & _)
  end;
  cbn [app] in *.

Lemma spawn_failure_outcome a i s h w message fs' :
  sigintReceived w = false ->
  respond env a i s w = (SpawnError message, fs') ->
  exists s' w',
    loop_body env a i s h w = (Normal (Return, s', h), w')
    /\ status s' = error_spawn
    /\ iteration s' = iteration s
    /\ history s' = history s
    /\ disk w' !! statePath a = Some s'
    /\ saved (trace w') = s' :: saved (trace w)
    /\ spawned (trace w') = args_of a i s :: spawned (trace w).
Proof.
  intros Hs R.
  destruct (loop_body env a i s h w) as [c w'] eqn:E.
  apply outcome_of in E as O. clear E.
  open_outcome O c w'; same_response R.
  read_effects. read_views. eauto 10.
Qed.

Lemma completed_outcome a i s h w code out err fs' :
  sigintReceived w = false ->
  respond env a i s w = (Closed code out err, fs') ->
  truthy_opt (session_of s out err) = true ->
  detected (message_of a i out fs') (promiseMode a) (completionPromise a) = true ->
  exists rec s1 s2 w',
    loop_body env a i s h w = (Normal (Break, s2, h ++ [rec]), w')
    /\ status s2 = completed
    /\ todo s2 = todo s
    /\ iteration s2 = i
    /\ it_iteration rec = i /\ it_detected_promise rec = true
    /\ disk w' !! statePath a = Some s2
    /\ saved (trace w') = s2 :: s1 :: saved (trace w)
    /\ status s1 = running /\ todo s1 = todo s
    /\ spawned (trace w') = args_of a i s :: spawned (trace w)
    /\ asked (trace w') = asked (trace w).
Proof.
  intros Hs R Hsid Hd.
  destruct (loop_body env a i s h w) as [c w'] eqn:E.
  apply outcome_of in E as O. clear E.
  open_outcome O c w'; same_response R; try congruence.
  read_effects. read_views.
  do 4 eexists. split; [reflexivity|].
  repeat apply conj; try eassumption; try congruence.
Qed.

Lemma hard_stop_exit_outcome a i s h w code out err fs' :
  sigintReceived w = false ->
  respond env a i s w = (Closed code out err, fs') ->
  truthy_opt (session_of s out err) = true ->
  detected (message_of a i out fs') (promiseMode a) (completionPromise a) = false ->
  checkpoint_hit a i out fs' = true ->
  hardStopMode a = "exit" ->
  exists rec s1 s2 w',
    loop_body env a i s h w = (Normal (Break, s2, h ++ [rec]), w')
    /\ status s2 = paused_hard_stop
    /\ todo s2 = todo_with_paused_for_hard_stop true <$> todo s
    /\ iteration s2 = i
    /\ disk w' !! statePath a = Some s2
    /\ saved (trace w') = s2 :: s1 :: saved (trace w)
    /\ spawned (trace w') = args_of a i s :: spawned (trace w)
    /\ asked (trace w') = asked (trace w).
Proof.
  intros Hs R Hsid Hd Hc Hx.
  destruct (loop_body env a i s h w) as [c w'] eqn:E.
  apply outcome_of in E as O. clear E.
  open_outcome O c w'; same_response R; try congruence.
  read_effects. read_views.
  do 4 eexists. split; [reflexivity|].
  repeat apply conj; try eassumption; try congruence.
Qed.


(** *** Runs *)

Lemma for_iterations_run a (its : list nat) s h w :
  run env a its s h w (fst (for_iterations env a its s h w))
    (snd (for_iterations env a its s h w)).
Proof.
  revert s h w. induction its as [|i later IH]; intros s h w; cbn [for_iterations].
  - constructor.
  - destruct (loop_body env a i s h w) as [c w1] eqn:E.
    apply outcome_of in E as O.
    unfold bind. rewrite E.
    destruct c as [[[flow s1] h1]|m|z|].
    + destruct flow.
      * eapply run_next; [exact O | apply IH].
      * eapply run_stop; [exact O | discriminate].
      * eapply run_stop; [exact O | discriminate].
    + inversion O.
    + cbn. eapply run_exit. exact O.
    + inversion O.
Qed.

Lemma at_stage_refl s : at_stage s [] s.
Proof. unfold at_stage. rewrite app_nil_r. cbn. auto with arith. Qed.

Ltac stage :=
  unfold at_stage; cbn [length]; rewrite ?app_nil_r;
  repeat apply conj; first [ congruence | lia ].

Ltac forall_stage :=
  repeat match goal with
         | |- Forall _ (_ :: _) => constructor; [stage|]
         | |- Forall _ [] => constructor
         end.

Lemma outcome_stage a i s h w c w' :
  outcome env a i s h w c w' -> h = history s -> i = S (iteration s) ->
  exists sv new,
    saved (trace w') = sv ++ saved (trace w)
    /\ Forall (at_stage s new) sv
    /\ (new = [] \/ exists rec, new = [rec] /\ it_iteration rec = i)
    /\ (forall flow s1 h1, c = Normal (flow, s1, h1) ->
          h1 = history s1 /\ at_stage s new s1 /\ (flow = Next -> new <> [])).
Proof.
  intros O Hh Hi.
  inversion O; subst c; try subst w';
  repeat match goal with
         | H : concluded _ _ _ _ _ _ _ _ _ _ |- _ =>
             destruct H as (? & ? & ? & ? & ? & ?)
         | H : effects _ _ _ _ _ _ _ |- _ =>
             destruct H as (_ & _ & ? & _ & _)
         end;
  read_views.
  1: { exists [], []. split; [|split; [|split]]; [reflexivity | constructor | now left |].
       intros ? ? ? [= <- <- <-]. split; [|split]; [assumption | stage | discriminate]. }
  1-3: (eexists _, []; (split; [|split; [|split]]);
        [ eassumption | forall_stage | now left
        | first [ solve [intros ? ? ? ?; discriminate]
                | intros ? ? ? [= <- <- <-];
                  (split; [|split]); [ congruence | stage | discriminate ] ] ]).
  all: match goal with Hr : it_iteration ?rec = _ |- _ =>
         eexists _, [rec]; (split; [|split; [|split]]);
         [ eassumption | forall_stage | right; eauto
         | first [ solve [intros ? ? ? ?; discriminate]
                 | intros ? ? ? [= <- <- <-];
                   (split; [|split]); [ congruence | stage | discriminate ] ] ]
       end.
Qed.


Lemma continues_refl s : continues s s.
Proof. exists []. split; [apply at_stage_refl | reflexivity]. Qed.

Lemma continues_stage s new st :
  at_stage s new st ->
  (new = [] \/ exists rec, new = [rec] /\ it_iteration rec = S (iteration s)) ->
  continues s st.
Proof.
  intros A [->|(rec & -> & Hr)]; eexists; (split; [exact A|]); cbn; congruence.
Qed.

Lemma continues_step s rec s1 st :
  at_stage s [rec] s1 -> it_iteration rec = S (iteration s) ->
  continues s1 st -> continues s st.
Proof.
  intros (H1 & I1 & L1 & P1) Hr (new & (H2 & I2 & L2 & P2) & N).
  exists (rec :: new). cbn [length] in *. split.
  - unfold at_stage. cbn [length].
    rewrite H2, H1, <- app_assoc. repeat apply conj; [reflexivity | lia | congruence ..].
  - cbn. rewrite Hr. f_equal. rewrite N. f_equal. lia.
Qed.

Lemma continues_grown s st : continues s st -> grown_from st s.
Proof. intros (new & (H & _) & _). exists new. exact H. Qed.

Lemma sorted_app (l1 l2 : list State) :
  StronglySorted grown_from l1 -> StronglySorted grown_from l2 ->
  (forall x y, In x l1 -> In y l2 -> grown_from x y) ->
  StronglySorted grown_from (l1 ++ l2).
Proof.
  induction 1 as [|x l1 S1 IH F1]; intros S2 H; cbn; [exact S2|].
  constructor.
  - apply IH; [exact S2 | intros; apply H; [now right | assumption]].
  - apply List.Forall_app. split; [exact F1|].
    apply List.Forall_forall. intros y Hy. apply H; [now left | exact Hy].
Qed.

(** Records that stand at one stage are sorted, whatever their order. *)
Lemma sorted_stage s new (sv : list State) :
  Forall (at_stage s new) sv -> StronglySorted grown_from sv.
Proof.
  induction 1 as [|x l Hx Hl IH]; constructor; [exact IH|].
  apply List.Forall_forall. intros y Hy.
  apply (proj1 (List.Forall_forall _ _) Hl) in Hy.
  destruct Hx as (Hx & _), Hy as (Hy & _).
  unfold grown_from. rewrite Hx, Hy. reflexivity.
Qed.

Lemma run_continues a its s h w c w' :
  run env a its s h w c w' ->
  forall k, h = history s -> its = seq (S (iteration s)) k ->
  exists sv,
    saved (trace w') = sv ++ saved (trace w)
    /\ Forall (continues s) sv
    /\ StronglySorted grown_from sv
    /\ (forall s', c = Normal s' -> continues s s' /\ Forall (grown_from s') sv).
Proof.
  induction 1 as [s h w | i later s h w s1 h1 w1 c w2 O R IH
                 | i later s h w flow s1 h1 w1 O Hf | i later s h w z w1 O];
    intros k Hh Hk.
  - exists []. repeat split; try constructor.
    injection H as <-. apply continues_refl.
  - destruct k as [|k]; [discriminate|]. injection Hk as Hi Hl.
    destruct (outcome_stage _ _ _ _ _ _ _ O Hh Hi) as (sv1 & new & V1 & F1 & N & Fin).
    destruct (Fin _ _ _ eq_refl) as (Hh1 & A1 & Nx).
    destruct N as [->|(rec & -> & Hr)]; [now destruct (Nx eq_refl)|].
    assert (I1 : iteration s1 = S (iteration s))
      by (destruct A1 as (_ & I & _); cbn in I; lia).
    destruct (IH k Hh1) as (sv2 & V2 & F2 & S2 & Fin2).
    { rewrite I1. exact Hl. }
    exists (sv2 ++ sv1). rewrite V2, V1, app_assoc.
    assert (G1 : forall y, In y sv1 -> history y = history s1).
    { intros y Hy. apply (proj1 (List.Forall_forall _ _) F1) in Hy.
      destruct Hy as (Hy & _), A1 as (A1 & _). congruence. }
    split; [reflexivity|]. split; [|split].
    + apply List.Forall_app. split.
      * eapply List.Forall_impl; [|exact F2].
        intros x Hx. eapply continues_step; eauto. congruence.
      * eapply List.Forall_impl; [|exact F1].
        intros x Hx. eapply continues_stage; eauto. right. exists rec. split; congruence.
    + apply sorted_app; [exact S2 | eapply sorted_stage; exact F1 |].
      intros x y Hx Hy. apply (proj1 (List.Forall_forall _ _) F2) in Hx.
      apply continues_grown in Hx. unfold grown_from in *. rewrite (G1 y Hy). exact Hx.
    + intros s' Hc. destruct (Fin2 s' Hc) as (C2 & G2). split.
      * eapply continues_step; eauto. congruence.
      * apply List.Forall_app. split; [exact G2|].
        apply List.Forall_forall. intros y Hy.
        apply continues_grown in C2. unfold grown_from in *. rewrite (G1 y Hy). exact C2.
  - destruct k as [|k]; [discriminate|]. injection Hk as Hi Hl.
    destruct (outcome_stage _ _ _ _ _ _ _ O Hh Hi) as (sv1 & new & V1 & F1 & N & Fin).
    destruct (Fin _ _ _ eq_refl) as (Hh1 & A1 & _).
    assert (N' : new = [] \/ exists rec, new = [rec] /\ it_iteration rec = S (iteration s)).
    { destruct N as [->|(rec & -> & Hr)]; [now left | right; exists rec; split; congruence]. }
    exists sv1. split; [exact V1|]. split; [|split].
    + eapply List.Forall_impl; [|exact F1]. intros x Hx. eapply continues_stage; eauto.
    + eapply sorted_stage; exact F1.
    + intros s' [= <-]. split; [eapply continues_stage; eauto|].
      eapply List.Forall_impl; [|exact F1]. intros y (Hy & _).
      destruct A1 as (A1 & _). unfold grown_from. rewrite Hy, A1. reflexivity.
  - destruct k as [|k]; [discriminate|]. injection Hk as Hi Hl.
    destruct (outcome_stage _ _ _ _ _ _ _ O Hh Hi) as (sv1 & new & V1 & F1 & N & _).
    assert (N' : new = [] \/ exists rec, new = [rec] /\ it_iteration rec = S (iteration s)).
    { destruct N as [->|(rec & -> & Hr)]; [now left | right; exists rec; split; congruence]. }
    exists sv1. split; [exact V1|]. split; [|split].
    + eapply List.Forall_impl; [|exact F1]. intros x Hx. eapply continues_stage; eauto.
    + eapply sorted_stage; exact F1.
    + intros s' [=].
Qed.


(** [runLoop] is its loop, entered with the interrupt flag down. *)
Lemma runLoop_for a s w :
  exists s0 w0,
    runLoop env a s w
    = for_iterations env a (seq (S (iteration s0)) (maxIterations a - iteration s0))
        s0 (history s0) w0
    /\ view s0 = view s
    /\ sigintReceived w0 = false
    /\ effects a w w0 (files w) [] [] [].
Proof.
  unfold runLoop, warnDangerous.
  match goal with |- context [if ?b then console_warn _ else _] => destruct b end;
  cbn; rewrite Nat.add_1_r;
  match goal with
  | |- context [for_iterations env a _ ?s0 _ ?w0] => exists s0, w0
  end;
  (split; [reflexivity|]; split; [reflexivity|]; split; [reflexivity|]);
  unfold effects; cbn; auto.
Qed.

Lemma run_exhausts a its s h w c w' :
  run env a its s h w c w' ->
  forall s' k,
    c = Normal s' ->
    sigintReceived w = false ->
    h = history s ->
    its = seq (S (iteration s)) (S k) ->
    iteration s + S k = maxIterations a ->
    status s' <> error_spawn -> status s' <> error_no_session ->
    status s' <> paused_hard_stop ->
    (forall new, history s' = h ++ new ->
                 Forall (fun rec => it_detected_promise rec = false) new) ->
    status s' = stopped_max_iterations
    /\ iteration s' = maxIterations a
    /\ (exists sp, spawned (trace w') = sp ++ spawned (trace w) /\ length sp = S k)
    /\ (exists new, history s' = h ++ new /\ length new = S k).
Proof.
  induction 1 as [s h w | i later s h w s1 h1 w1 c w2 O R IH
                 | i later s h w flow s1 h1 w1 O Hf | i later s h w z w1 O];
    intros s' k Hc Hs Hh Hk Hm E1 E2 E3 Hd; try discriminate.
  - (* the pass falls through to the next iteration *)
    injection Hk as Hi Hl.
    assert (exists rec args,
               h1 = h ++ [rec] /\ history s1 = h1 /\ iteration s1 = i
               /\ (maxIterations a <=? i)%nat = false
               /\ sigintReceived w1 = false
               /\ spawned (trace w1) = [args] ++ spawned (trace w)) as
        (rec & args & -> & Hh1 & Hi1 & Hlt & Hs1 & Hp).
    { inversion O; subst;
      repeat match goal with
             | H : concluded _ _ _ _ _ _ _ _ _ _ |- _ =>
                 destruct H as (? & ? & ? & ? & ? & ?)
             | H : effects _ _ _ _ _ _ _ |- _ => destruct H as (_ & ? & _ & _ & _)
             end; read_views; do 2 eexists; repeat apply conj; eauto; congruence. }
    apply Nat.leb_gt in Hlt.
    destruct k as [|k]; [lia|].
    destruct (IH s' k Hc Hs1 (eq_sym Hh1)) as (St & It & (sp & Sp & Lp) & (new & Hn & Ln));
      try assumption.
    + rewrite Hi1, Hi. exact Hl.
    + lia.
    + intros new Hn. rewrite <- app_assoc in Hn. apply Hd in Hn.
      inversion Hn; assumption.
    + split; [exact St|]. split; [exact It|]. split.
      * exists (sp ++ [args]). rewrite Sp, Hp, app_assoc. split; [reflexivity|].
        rewrite length_app. cbn. lia.
      * exists (rec :: new). rewrite Hn, <- app_assoc. split; [reflexivity|]. cbn. lia.
  - (* the pass leaves the loop *)
    injection Hc as ->. injection Hk as Hi Hl.
    inversion O; subst;
    repeat match goal with
           | H : concluded _ _ _ _ _ _ _ _ _ _ |- _ =>
               destruct H as (? & ? & ? & ? & ? & ?)
           | H : effects _ _ _ _ _ _ _ |- _ => destruct H as (_ & ? & _ & _ & _)
           end; read_views; try congruence.
    all: try match goal with
             | Ht : it_detected_promise ?rec = true |- _ =>
                 exfalso;
                 assert (Hx : Forall (fun r => it_detected_promise r = false) [rec])
                   by (apply Hd; congruence);
                 inversion Hx; congruence
             end.
    all: match goal with
         | Hle : (_ <=? _)%nat = true |- _ => apply Nat.leb_le in Hle
         end.
    all: assert (k = 0) by lia; subst k.
    all: (split; [congruence|]); (split; [lia|]); split;
         [ eexists; split; [eassumption | reflexivity]
         | match goal with
           | Hr : it_iteration ?rec = _ |- _ =>
               exists [rec]; split; [congruence | reflexivity]
           end ].
Qed.


(** A pass that leaves the loop ends the run: the iterations that were
    left are not started. *)
Lemma for_iterations_stops a i later s h w flow s' h' w' :
  loop_body env a i s h w = (Normal (flow, s', h'), w') -> flow <> Next ->
  for_iterations env a (i :: later) s h w = (Normal s', w').
Proof.
  intros E Hf. cbn [for_iterations]. rewrite (bind_normal _ _ _ _ _ E).
  destruct flow; [congruence | reflexivity | reflexivity].
Qed.

Lemma file_text_missing (fs : gmap string string) (p : string) :
  fs !! p = None -> file_text fs p = EmptyString.
Proof.
  intros H. pose proof (readFileSafe_run p (on_files fs)) as E.
  unfold readFileSafe, fs_existsSync, fs_readFileSync, bind, ret in E. cbn in E.
  destruct (Str.truthy p); cbn in E; [rewrite H in E; cbn in E|]; congruence.
Qed.

Lemma detected_empty (mode token : string) : detected EmptyString mode token = false.
Proof. unfold detected, value_or. now rewrite detect_falsy. Qed.

Ltac forall_by tac :=
  repeat match goal with
         | |- Forall _ (_ :: _) => constructor; [tac|]
         | |- Forall _ [] => constructor
         end.

(** An iteration whose final-message file is missing after the child
    has run is not a completed one. *)
Lemma missing_artifact_outcome a i s h w outcome fs' c w' :
  sigintReceived w = false ->
  respond env a i s w = (outcome, fs') ->
  (forall code out err, outcome = Closed code out err ->
     stream_files a i out fs' !! lastMessagePathOf a i = None) ->
  loop_body env a i s h w = (c, w') ->
  (forall flow s' h', c = Normal (flow, s', h') ->
     status s' <> completed
     /\ forall rec, h' = h ++ [rec] -> it_detected_promise rec = false)
  /\ exists sv, saved (trace w') = sv ++ saved (trace w)
                /\ Forall (fun snap => status snap <> completed) sv.
Proof.
  intros Hs R Hmiss E. apply outcome_of in E as O. clear E.
  inversion O; subst c; try subst w';
  repeat match goal with
         | H : concluded _ _ _ _ _ _ _ _ _ _ |- _ =>
             destruct H as (? & ? & ? & ? & ? & ?)
         | H : effects _ _ _ _ _ _ _ |- _ => destruct H as (_ & _ & ? & _ & _)
         end;
  try congruence;
  repeat match goal with
         | H : respond _ _ _ _ _ = _ |- _ =>
             rewrite R in H; injection H as -> <-
         end;
  try match goal with
      | H : it_detected_promise ?rec = detected (message_of _ _ ?out ?fs) _ _ |- _ =>
          unfold message_of in H;
          rewrite (file_text_missing _ _ (Hmiss _ out _ eq_refl)), detected_empty in H
      end;
  try congruence; read_views.
  all: split;
    [ first [ solve [intros ? ? ? ?; discriminate]
            | intros ? ? ? [= <- <- <-]; split;
              [ congruence
              | first [ intros rec0 Hr; apply app_inj_tail in Hr as [_ <-]; congruence
                      | intros rec0 Hr; apply (f_equal (@length _)) in Hr;
                        rewrite length_app in Hr; cbn in Hr; lia ] ] ]
    | eexists; split; [eassumption | forall_by congruence] ].
Qed.

Lemma continues_view s0 s st : view s0 = view s -> continues s0 st -> continues s st.
Proof.
  intros V (new & (H & I & L & P) & N). apply view_fields in V. cbn in V.
  destruct V as (_ & Vi & Vh & _ & _ & Vl & Vp).
  exists new. unfold at_stage. rewrite <- Vi, <- Vh, <- Vl, <- Vp. auto.
Qed.

Lemma continues_length s st :
  length (history s) = iteration s -> continues s st ->
  length (history st) = iteration st.
Proof.
  intros L (new & (H & I & _) & _). rewrite H, I, length_app. lia.
Qed.

(** What a whole call of [runLoop] saves continues the record it was
    called with. *)
Lemma runLoop_continues a s w :
  exists sv,
    saved (trace (snd (runLoop env a s w))) = sv ++ saved (trace w)
    /\ Forall (continues s) sv
    /\ StronglySorted grown_from sv
    /\ (forall s', fst (runLoop env a s w) = Normal s' ->
                   continues s s' /\ Forall (grown_from s') sv).
Proof.
  destruct (runLoop_for a s w) as (s0 & w0 & E & V & _ & (_ & _ & Sv & _ & _)).
  rewrite E. cbn in Sv.
  pose proof (for_iterations_run a
                (seq (S (iteration s0)) (maxIterations a - iteration s0))
                s0 (history s0) w0) as R.
  destruct (run_continues _ _ _ _ _ _ _ R _ eq_refl eq_refl) as (sv & Hs & F & S & Fin).
  exists sv. rewrite Hs, Sv. split; [reflexivity|]. split; [|split; [exact S|]].
  - eapply List.Forall_impl; [|exact F]. intros x. now apply continues_view.
  - intros s' Hc. destruct (Fin s' Hc) as (C & G). split; [|exact G].
    eapply continues_view; eassumption.
Qed.

(** Child processes are only ever added. *)
Lemma outcome_spawned a i s h w c w' :
  outcome env a i s h w c w' ->
  (sigintReceived w = true /\ w' = w)
  \/ spawned (trace w') = [args_of a i s] ++ spawned (trace w).
Proof.
  intros O. inversion O; subst;
  repeat match goal with
         | H : effects _ _ _ _ _ _ _ |- _ => destruct H as (_ & ? & _ & _ & _)
         end; auto.
Qed.

Lemma run_spawned a its s h w c w' :
  run env a its s h w c w' ->
  exists sp, spawned (trace w') = sp ++ spawned (trace w).
Proof.
  induction 1 as [s h w | i later s h w s1 h1 w1 c w2 O R IH
                 | i later s h w flow s1 h1 w1 O Hf | i later s h w z w1 O].
  - now exists [].
  - destruct IH as (sp & Hsp).
    destruct (outcome_spawned _ _ _ _ _ _ _ O) as [[_ ->]|Ho].
    + now exists sp.
    + exists (sp ++ [args_of a i s]). now rewrite Hsp, Ho, app_assoc.
  - destruct (outcome_spawned _ _ _ _ _ _ _ O) as [[_ ->]|Ho]; [now exists []|eauto].
  - destruct (outcome_spawned _ _ _ _ _ _ _ O) as [[_ ->]|Ho]; [now exists []|eauto].
Qed.

(** A run entered with the interrupt flag down starts the child process
    of its first iteration number. *)
Lemma run_first_spawn a i later s h w c w' :
  run env a (i :: later) s h w c w' -> sigintReceived w = false ->
  exists sp, spawned (trace w') = sp ++ [args_of a i s] ++ spawned (trace w).
Proof.
  intros R Hs. inversion R as [| ? ? ? ? ? s1 h1 w1 ? ? O R' | ? ? ? ? ? flow s1 h1 w1 O Hf
                              | ? ? ? ? ? z w1 O]; subst.
  - destruct (outcome_spawned _ _ _ _ _ _ _ O) as [[Ht _]|Ho]; [congruence|].
    destruct (run_spawned _ _ _ _ _ _ _ R') as (sp & Hsp).
    exists sp. now rewrite Hsp, Ho.
  - destruct (outcome_spawned _ _ _ _ _ _ _ O) as [[Ht _]|Ho]; [congruence|].
    now exists [].
  - destruct (outcome_spawned _ _ _ _ _ _ _ O) as [[Ht _]|Ho]; [congruence|].
    now exists [].
Qed.

(** A non-empty string is truthy. *)
Lemma truthy_nonempty (v : string) : v <> EmptyString -> Str.truthy v = true.
Proof. destruct v; [congruence|reflexivity]. Qed.

Lemma or_s_some (v : string) (b : option string) :
  v <> EmptyString -> or_s (Some v) b = Some v.
Proof. intros H. unfold or_s. cbn. now rewrite truthy_nonempty. Qed.

(** [loadState] on a path that holds a record, and on one that holds
    nothing. *)
Lemma loadState_found (p : string) (st : State) (w : World) :
  disk w !! p = Some st -> loadState p w = (Normal st, w).
Proof.
  intros Hd. unfold loadState, fs_existsSync_any, readJson, bind.
  rewrite Hd. rewrite (bool_decide_eq_true_2 (is_Some (Some st))) by eauto.
  rewrite orb_true_r. cbn. now rewrite Hd.
Qed.

Lemma loadState_missing (p : string) (w : World) :
  disk w !! p = None -> files w !! p = None ->
  loadState p w = (Throw ("State file not found at " +:+ p), w).
Proof.
  intros Hd Hf. unfold loadState, fs_existsSync_any, bind. now rewrite Hd, Hf.
Qed.

(** The step of [handleResume] before the loop, on a record that is
    found: the record after the overrides is saved once, and only the
    overridden fields and the four agent options differ from the record
    loaded. *)
Lemma resume_step_run options w p st :
  resolveStatePath env (opt_loopId options) (opt_stateFile options)
    (stateLookupRootOf env options) w = (Normal p, w) ->
  disk w !! p = Some st ->
  exists a st' w1,
    resume_step env options w = (Normal (a, st'), w1)
    /\ view st' = view st
    /\ disk w1 = <[p := st']> (disk w)
    /\ trace w1 = StateSaved p st' :: trace w
    /\ statePath a = p
    /\ maxIterations a = max_iterations st'
    /\ completionPromise a = completion_promise st'
    /\ promiseMode a = promise_mode st'
    /\ samePromptEachIteration a
       = default DEFAULT_SAME_PROMPT_EACH_ITERATION (same_prompt_each_iteration st')
    /\ max_iterations st'
       = (if truthy_n (opt_maxIterations options)
          then default 0 (opt_maxIterations options) else max_iterations st)
    /\ completion_promise st'
       = (if truthy_s (opt_completionPromise options)
          then default EmptyString (opt_completionPromise options)
          else completion_promise st)
    /\ promise_mode st'
       = (if truthy_s (opt_promiseMode options)
          then default EmptyString (opt_promiseMode options) else promise_mode st)
    /\ same_prompt_each_iteration st'
       = match opt_samePromptEachIteration options with
         | Some v => Some v
         | None => same_prompt_each_iteration st
         end
    /\ model (codex st') = co_model (codexOptions a)
    /\ profile (codex st') = co_profile (codexOptions a)
    /\ sandbox (codex st') = co_sandbox (codexOptions a)
    /\ approval (codex st') = co_askForApproval (codexOptions a)
    /\ codexOptions a
       = buildCodexOptions options (workspaceRoot a) no_fallback.
Proof.
  intros Hp Hd. unfold resume_step.
  rewrite (bind_normal _ _ w w p Hp).
  rewrite (bind_normal (loadState p) _ w w st) by now apply loadState_found.
  unfold saveState, nowIso, bind, ret. cbn.
  eexists _, _, _. split; [reflexivity|].
  destruct (truthy_n (opt_maxIterations options)),
           (truthy_s (opt_completionPromise options)),
           (truthy_s (opt_promiseMode options)),
           (opt_samePromptEachIteration options);
    cbn; repeat apply conj; reflexivity.
Qed.

(** *** Session identifiers *)



Lemma chars_of_chars (l : list ascii) : Str.chars (Str.of_chars l) = l.
Proof. apply list_ascii_of_string_of_list_ascii. Qed.

Lemma of_chars_chars (s : string) : Str.of_chars (Str.chars s) = s.
Proof. apply string_of_list_ascii_of_string. Qed.

Lemma hex_run_spec (n : nat) (l r : list ascii) :
  hex_run n l = Some r <->
  exists g, l = g ++ r /\ length g = n /\ Forall (fun c => is_hex c = true) g.
Proof.
  revert l. induction n as [|n IH]; intros l; cbn.
  - split.
    + intros [= ->]. exists []. auto.
    + intros (g & -> & Hl & _). destruct g; [reflexivity|discriminate].
  - destruct l as [|c l].
    + split; [discriminate|]. intros ([|? ?] & ? & ? & _); discriminate.
    + destruct (is_hex c) eqn:Hc.
      * rewrite IH. split.
        -- intros (g & -> & Hl & F). exists (c :: g). cbn. auto.
        -- intros ([|c' g] & Hg & Hl & F); [discriminate|].
           cbn in Hg. injection Hg as <- ->. injection Hl as Hl.
           exists g. inversion F; auto.
      * split; [discriminate|].
        intros ([|c' g] & Hg & Hl & F); [discriminate|].
        cbn in Hg. injection Hg as <- ->. inversion F; congruence.
Qed.

Lemma dash_spec (l r : list ascii) : dash l = Some r <-> l = "-"%char :: r.
Proof.
  unfold dash. destruct l as [|c l]; [split; discriminate|].
  destruct (Ascii.eqb_spec c "-"%char) as [->|N].
  - split; [intros [= ->]; reflexivity | intros [= ->]; reflexivity].
  - split; [discriminate | intros [= ? ?]; congruence].
Qed.

Lemma uuid_here_spec (l : list ascii) :
  uuid_here l = true <-> exists cs post, l = cs ++ post /\ uuid_shaped cs.
Proof.
  unfold uuid_here, uuid_shaped. cbn [hex_groups]. split.
  - destruct (hex_run 8 l) as [l1|] eqn:E1; [|discriminate].
    destruct (dash l1) as [l2|] eqn:D1; [|discriminate].
    destruct (hex_run 4 l2) as [l3|] eqn:E2; [|discriminate].
    destruct (dash l3) as [l4|] eqn:D2; [|discriminate].
    destruct (hex_run 4 l4) as [l5|] eqn:E3; [|discriminate].
    destruct (dash l5) as [l6|] eqn:D3; [|discriminate].
    destruct (hex_run 4 l6) as [l7|] eqn:E4; [|discriminate].
    destruct (dash l7) as [l8|] eqn:D4; [|discriminate].
    destruct (hex_run 12 l8) as [l9|] eqn:E5; [|discriminate].
    intros _.
    apply hex_run_spec in E1 as (g1 & -> & L1 & F1).
    apply hex_run_spec in E2 as (g2 & -> & L2 & F2).
    apply hex_run_spec in E3 as (g3 & -> & L3 & F3).
    apply hex_run_spec in E4 as (g4 & -> & L4 & F4).
    apply hex_run_spec in E5 as (g5 & -> & L5 & F5).
    apply dash_spec in D1 as ->. apply dash_spec in D2 as ->.
    apply dash_spec in D3 as ->. apply dash_spec in D4 as ->.
    exists (g1 ++ "-"%char :: g2 ++ "-"%char :: g3 ++ "-"%char :: g4 ++ "-"%char :: g5), l9.
    split.
    + repeat (rewrite <- ?app_assoc; cbn [app]). reflexivity.
    + exists g1, g2, g3, g4, g5. repeat (split; [assumption || reflexivity|]).
      repeat (apply Forall_app; split); assumption.
  - intros (cs & post & -> & g1 & g2 & g3 & g4 & g5 & -> & L1 & L2 & L3 & L4 & L5 & F).
    apply Forall_app in F as (F1 & F). apply Forall_app in F as (F2 & F).
    apply Forall_app in F as (F3 & F). apply Forall_app in F as (F4 & F5).
    repeat (rewrite <- ?app_assoc; cbn [app]).
    rewrite (proj2 (hex_run_spec 8 _ _)) by eauto.
    rewrite (proj2 (dash_spec _ _) eq_refl).
    rewrite (proj2 (hex_run_spec 4 _ _)) by eauto.
    rewrite (proj2 (dash_spec _ _) eq_refl).
    rewrite (proj2 (hex_run_spec 4 _ _)) by eauto.
    rewrite (proj2 (dash_spec _ _) eq_refl).
    rewrite (proj2 (hex_run_spec 4 _ _)) by eauto.
    rewrite (proj2 (dash_spec _ _) eq_refl).
    rewrite (proj2 (hex_run_spec 12 _ _)) by eauto.
    reflexivity.
Qed.

Lemma uuid_shaped_length (cs : list ascii) : uuid_shaped cs -> length cs = 36.
Proof.
  intros (g1 & g2 & g3 & g4 & g5 & -> & L1 & L2 & L3 & L4 & L5 & _).
  repeat (rewrite ?length_app; cbn [length]). lia.
Qed.

(** [line.match(re)] answers with a text of the shape, taken from the
    line, at the leftmost place where there is one. *)
Lemma match_uuid_spec (l : list ascii) (u : string) :
  match_uuid l = Some u ->
  uuid_shaped (Str.chars u)
  /\ exists pre post,
       l = pre ++ Str.chars u ++ post
       /\ forall k, k < length pre -> uuid_here (drop k l) = false.
Proof.
  revert u. induction l as [|c l IH]; intros u; cbn [match_uuid].
  - destruct (uuid_here []) eqn:E; [|discriminate].
    apply uuid_here_spec in E as (cs & post & Hl & Sh).
    apply uuid_shaped_length in Sh. symmetry in Hl.
    apply app_eq_nil in Hl as (-> & _). discriminate.
  - destruct (uuid_here (c :: l)) eqn:E.
    + intros H. assert (u = Str.of_chars (take 36 (c :: l))) as -> by congruence.
      clear H. apply uuid_here_spec in E as (cs & post & Hl & Sh).
      pose proof (uuid_shaped_length _ Sh) as L.
      unfold Str.chars, Str.of_chars. rewrite list_ascii_of_string_of_list_ascii.
      rewrite Hl, take_app_length' by (symmetry; exact L). split; [exact Sh|].
      exists [], post. split; [reflexivity|]. cbn. intros k Hk. lia.
    + intros H. destruct (IH _ H) as (Sh & pre & post & -> & Lm). split; [exact Sh|].
      exists (c :: pre), post. split; [reflexivity|].
      intros [|k] Hk; cbn; [exact E|]. apply Lm. cbn in Hk. lia.
Qed.

Lemma match_uuid_none (l : list ascii) :
  match_uuid l = None -> forall k, uuid_here (drop k l) = false.
Proof.
  induction l as [|c l IH]; cbn [match_uuid].
  - destruct (uuid_here []) eqn:E; [discriminate|]. intros _ k. now rewrite drop_nil.
  - destruct (uuid_here (c :: l)) eqn:E; [discriminate|].
    intros H [|k]; cbn; [exact E|]. now apply IH.
Qed.


Lemma first_some_none {A B} (f : A -> option B) (l : list A) :
  first_some f l = None <-> Forall (fun x => f x = None) l.
Proof.
  induction l as [|x r IH]; cbn.
  - split; [constructor | reflexivity].
  - destruct (f x) eqn:E.
    + split; [discriminate | intros H; inversion H; congruence].
    + rewrite IH. split; [now constructor | intros H; now inversion H].
Qed.

Lemma match_uuid_none_iff (l : list ascii) :
  match_uuid l = None <-> ~ has_uuid l.
Proof.
  split.
  - intros H (pre & cs & post & -> & Sh).
    pose proof (match_uuid_none _ H (length pre)) as N.
    rewrite drop_app_length in N.
    assert (uuid_here (cs ++ post) = true) by (apply uuid_here_spec; eauto).
    congruence.
  - intros N. destruct (match_uuid l) as [u|] eqn:E; [|reflexivity].
    exfalso. apply N.
    apply match_uuid_spec in E as (Sh & pre & post & Hl & _).
    exists pre, (Str.chars u), post. auto.
Qed.











(** With an uneventful agent the loop runs every iteration number that
    is left, and the last pass marks the record. *)
Lemma run_uneventful a its s h w c w' :
  run env a its s h w c w' ->
  uneventful env a ->
  forall k,
    sigintReceived w = false ->
    h = history s ->
    its = seq (S (iteration s)) (S k) ->
    iteration s + S k = maxIterations a ->
    exists s' sp new,
      c = Normal s'
      /\ status s' = stopped_max_iterations
      /\ iteration s' = maxIterations a
      /\ spawned (trace w') = sp ++ spawned (trace w) /\ length sp = S k
      /\ history s' = h ++ new /\ length new = S k
      /\ Forall (fun rec => it_detected_promise rec = false) new.
Proof.
  intros R U.
  induction R as [s h w | i later s h w s1 h1 w1 c w2 O R IH
                 | i later s h w flow s1 h1 w1 O Hf | i later s h w z w1 O];
    intros k Hs Hh Hk Hm; try discriminate;
    destruct (U i s w) as (code & out & err & fs' & Rp & Sid & Det & Chk);
    injection Hk as Hi Hl.
  - (* the pass falls through to the next iteration *)
    assert (exists rec args,
               h1 = h ++ [rec] /\ history s1 = h1 /\ iteration s1 = i
               /\ it_detected_promise rec = false
               /\ (maxIterations a <=? i)%nat = false
               /\ sigintReceived w1 = false
               /\ spawned (trace w1) = [args] ++ spawned (trace w)) as
        (rec & args & -> & Hh1 & Hi1 & Hr & Hlt & Hs1 & Hp).
    { inversion O; subst;
      repeat match goal with
             | H : concluded _ _ _ _ _ _ _ _ _ _ |- _ =>
                 destruct H as (? & ? & ? & ? & ? & ?)
             | H : effects _ _ _ _ _ _ _ |- _ => destruct H as (_ & ? & _ & _ & _)
             end; same_response Rp; try congruence;
      read_views; do 2 eexists; repeat apply conj; eauto; congruence. }
    apply Nat.leb_gt in Hlt.
    destruct k as [|k]; [lia|].
    destruct (IH k Hs1 (eq_sym Hh1)) as (s' & sp & new & Hc & St & It & Sp & Lp & Hn & Ln & Fn).
    + rewrite Hi1, Hi. exact Hl.
    + lia.
    + exists s', (sp ++ [args]), (rec :: new).
      split; [exact Hc|]. split; [exact St|]. split; [exact It|].
      split; [now rewrite Sp, Hp, app_assoc|].
      split; [rewrite length_app; cbn; lia|].
      split; [now rewrite Hn, <- app_assoc|].
      split; [cbn; lia|]. constructor; assumption.
  - (* the pass leaves the loop *)
    inversion O; subst;
    repeat match goal with
           | H : concluded _ _ _ _ _ _ _ _ _ _ |- _ =>
               destruct H as (? & ? & ? & ? & ? & ?)
           | H : effects _ _ _ _ _ _ _ |- _ => destruct H as (_ & ? & _ & _ & _)
           end; same_response Rp; try congruence; read_views.
    all: match goal with
         | Hle : (_ <=? _)%nat = true |- _ => apply Nat.leb_le in Hle
         end.
    all: assert (k = 0) by lia; subst k.
    all: match goal with
         | Hr : it_detected_promise ?rec = false |- _ =>
             eexists _, _, [rec]; split; [reflexivity|]
         end.
    all: split; [congruence|]. all: split; [lia|].
    all: split; [eassumption|]. all: split; [reflexivity|].
    all: split; [congruence|]. all: split; [reflexivity|].
    all: constructor; [assumption | constructor].
  - (* no pass is interrupted *)
    exfalso. inversion O; subst;
    repeat match goal with
           | H : concluded _ _ _ _ _ _ _ _ _ _ |- _ =>
               destruct H as (? & ? & ? & ? & ? & ?)
           end; same_response Rp; congruence.
Qed.

(* ===================================================================== *)
(** ** The properties of the specification *)
(* ===================================================================== *)

(** C1.  Completion is tested before the checkpoint: when an iteration
    reaches the test of the final message, the message satisfies the
    completion promise and the checkpoint file holds the sentinel, the
    pass leaves the loop with status [completed].  The record is saved
    twice in the pass, as [running] and as [completed], never as
    [paused_hard_stop], and no question is asked.  The pass does not
    set the paused flag: the checkpoint entry of the record, and so the
    flag, is in both saved records as it was before the pass, so that a
    flag that was clear before the pass is clear after it. *)
Theorem completion_precedes_checkpoint a i s h w code out err fs' :
  sigintReceived w = false ->
  respond env a i s w = (Closed code out err, fs') ->
  truthy_opt (session_of s out err) = true ->
  detected (message_of a i out fs') (promiseMode a) (completionPromise a) = true ->
  checkpoint_hit a i out fs' = true ->
  exists rec s1 s2 w',
    loop_body env a i s h w = (Normal (Break, s2, h ++ [rec]), w')
    /\ status s2 = completed
    /\ todo s2 = todo s
    /\ paused_flag s2 = paused_flag s
    /\ (paused_flag s = false -> paused_flag s1 = false /\ paused_flag s2 = false)
    /\ iteration s2 = i
    /\ it_iteration rec = i /\ it_detected_promise rec = true
    /\ disk w' !! statePath a = Some s2
    /\ saved (trace w') = s2 :: s1 :: saved (trace w)
    /\ status s1 = running /\ todo s1 = todo s
    /\ spawned (trace w') = args_of a i s :: spawned (trace w)
    /\ asked (trace w') = asked (trace w).
Proof.
  intros Hs R Hsid Hd _.
  destruct (completed_outcome a i s h w code out err fs' Hs R Hsid Hd)
    as (rec & s1 & s2 & w' & E & St & T2 & It & Ri & Rd & D & Sv & S1 & T1 & Sp & Q).
  exists rec, s1, s2, w'. split; [exact E|]. split; [exact St|]. split; [exact T2|].
  assert (F2 : paused_flag s2 = paused_flag s) by (unfold paused_flag; now rewrite T2).
  assert (F1 : paused_flag s1 = paused_flag s) by (unfold paused_flag; now rewrite T1).
  split; [exact F2|].
  split; [intros F; now rewrite F1, F2|].
  repeat (split; [assumption|]). assumption.
Qed.

(** C4.  When the child process of an iteration cannot be started, or
    fails before it closes, the record is given status [error_spawn] and
    saved, with its iteration counter and history as before the attempt;
    the run ends there, whatever iterations were left, and the failed
    attempt is the only child process of the pass. *)
Theorem spawn_failure_is_terminal a i later s h w message fs' :
  sigintReceived w = false ->
  respond env a i s w = (SpawnError message, fs') ->
  exists s' w',
    for_iterations env a (i :: later) s h w = (Normal s', w')
    /\ loop_body env a i s h w = (Normal (Return, s', h), w')
    /\ status s' = error_spawn
    /\ iteration s' = iteration s
    /\ history s' = history s
    /\ disk w' !! statePath a = Some s'
    /\ saved (trace w') = s' :: saved (trace w)
    /\ spawned (trace w') = args_of a i s :: spawned (trace w).
Proof.
  intros Hs R.
  destruct (spawn_failure_outcome a i s h w message fs' Hs R) as (s' & w' & E & F).
  exists s', w'. split; [|split; [exact E | exact F]].
  eapply for_iterations_stops; [exact E | discriminate].
Qed.

(** C8.  When an iteration reaches the test of the final message, the
    message does not satisfy the completion promise, the checkpoint file
    is configured and holds the sentinel, and the checkpoint mode is
    [exit]: the record is given status [paused_hard_stop], the paused
    flag of its checkpoint entry is set, the record is saved, and the
    run ends there without asking and without a further child
    process. *)
Theorem checkpoint_exit_stops a i later s h w code out err fs' :
  sigintReceived w = false ->
  respond env a i s w = (Closed code out err, fs') ->
  truthy_opt (session_of s out err) = true ->
  detected (message_of a i out fs') (promiseMode a) (completionPromise a) = false ->
  checkpoint_hit a i out fs' = true ->
  hardStopMode a = "exit" ->
  exists rec s1 s2 w',
    for_iterations env a (i :: later) s h w = (Normal s2, w')
    /\ loop_body env a i s h w = (Normal (Break, s2, h ++ [rec]), w')
    /\ status s2 = paused_hard_stop
    /\ todo s2 = todo_with_paused_for_hard_stop true <$> todo s
    /\ (forall t, todo s = Some t ->
                  exists t', todo s2 = Some t' /\ paused_for_hard_stop t' = true)
    /\ iteration s2 = i
    /\ disk w' !! statePath a = Some s2
    /\ saved (trace w') = s2 :: s1 :: saved (trace w)
    /\ spawned (trace w') = args_of a i s :: spawned (trace w)
    /\ asked (trace w') = asked (trace w).
Proof.
  intros Hs R Hsid Hd Hc Hx.
  destruct (hard_stop_exit_outcome a i s h w code out err fs' Hs R Hsid Hd Hc Hx)
    as (rec & s1 & s2 & w' & E & St & Td & F).
  exists rec, s1, s2, w'.
  split; [eapply for_iterations_stops; [exact E | discriminate]|].
  split; [exact E|]. split; [exact St|]. split; [exact Td|].
  split; [|exact F].
  intros t Ht. rewrite Td, Ht. cbn. eauto.
Qed.

(** C10.  A message in which tag-mode detection finds the promise is a
    message in which plain-mode detection finds it. *)
Theorem tag_detection_implies_plain (message : option string) (token : string) (w : World) :
  fst (detectCompletion message "tag" token w) = Normal true ->
  fst (detectCompletion message "plain" token w) = Normal true.
Proof.
  destruct message as [message|]; [|rewrite detect_falsy by reflexivity; discriminate].
  rewrite detect_tag, detect_substring by reflexivity. cbn.
  intros [= H]. apply andb_true_iff in H as [Ht Hi]. rewrite Ht. cbn. f_equal.
  unfold promiseTag in Hi. eapply includes_inner. exact Hi.
Qed.


(** C6.  In every mode and for every token the detector answers [false]
    on an absent and on an empty message; a final-message file that does
    not exist is read as the empty text, without an error; and an
    iteration after whose child process the final-message file is
    missing does not end [completed]: no record is saved as [completed]
    in the pass, and the history entry it pushes, if any, says that the
    promise was not detected. *)
Theorem empty_message_never_completes :
  (forall mode token w, detectCompletion None mode token w = (Normal false, w))
  /\ (forall mode token w,
        detectCompletion (Some EmptyString) mode token w = (Normal false, w))
  /\ (forall p w, files w !! p = None ->
        readFileSafe (Some p) w = (Normal EmptyString, w))
  /\ (forall a i s h w outcome fs' c w',
        sigintReceived w = false ->
        respond env a i s w = (outcome, fs') ->
        (forall code out err, outcome = Closed code out err ->
           stream_files a i out fs' !! lastMessagePathOf a i = None) ->
        loop_body env a i s h w = (c, w') ->
        (forall flow s' h', c = Normal (flow, s', h') ->
           status s' <> completed
           /\ forall rec, h' = h ++ [rec] -> it_detected_promise rec = false)
        /\ exists sv, saved (trace w') = sv ++ saved (trace w)
                      /\ Forall (fun snap => status snap <> completed) sv).
Proof.
  split; [|split; [|split]].
  - intros. now apply detect_falsy.
  - intros. now apply detect_falsy.
  - intros p w H. rewrite readFileSafe_run, file_text_missing by exact H. reflexivity.
  - intros. eapply missing_artifact_outcome; eassumption.
Qed.


(** C3.  A call of [runLoop] on a record whose history has as many
    entries as its iteration counter says: every record saved during the
    call, and the record the call returns, has the history it started
    with as a prefix, followed by one entry per iteration, numbered from
    the stored counter on, and has as many entries as its counter says;
    of two saved records the later one has the history of the earlier
    one as a prefix.  A pass that ends with status [error_spawn] or
    [error_no_session] leaves the counter and the history as they
    were. *)
Theorem history_is_append_only a s w :
  length (history s) = iteration s ->
  (exists sv,
     saved (trace (snd (runLoop env a s w))) = sv ++ saved (trace w)
     /\ Forall (fun snap => continues s snap
                            /\ length (history snap) = iteration snap) sv
     /\ StronglySorted grown_from sv
     /\ (forall s', fst (runLoop env a s w) = Normal s' ->
           continues s s'
           /\ length (history s') = iteration s'
           /\ Forall (grown_from s') sv))
  /\ (forall i h w1 flow s' h' w',
        loop_body env a i s h w1 = (Normal (flow, s', h'), w') ->
        status s' = error_spawn \/ status s' = error_no_session ->
        iteration s' = iteration s /\ history s' = history s /\ h' = h).
Proof.
  intros L. split.
  - destruct (runLoop_continues a s w) as (sv & Hs & F & S & Fin).
    exists sv. split; [exact Hs|]. split; [|split; [exact S|]].
    + eapply List.Forall_impl; [|exact F]. intros x C.
      split; [exact C | eapply continues_length; eassumption].
    + intros s' Hc. destruct (Fin s' Hc) as (C & G).
      split; [exact C|]. split; [eapply continues_length; eassumption | exact G].
  - intros i h w1 flow s' h' w' E St. apply outcome_of in E as O. clear E.
    inversion O; subst;
    repeat match goal with
           | H : concluded _ _ _ _ _ _ _ _ _ _ |- _ =>
               destruct H as (? & ? & ? & ? & ? & ?)
           end;
    read_views; try (destruct St; congruence); auto.
Qed.

(** C7.  A call of [runLoop] that starts below [maxIterations].  When
    every child process closes with a session and a final message that
    does not satisfy the promise, and the checkpoint never fires, the
    call returns with status [stopped_max_iterations] and the counter at
    [maxIterations], after one child process and one history entry for
    each iteration number from the stored counter up to
    [maxIterations].  And whatever the agent does, so ends every call
    that returns with no history entry saying that the promise was
    detected and with a record that is neither in an error status nor
    paused at a checkpoint. *)
Theorem exhaustion_stops_at_max a s w :
  iteration s < maxIterations a ->
  (uneventful env a ->
   exists s' w' sp new,
     runLoop env a s w = (Normal s', w')
     /\ status s' = stopped_max_iterations
     /\ iteration s' = maxIterations a
     /\ spawned (trace w') = sp ++ spawned (trace w)
     /\ length sp = maxIterations a - iteration s
     /\ history s' = history s ++ new
     /\ length new = maxIterations a - iteration s
     /\ Forall (fun rec => it_detected_promise rec = false) new)
  /\ (forall s' w',
        runLoop env a s w = (Normal s', w') ->
        status s' <> error_spawn ->
        status s' <> error_no_session ->
        status s' <> paused_hard_stop ->
        (forall new, history s' = history s ++ new ->
                     Forall (fun rec => it_detected_promise rec = false) new) ->
        status s' = stopped_max_iterations
        /\ iteration s' = maxIterations a
        /\ (exists sp, spawned (trace w') = sp ++ spawned (trace w)
                       /\ length sp = maxIterations a - iteration s)
        /\ (exists new, history s' = history s ++ new
                        /\ length new = maxIterations a - iteration s)).
Proof.
  intros Lt.
  destruct (runLoop_for a s w) as (s0 & w0 & E0 & V & Sg & (_ & Sp & _ & _ & _)).
  apply view_fields in V. cbn in V, Sp.
  destruct V as (_ & Vi & Vh & _).
  pose proof (for_iterations_run a
                (seq (S (iteration s0)) (maxIterations a - iteration s0))
                s0 (history s0) w0) as R.
  rewrite <- E0 in R.
  destruct (maxIterations a - iteration s0) as [|k] eqn:Hk; [lia|].
  rewrite Vi in Hk. rewrite Hk. split.
  - intros U.
    destruct (run_uneventful _ _ _ _ _ _ _ R U k Sg eq_refl eq_refl)
      as (s' & sp & new & Hc & St & It & Hsp & Lsp & Hn & Ln & Fn); [lia|].
    exists s', (snd (runLoop env a s w)), sp, new.
    split; [destruct (runLoop env a s w); cbn in Hc |- *; congruence|].
    repeat (split; [congruence|]). exact Fn.
  - intros s' w' E E1 E2 E3 Hd. rewrite E in R. cbn [fst snd] in R.
    destruct (run_exhausts _ _ _ _ _ _ _ R s' k eq_refl Sg eq_refl eq_refl)
      as (St & It & (sp & Hsp & Lsp) & (new & Hn & Ln)); try assumption; try lia.
    + intros new Hn. apply Hd. congruence.
    + split; [exact St|]. split; [exact It|]. split.
      * exists sp. split; [congruence | exact Lsp].
      * exists new. split; [congruence | exact Ln].
Qed.

(** C9. Resuming a stored record: the record persisted by the resume step
    carries every override that was supplied (a positive iteration
    limit, a non-empty promise or promise mode, the same-prompt switch,
    and the model, profile, sandbox and approval options of the agent);
    its [loop_id], [prompt], session identifier, history and iteration
    counter are those of the stored record.  The loop then runs on that
    record: every record it saves, and the one it returns, has the stored
    history as a prefix with the new entries numbered from the stored
    counter on, and when the counter is below the limit the first child
    process is the one of the next iteration number, started from a
    record with the stored session identifier. *)
Theorem resume_applies_overrides options w p st :
  resolveStatePath env (opt_loopId options) (opt_stateFile options)
    (stateLookupRootOf env options) w = (Normal p, w) ->
  disk w !! p = Some st ->
  exists a st' w1,
    resume_step env options w = (Normal (a, st'), w1)
    /\ handleResume env options w = runLoop env a st' w1
    /\ disk w1 !! p = Some st'
    /\ saved (trace w1) = st' :: saved (trace w)
    /\ spawned (trace w1) = spawned (trace w)
    /\ (forall n, opt_maxIterations options = Some (S n) ->
          max_iterations st' = S n /\ maxIterations a = S n)
    /\ (forall v, opt_completionPromise options = Some v -> v <> EmptyString ->
          completion_promise st' = v /\ completionPromise a = v)
    /\ (forall v, opt_promiseMode options = Some v -> v <> EmptyString ->
          promise_mode st' = v /\ promiseMode a = v)
    /\ (forall v, opt_samePromptEachIteration options = Some v ->
          same_prompt_each_iteration st' = Some v /\ samePromptEachIteration a = v)
    /\ (forall v, opt_model options = Some v -> v <> EmptyString ->
          model (codex st') = Some v /\ co_model (codexOptions a) = Some v)
    /\ (forall v, opt_profile options = Some v -> v <> EmptyString ->
          profile (codex st') = Some v /\ co_profile (codexOptions a) = Some v)
    /\ (forall v, opt_sandbox options = Some v -> v <> EmptyString ->
          sandbox (codex st') = Some v /\ co_sandbox (codexOptions a) = Some v)
    /\ (forall v, opt_askForApproval options = Some v -> v <> EmptyString ->
          approval (codex st') = Some v /\ co_askForApproval (codexOptions a) = Some v)
    /\ (opt_maxIterations options = None -> max_iterations st' = max_iterations st)
    /\ (opt_completionPromise options = None ->
          completion_promise st' = completion_promise st)
    /\ (opt_promiseMode options = None -> promise_mode st' = promise_mode st)
    /\ (opt_samePromptEachIteration options = None ->
          same_prompt_each_iteration st' = same_prompt_each_iteration st)
    /\ loop_id st' = loop_id st
    /\ prompt st' = prompt st
    /\ session_id (codex st') = session_id (codex st)
    /\ history st' = history st
    /\ iteration st' = iteration st
    /\ status st' = status st
    /\ (exists sv,
          saved (trace (snd (handleResume env options w))) = sv ++ st' :: saved (trace w)
          /\ Forall (continues st) sv
          /\ (forall s', fst (handleResume env options w) = Normal s' -> continues st s'))
    /\ (iteration st < max_iterations st' ->
        exists sp s0,
          view s0 = view st
          /\ spawned (trace (snd (handleResume env options w)))
             = sp ++ [args_of a (S (iteration st)) s0] ++ spawned (trace w)).
Proof.
  intros Hp Hd.
  destruct (resume_step_run options w p st Hp Hd)
    as (a & st' & w1 & E & V & Dk & Tr & Pa & Ma & Ca & Pm & Sa
        & Mx & Cp & Pr & Sp & Mo & Pf & Sb & Ap & Co).
  assert (HR : handleResume env options w = runLoop env a st' w1).
  { unfold handleResume. now rewrite (bind_normal _ _ w w1 (a, st') E). }
  exists a, st', w1. pose proof V as V'. apply view_fields in V'. cbn in V'.
  destruct V' as (Vs & Vi & Vh & _ & Vc & Vl & Vp).
  split; [exact E|]. split; [exact HR|].
  split; [rewrite Dk; first [apply lookup_insert_eq | apply lookup_insert]|].
  split; [now rewrite Tr|]. split; [now rewrite Tr|].
  split; [intros n H; rewrite Ma, Mx, H; now cbn|].
  split; [intros v H Hv; rewrite Ca, Cp, H; cbn; now rewrite truthy_nonempty|].
  split; [intros v H Hv; rewrite Pm, Pr, H; cbn; now rewrite truthy_nonempty|].
  split; [intros v H; rewrite Sa, Sp, H; now cbn|].
  split; [intros v H Hv; rewrite Mo, Co; cbn; rewrite H, !or_s_some; auto|].
  split; [intros v H Hv; rewrite Pf, Co; cbn; rewrite H, !or_s_some; auto|].
  split; [intros v H Hv; rewrite Sb, Co; cbn; rewrite H, !or_s_some; auto|].
  split; [intros v H Hv; rewrite Ap, Co; cbn; rewrite H, !or_s_some; auto|].
  split; [intros H; rewrite Mx, H; now cbn|].
  split; [intros H; rewrite Cp, H; now cbn|].
  split; [intros H; rewrite Pr, H; now cbn|].
  split; [intros H; rewrite Sp, H; now cbn|].
  repeat (split; [assumption|]).
  rewrite HR. split.
  - destruct (runLoop_continues a st' w1) as (sv & Hs & F & _ & Fin).
    exists sv. rewrite Hs, Tr. split; [reflexivity|]. split.
    + eapply List.Forall_impl; [|exact F]. intros x. exact (continues_view st' st x V).
    + intros s' Hc. destruct (Fin s' Hc) as (C & _).
      exact (continues_view st' st s' V C).
  - intros Lt.
    destruct (runLoop_for a st' w1) as (s0 & w0 & E0 & V0 & Sg & (_ & Sp0 & _)).
    rewrite E0.
    pose proof (for_iterations_run a
                  (seq (S (iteration s0)) (maxIterations a - iteration s0))
                  s0 (history s0) w0) as R.
    assert (Hi : iteration s0 = iteration st).
    { apply view_fields in V0. cbn in V0. destruct V0 as (_ & -> & _). exact Vi. }
    rewrite Hi in *. rewrite Ma in *.
    destruct (max_iterations st' - iteration st) as [|k] eqn:Hk; [lia|].
    cbn [seq] in R |- *.
    destruct (run_first_spawn _ _ _ _ _ _ _ _ R Sg) as (sp & Hsp).
    exists sp, s0. split; [now rewrite V0|].
    rewrite Hsp. cbn in Sp0. now rewrite Sp0, Tr.
Qed.


(* ===================================================================== *)
(** ** Further properties of the loop *)
(* ===================================================================== *)

Ltac pass_of a i s h w R :=
  let c := fresh "c" in
  let w' := fresh "w'" in
  let E := fresh "E" in
  let O := fresh "O" in
  destruct (loop_body env a i s h w) as [c w'] eqn:E;
  apply outcome_of in E as O; clear E;
  open_outcome O c w'; same_response R; try congruence.

Lemma for_iterations_goes_on a i later s h w s1 h1 w1 :
  loop_body env a i s h w = (Normal (Next, s1, h1), w1) ->
  for_iterations env a (i :: later) s h w = for_iterations env a later s1 h1 w1.
Proof.
  intros E. cbn [for_iterations]. now rewrite (bind_normal _ _ _ _ _ E).
Qed.

Lemma for_iterations_exits a i later s h w z w1 :
  loop_body env a i s h w = (Exit z, w1) ->
  for_iterations env a (i :: later) s h w = (Exit z, w1).
Proof.
  intros E. cbn [for_iterations]. now rewrite (bind_exit _ _ _ _ _ E).
Qed.

(** A pass in which nothing stops the loop. *)
Lemma went_on_outcome a i s h w code out err fs' :
  sigintReceived w = false ->
  respond env a i s w = (Closed code out err, fs') ->
  truthy_opt (session_of s out err) = true ->
  detected (message_of a i out fs') (promiseMode a) (completionPromise a) = false ->
  checkpoint_hit a i out fs' = false ->
  (maxIterations a <=? i)%nat = false ->
  exists rec s1 w',
    loop_body env a i s h w = (Normal (Next, s1, h ++ [rec]), w')
    /\ it_iteration rec = i /\ it_exit_code rec = code /\ it_detected_promise rec = false
    /\ view s1 = booked_view i s h rec (session_of s out err)
    /\ disk w' !! statePath a = Some s1
    /\ saved (trace w') = s1 :: saved (trace w)
    /\ spawned (trace w') = args_of a i s :: spawned (trace w)
    /\ asked (trace w') = asked (trace w)
    /\ files w' = stream_files a i out fs'
    /\ sigintReceived w' = false.
Proof.
  intros Hs R Hsid Hd Hc Hm.
  pass_of a i s h w R.
  read_effects.
  do 3 eexists. split; [reflexivity|].
  repeat apply conj; try eassumption; try congruence.
Qed.

(** X1.  When the child process of an iteration closes and no session
    identifier can be found, neither in its output nor in the record,
    the record is given status [error_no_session] and saved, with its
    counter, history and session field as before; the final message is
    not looked at, and the run ends there. *)
Theorem missing_session_is_terminal a i later s h w code out err fs' :
  sigintReceived w = false ->
  respond env a i s w = (Closed code out err, fs') ->
  truthy_opt (session_of s out err) = false ->
  exists s' w',
    for_iterations env a (i :: later) s h w = (Normal s', w')
    /\ loop_body env a i s h w = (Normal (Return, s', h), w')
    /\ status s' = error_no_session
    /\ iteration s' = iteration s
    /\ history s' = history s
    /\ session_id (codex s') = session_id (codex s)
    /\ disk w' !! statePath a = Some s'
    /\ saved (trace w') = s' :: saved (trace w)
    /\ spawned (trace w') = args_of a i s :: spawned (trace w)
    /\ asked (trace w') = asked (trace w).
Proof.
  intros Hs R Hsid.
  assert (exists s' w',
             loop_body env a i s h w = (Normal (Return, s', h), w')
             /\ status s' = error_no_session
             /\ iteration s' = iteration s
             /\ history s' = history s
             /\ session_id (codex s') = session_id (codex s)
             /\ disk w' !! statePath a = Some s'
             /\ saved (trace w') = s' :: saved (trace w)
             /\ spawned (trace w') = args_of a i s :: spawned (trace w)
             /\ asked (trace w') = asked (trace w)) as (s' & w' & E & F).
  { pass_of a i s h w R. read_effects. read_views. eauto 12. }
  exists s', w'. split; [|split; [exact E | exact F]].
  eapply for_iterations_stops; [exact E | discriminate].
Qed.

(** X2.  When the user interrupts while the child process of an
    iteration runs, the record is saved once with status
    [paused_user_interrupt], its counter and history as before the
    iteration, and the program exits with code 1: the rest of the loop
    is not run. *)
Theorem interrupt_pauses_and_exits a i later s h w fs' :
  sigintReceived w = false ->
  respond env a i s w = (Sigint, fs') ->
  exists snap w',
    for_iterations env a (i :: later) s h w = (Exit 1, w')
    /\ status snap = paused_user_interrupt
    /\ iteration snap = iteration s
    /\ history snap = history s
    /\ session_id (codex snap) = session_id (codex s)
    /\ disk w' !! statePath a = Some snap
    /\ saved (trace w') = snap :: saved (trace w)
    /\ spawned (trace w') = args_of a i s :: spawned (trace w).
Proof.
  intros Hs R.
  assert (exists snap w',
             loop_body env a i s h w = (Exit 1, w')
             /\ status snap = paused_user_interrupt
             /\ iteration snap = iteration s
             /\ history snap = history s
             /\ session_id (codex snap) = session_id (codex s)
             /\ disk w' !! statePath a = Some snap
             /\ saved (trace w') = snap :: saved (trace w)
             /\ spawned (trace w') = args_of a i s :: spawned (trace w))
    as (snap & w' & E & F).
  { pass_of a i s h w R. read_effects. read_views. eauto 12. }
  exists snap, w'. split; [|exact F].
  now apply for_iterations_exits.
Qed.

(** X3.  In a checkpoint mode other than [exit], an iteration that does
    not satisfy the promise and finds the sentinel asks the user once;
    on any reply that is not a yes the record stays as saved before the
    question, with status [paused_hard_stop] and the paused flag set,
    and the run ends without a further child process. *)
Theorem checkpoint_pause_declined a i later s h w code out err fs' resp :
  sigintReceived w = false ->
  respond env a i s w = (Closed code out err, fs') ->
  truthy_opt (session_of s out err) = true ->
  detected (message_of a i out fs') (promiseMode a) (completionPromise a) = false ->
  checkpoint_hit a i out fs' = true ->
  hardStopMode a <> "exit" ->
  reply env w = Typed resp ->
  says_yes resp = false ->
  exists rec s1 s2 q w',
    for_iterations env a (i :: later) s h w = (Normal s2, w')
    /\ status s2 = paused_hard_stop
    /\ todo s2 = todo_with_paused_for_hard_stop true <$> todo s
    /\ iteration s2 = i
    /\ history s2 = h ++ [rec]
    /\ disk w' !! statePath a = Some s2
    /\ saved (trace w') = s2 :: s1 :: saved (trace w)
    /\ status s1 = running
    /\ spawned (trace w') = args_of a i s :: spawned (trace w)
    /\ asked (trace w') = q :: asked (trace w).
Proof.
  intros Hs R Hsid Hd Hc Hx Hr Hy.
  assert (exists rec s1 s2 q w',
             loop_body env a i s h w = (Normal (Break, s2, h ++ [rec]), w')
             /\ status s2 = paused_hard_stop
             /\ todo s2 = todo_with_paused_for_hard_stop true <$> todo s
             /\ iteration s2 = i
             /\ history s2 = h ++ [rec]
             /\ disk w' !! statePath a = Some s2
             /\ saved (trace w') = s2 :: s1 :: saved (trace w)
             /\ status s1 = running
             /\ spawned (trace w') = args_of a i s :: spawned (trace w)
             /\ asked (trace w') = q :: asked (trace w))
    as (rec & s1 & s2 & q & w' & E & F).
  { pass_of a i s h w R. read_effects. read_views.
    do 5 eexists. split; [reflexivity|].
    repeat apply conj; try eassumption; try congruence. }
  exists rec, s1, s2, q, w'. split; [|exact F].
  eapply for_iterations_stops; [exact E | discriminate].
Qed.

(** X4.  In a checkpoint mode other than [exit], when the user answers
    yes at the checkpoint, the paused flag is cleared again and the
    record is saved with status [running]; before the last iteration
    number the loop goes on with the next one, and at the last one it
    ends with status [stopped_max_iterations]. *)
Theorem checkpoint_pause_accepted a i later s h w code out err fs' resp :
  sigintReceived w = false ->
  respond env a i s w = (Closed code out err, fs') ->
  truthy_opt (session_of s out err) = true ->
  detected (message_of a i out fs') (promiseMode a) (completionPromise a) = false ->
  checkpoint_hit a i out fs' = true ->
  hardStopMode a <> "exit" ->
  reply env w = Typed resp ->
  says_yes resp = true ->
  ((maxIterations a <=? i)%nat = false ->
   exists rec s1 s2 s3 q w',
     for_iterations env a (i :: later) s h w
     = for_iterations env a later s3 (h ++ [rec]) w'
     /\ status s3 = running
     /\ todo s3 = todo_with_paused_for_hard_stop false <$> todo s
     /\ iteration s3 = i
     /\ history s3 = h ++ [rec]
     /\ disk w' !! statePath a = Some s3
     /\ saved (trace w') = s3 :: s2 :: s1 :: saved (trace w)
     /\ status s2 = paused_hard_stop
     /\ todo s2 = todo_with_paused_for_hard_stop true <$> todo s
     /\ asked (trace w') = q :: asked (trace w)
     /\ sigintReceived w' = false)
  /\ ((maxIterations a <=? i)%nat = true ->
      exists rec s1 s2 s3 s4 q w',
        for_iterations env a (i :: later) s h w = (Normal s4, w')
        /\ status s4 = stopped_max_iterations
        /\ todo s4 = todo_with_paused_for_hard_stop false <$> todo s
        /\ iteration s4 = i
        /\ history s4 = h ++ [rec]
        /\ disk w' !! statePath a = Some s4
        /\ saved (trace w') = s4 :: s3 :: s2 :: s1 :: saved (trace w)
        /\ asked (trace w') = q :: asked (trace w)).
Proof.
  intros Hs R Hsid Hd Hc Hx Hr Hy. split; intros Hm.
  - assert (exists rec s1 s2 s3 q w',
               loop_body env a i s h w = (Normal (Next, s3, h ++ [rec]), w')
               /\ status s3 = running
               /\ todo s3 = todo_with_paused_for_hard_stop false <$> todo s
               /\ iteration s3 = i
               /\ history s3 = h ++ [rec]
               /\ disk w' !! statePath a = Some s3
               /\ saved (trace w') = s3 :: s2 :: s1 :: saved (trace w)
               /\ status s2 = paused_hard_stop
               /\ todo s2 = todo_with_paused_for_hard_stop true <$> todo s
               /\ asked (trace w') = q :: asked (trace w)
               /\ sigintReceived w' = false)
      as (rec & s1 & s2 & s3 & q & w' & E & F).
    { pass_of a i s h w R. read_effects. read_views.
      do 6 eexists. split; [reflexivity|].
      repeat apply conj; try eassumption; try congruence. }
    exists rec, s1, s2, s3, q, w'. split; [|exact F].
    now apply for_iterations_goes_on.
  - assert (exists rec s1 s2 s3 s4 q w',
               loop_body env a i s h w = (Normal (Break, s4, h ++ [rec]), w')
               /\ status s4 = stopped_max_iterations
               /\ todo s4 = todo_with_paused_for_hard_stop false <$> todo s
               /\ iteration s4 = i
               /\ history s4 = h ++ [rec]
               /\ disk w' !! statePath a = Some s4
               /\ saved (trace w') = s4 :: s3 :: s2 :: s1 :: saved (trace w)
               /\ asked (trace w') = q :: asked (trace w))
      as (rec & s1 & s2 & s3 & s4 & q & w' & E & F).
    { pass_of a i s h w R. read_effects. read_views.
      do 7 eexists. split; [reflexivity|].
      repeat apply conj; try eassumption; try congruence. }
    exists rec, s1, s2, s3, s4, q, w'. split; [|exact F].
    eapply for_iterations_stops; [exact E | discriminate].
Qed.

(** X5.  When a SIGINT reaches the program while it waits for the answer
    at the checkpoint, the iteration stays counted: the record is saved
    with status [paused_user_interrupt], the counter at the iteration,
    the new history entry and the paused flag set, and the program
    exits with code 1. *)
Theorem interrupt_at_checkpoint_question a i later s h w code out err fs' :
  sigintReceived w = false ->
  respond env a i s w = (Closed code out err, fs') ->
  truthy_opt (session_of s out err) = true ->
  detected (message_of a i out fs') (promiseMode a) (completionPromise a) = false ->
  checkpoint_hit a i out fs' = true ->
  hardStopMode a <> "exit" ->
  reply env w = CtrlC ->
  exists rec snap w',
    for_iterations env a (i :: later) s h w = (Exit 1, w')
    /\ status snap = paused_user_interrupt
    /\ todo snap = todo_with_paused_for_hard_stop true <$> todo s
    /\ iteration snap = i
    /\ history snap = h ++ [rec]
    /\ it_iteration rec = i
    /\ disk w' !! statePath a = Some snap
    /\ (exists earlier, saved (trace w') = snap :: earlier ++ saved (trace w))
    /\ spawned (trace w') = args_of a i s :: spawned (trace w).
Proof.
  intros Hs R Hsid Hd Hc Hx Hr.
  assert (exists rec snap w',
             loop_body env a i s h w = (Exit 1, w')
             /\ status snap = paused_user_interrupt
             /\ todo snap = todo_with_paused_for_hard_stop true <$> todo s
             /\ iteration snap = i
             /\ history snap = h ++ [rec]
             /\ it_iteration rec = i
             /\ disk w' !! statePath a = Some snap
             /\ (exists earlier, saved (trace w') = snap :: earlier ++ saved (trace w))
             /\ spawned (trace w') = args_of a i s :: spawned (trace w))
    as (rec & snap & w' & E & F).
  { pass_of a i s h w R. read_effects. read_views.
    do 3 eexists. split; [reflexivity|].
    repeat apply conj; try eassumption; try congruence.
    eexists [_; _]. cbn. eassumption. }
  exists rec, snap, w'. split; [|exact F].
  now apply for_iterations_exits.
Qed.

(** X6.  An iteration whose child process closes with a session, whose
    final message does not satisfy the promise and after which the
    checkpoint does not fire goes on to the next iteration number,
    whatever the exit code of the child: the code is written into the
    history entry and decides nothing.  The record is saved once, with
    status [running], the counter at the iteration and the session
    identifier that was resolved. *)
Theorem exit_code_is_only_recorded a i later s h w code out err fs' :
  sigintReceived w = false ->
  respond env a i s w = (Closed code out err, fs') ->
  truthy_opt (session_of s out err) = true ->
  detected (message_of a i out fs') (promiseMode a) (completionPromise a) = false ->
  checkpoint_hit a i out fs' = false ->
  (maxIterations a <=? i)%nat = false ->
  exists rec s1 w',
    for_iterations env a (i :: later) s h w
    = for_iterations env a later s1 (h ++ [rec]) w'
    /\ it_iteration rec = i
    /\ it_exit_code rec = code
    /\ it_detected_promise rec = false
    /\ status s1 = running
    /\ iteration s1 = i
    /\ history s1 = h ++ [rec]
    /\ session_id (codex s1) = session_of s out err
    /\ disk w' !! statePath a = Some s1
    /\ saved (trace w') = s1 :: saved (trace w)
    /\ spawned (trace w') = args_of a i s :: spawned (trace w)
    /\ asked (trace w') = asked (trace w).
Proof.
  intros Hs R Hsid Hd Hc Hm.
  destruct (went_on_outcome a i s h w code out err fs' Hs R Hsid Hd Hc Hm)
    as (rec & s1 & w' & E & Hi & He & Hp & V & D & Sv & Sp & Ak & _ & _).
  read_views.
  exists rec, s1, w'. split; [now apply for_iterations_goes_on|].
  repeat apply conj; try eassumption; try congruence.
Qed.

Lemma prompt_truthy a j s : Str.truthy (promptOf a j s) = true.
Proof.
  unfold promptOf.
  destruct (is_nullish (session_id (codex s)) || samePromptEachIteration a); reflexivity.
Qed.

(** X7.  The session is carried from one iteration to the next.  A record
    without a session identifier starts its child process as
    [exec <full prompt>].  After an iteration that goes on, the record
    holds the session identifier resolved from the output of its child,
    and the next child process is started as [exec resume <session>
    <prompt>], with the short continuation prompt, or with the full
    prompt in same-prompt mode. *)
Theorem session_is_resumed a i j s h w code out err fs' :
  sigintReceived w = false ->
  respond env a i s w = (Closed code out err, fs') ->
  truthy_opt (session_of s out err) = true ->
  detected (message_of a i out fs') (promiseMode a) (completionPromise a) = false ->
  checkpoint_hit a i out fs' = false ->
  (maxIterations a <=? i)%nat = false ->
  (session_id (codex s) = None ->
   exists rest,
     args_of a i s
     = JStr "exec"
       :: JStr (buildPromptTemplate (loop_id s) i (maxIterations a) (promiseMode a)
                  (completionPromise a) (prompt s) (todoFile a) (hardStopToken a))
       :: JStr "--output-last-message" :: JStr (lastMessagePathOf a i) :: JStr "--json"
       :: rest)
  /\ exists rec s1 w' sid rest,
       loop_body env a i s h w = (Normal (Next, s1, h ++ [rec]), w')
       /\ session_of s out err = Some sid
       /\ session_id (codex s1) = Some sid
       /\ args_of a j s1
          = JStr "exec" :: JStr "resume" :: sid :: JStr (promptOf a j s1)
            :: JStr "--output-last-message" :: JStr (lastMessagePathOf a j) :: JStr "--json"
            :: rest
       /\ promptOf a j s1
          = if samePromptEachIteration a
            then buildPromptTemplate (loop_id s) j (maxIterations a) (promiseMode a)
                   (completionPromise a) (prompt s) (todoFile a) (hardStopToken a)
            else buildContinuePrompt (loop_id s) j (maxIterations a) (promiseMode a)
                   (completionPromise a).
Proof.
  intros Hs R Hsid Hd Hc Hm. split.
  - intros Hn. unfold args_of, codex_args, promptOf. rewrite Hn. cbn.
    eexists. reflexivity.
  - destruct (went_on_outcome a i s h w code out err fs' Hs R Hsid Hd Hc Hm)
      as (rec & s1 & w' & E & _ & _ & _ & V & _).
    read_views.
    destruct (session_of s out err) as [sid|] eqn:Sid; [|discriminate].
    exists rec, s1, w', sid. eexists.
    split; [exact E|]. split; [reflexivity|]. split; [assumption|].
    assert (Hp : promptOf a j s1
                 = if samePromptEachIteration a
                   then buildPromptTemplate (loop_id s) j (maxIterations a) (promiseMode a)
                          (completionPromise a) (prompt s) (todoFile a) (hardStopToken a)
                   else buildContinuePrompt (loop_id s) j (maxIterations a) (promiseMode a)
                          (completionPromise a)).
    { unfold promptOf.
      replace (session_id (codex s1)) with (Some sid) by congruence.
      replace (loop_id s1) with (loop_id s) by congruence.
      replace (prompt s1) with (prompt s) by congruence.
      destruct sid; cbn in Hsid; try discriminate;
        destruct (samePromptEachIteration a); reflexivity. }
    split; [|exact Hp].
    unfold args_of, codex_args.
    replace (session_id (codex s1)) with (Some sid) by congruence.
    rewrite Hsid, prompt_truthy. cbn. reflexivity.
Qed.

(** *** What a whole run leaves *)

(** A pass that returns has saved the record it returns last. *)
Lemma outcome_saved a i s h w flow s1 h1 w1 :
  outcome env a i s h w (Normal (flow, s1, h1)) w1 ->
  sigintReceived w = false ->
  (exists sv, saved (trace w1) = s1 :: sv ++ saved (trace w))
  /\ sigintReceived w1 = false.
Proof.
  intros O Hs. inversion O; subst; try congruence;
  repeat match goal with
         | H : effects _ _ _ _ _ _ _ |- _ => destruct H as (_ & _ & H & _ & _)
         end;
  (split; [|assumption]); eexists; eassumption.
Qed.

Lemma run_saved a its s h w c w' :
  run env a its s h w c w' ->
  forall s' base,
    c = Normal s' ->
    sigintReceived w = false ->
    (exists sv, saved (trace w) = sv ++ base) ->
    (its = [] -> exists sv, saved (trace w) = s :: sv ++ base) ->
    exists sv, saved (trace w') = s' :: sv ++ base.
Proof.
  induction 1 as [s h w | i later s h w s1 h1 w1 c w2 O R IH
                 | i later s h w flow s1 h1 w1 O Hf | i later s h w z w1 O];
    intros s' base Hc Hs (sv0 & Hb) Hd; try discriminate.
  - injection Hc as <-. now apply Hd.
  - destruct (outcome_saved _ _ _ _ _ _ _ _ _ O Hs) as ((sv1 & S1) & Sg).
    apply (IH s' base Hc Sg).
    + exists (s1 :: sv1 ++ sv0). rewrite S1, Hb. cbn [app]. now rewrite app_assoc.
    + intros _. exists (sv1 ++ sv0). now rewrite S1, Hb, app_assoc.
  - injection Hc as <-.
    destruct (outcome_saved _ _ _ _ _ _ _ _ _ O Hs) as ((sv1 & S1) & _).
    exists (sv1 ++ sv0). now rewrite S1, Hb, app_assoc.
Qed.

(** X8.  What [runLoop] returns is what it saved last: when at least
    one iteration number is left and the call returns, the newest
    record the call saved is the record as it is at the return, so that
    no change made by the loop is left unsaved. *)
Theorem returned_record_is_saved a s w s' w' :
  iteration s < maxIterations a ->
  runLoop env a s w = (Normal s', w') ->
  exists sv, saved (trace w') = s' :: sv ++ saved (trace w).
Proof.
  intros Lt E.
  destruct (runLoop_for a s w) as (s0 & w0 & E0 & V & Sg & (_ & _ & Sv & _ & _)).
  apply view_fields in V. cbn in V, Sv. destruct V as (_ & Vi & _).
  pose proof (for_iterations_run a
                (seq (S (iteration s0)) (maxIterations a - iteration s0))
                s0 (history s0) w0) as R.
  rewrite <- E0, E in R. cbn [fst snd] in R.
  apply (run_saved _ _ _ _ _ _ _ R s' (saved (trace w)) eq_refl Sg).
  - exists []. exact Sv.
  - destruct (maxIterations a - iteration s0) eqn:Hk; [lia | discriminate].
Qed.

Ltac forall_counter :=
  repeat match goal with
         | |- Forall _ (_ :: _) => constructor; [first [left; congruence | right; congruence]|]
         | |- Forall _ [] => constructor
         end.

(** One pass starts at most one child process, and every record it
    saves has the counter at the iteration number of the pass or as it
    was. *)
Lemma outcome_bounded a i s h w c w' :
  outcome env a i s h w c w' ->
  exists sp sv,
    spawned (trace w') = sp ++ spawned (trace w)
    /\ length sp <= 1
    /\ saved (trace w') = sv ++ saved (trace w)
    /\ Forall (fun snap => iteration snap = i \/ iteration snap = iteration s) sv
    /\ (forall flow s1 h1, c = Normal (flow, s1, h1) ->
          iteration s1 = i \/ iteration s1 = iteration s).
Proof.
  intros O.
  inversion O; subst c; try subst w';
  repeat match goal with
         | H : concluded _ _ _ _ _ _ _ _ _ _ |- _ =>
             destruct H as (? & ? & ? & ? & ? & ?)
         | H : effects _ _ _ _ _ _ _ |- _ =>
             destruct H as (_ & ? & ? & _ & _)
         end;
  read_views.
  1: { exists [], []. repeat apply conj; [reflexivity | cbn; lia | reflexivity | constructor |].
       intros ? ? ? [= <- <- <-]. now right. }
  all: eexists _, _; (split; [eassumption|]); (split; [cbn; lia|]);
       (split; [eassumption|]); (split; [forall_counter|]);
       first [ solve [intros ? ? ? ?; discriminate]
             | intros ? ? ? [= <- <- <-]; first [left; congruence | right; congruence] ].
Qed.

Lemma run_bounded a its s h w c w' :
  run env a its s h w c w' ->
  forall m,
    Forall (fun i => i <= m) its ->
    exists sp sv,
      spawned (trace w') = sp ++ spawned (trace w)
      /\ length sp <= length its
      /\ saved (trace w') = sv ++ saved (trace w)
      /\ Forall (fun snap => iteration snap <= m \/ iteration snap = iteration s) sv
      /\ (forall s', c = Normal s' ->
            iteration s' <= m \/ iteration s' = iteration s).
Proof.
  induction 1 as [s h w | i later s h w s1 h1 w1 c w2 O R IH
                 | i later s h w flow s1 h1 w1 O Hf | i later s h w z w1 O];
    intros m Hm.
  - exists [], []. repeat apply conj; [reflexivity | cbn; lia | reflexivity | constructor |].
    intros ? [= <-]. now right.
  - inversion Hm as [|? ? Hi Hl]; subst.
    destruct (outcome_bounded _ _ _ _ _ _ _ O) as (sp1 & sv1 & Sp1 & L1 & Sv1 & F1 & N1).
    destruct (IH m Hl) as (sp2 & sv2 & Sp2 & L2 & Sv2 & F2 & N2).
    assert (B1 : iteration s1 <= m \/ iteration s1 = iteration s).
    { destruct (N1 _ _ _ eq_refl) as [->| ->]; auto. }
    exists (sp2 ++ sp1), (sv2 ++ sv1).
    split; [now rewrite Sp2, Sp1, app_assoc|].
    split; [rewrite length_app; cbn; lia|].
    split; [now rewrite Sv2, Sv1, app_assoc|].
    split.
    + apply List.Forall_app. split.
      * eapply List.Forall_impl; [|exact F2]. cbn. intros x [Hx|Hx]; [now left|].
        rewrite Hx. exact B1.
      * eapply List.Forall_impl; [|exact F1]. cbn. intros x [Hx|Hx]; [left; lia | now right].
    + intros s' Hc. destruct (N2 s' Hc) as [Hx|Hx]; [now left|].
      rewrite Hx. exact B1.
  - inversion Hm as [|? ? Hi Hl]; subst.
    destruct (outcome_bounded _ _ _ _ _ _ _ O) as (sp1 & sv1 & Sp1 & L1 & Sv1 & F1 & N1).
    exists sp1, sv1.
    split; [exact Sp1|]. split; [cbn; lia|]. split; [exact Sv1|]. split.
    + eapply List.Forall_impl; [|exact F1]. cbn. intros x [Hx|Hx]; [left; lia | now right].
    + intros s' [= <-]. destruct (N1 _ _ _ eq_refl) as [Hx|Hx]; [left; lia | now right].
  - inversion Hm as [|? ? Hi Hl]; subst.
    destruct (outcome_bounded _ _ _ _ _ _ _ O) as (sp1 & sv1 & Sp1 & L1 & Sv1 & F1 & N1).
    exists sp1, sv1.
    split; [exact Sp1|]. split; [cbn; lia|]. split; [exact Sv1|]. split.
    + eapply List.Forall_impl; [|exact F1]. cbn. intros x [Hx|Hx]; [left; lia | now right].
    + intros s' [=].
Qed.

(** X9.  The iteration limit holds: a call of [runLoop] starts at most
    [maxIterations - iteration] child processes, none at all when the
    counter of the record has reached the limit, and no record it saves
    or returns has a counter above the limit, unless the counter was
    above it from the start and is left there. *)
Theorem iteration_limit_holds a s w :
  exists sp sv,
    spawned (trace (snd (runLoop env a s w))) = sp ++ spawned (trace w)
    /\ length sp <= maxIterations a - iteration s
    /\ saved (trace (snd (runLoop env a s w))) = sv ++ saved (trace w)
    /\ Forall (fun snap => iteration snap <= maxIterations a
                           \/ iteration snap = iteration s) sv
    /\ (forall s', fst (runLoop env a s w) = Normal s' ->
          iteration s' <= maxIterations a \/ iteration s' = iteration s).
Proof.
  destruct (runLoop_for a s w) as (s0 & w0 & E0 & V & Sg & (_ & Sp & Sv & _ & _)).
  apply view_fields in V. cbn in V, Sp, Sv. destruct V as (_ & Vi & _).
  pose proof (for_iterations_run a
                (seq (S (iteration s0)) (maxIterations a - iteration s0))
                s0 (history s0) w0) as R.
  rewrite <- E0 in R.
  destruct (run_bounded _ _ _ _ _ _ _ R (maxIterations a))
    as (sp & sv & Hsp & Lsp & Hsv & F & N).
  { apply List.Forall_forall. intros x Hx. apply in_seq in Hx. lia. }
  rewrite length_seq in Lsp. rewrite Vi in *.
  exists sp, sv. repeat apply conj; first [assumption | congruence].
Qed.

(* ===================================================================== *)
(** ** Further properties of the detectors and extractors *)
(* ===================================================================== *)

Lemma append_nil_r (a : string) : a +:+ EmptyString = a.
Proof. induction a as [|c a IH]; [reflexivity|]. rewrite append_cons. now f_equal. Qed.

Lemma includes_refl (n : string) : Str.includes n n = true.
Proof. apply includes_spec. exists EmptyString, EmptyString. now rewrite append_nil_r. Qed.

Lemma includes_app_l (a b n : string) :
  Str.includes a n = true -> Str.includes (a +:+ b) n = true.
Proof.
  rewrite !includes_spec. intros (before & after & ->).
  exists before, (after +:+ b). now rewrite !append_assoc.
Qed.

Lemma includes_app_r (a b n : string) :
  Str.includes b n = true -> Str.includes (a +:+ b) n = true.
Proof.
  rewrite !includes_spec. intros (before & after & ->).
  exists (a +:+ before), after. now rewrite !append_assoc.
Qed.

Lemma join_cons (sep x y : string) (r : list string) :
  Str.join sep (x :: y :: r) = x +:+ sep +:+ Str.join sep (y :: r).
Proof. reflexivity. Qed.

Ltac find_needle :=
  solve [ apply includes_refl
        | apply includes_app_l; find_needle
        | apply includes_app_r; find_needle ].

Lemma full_prompt_includes (loopId : string) (i m : nat) (mode token userPrompt : string)
    (todoFile : option string) (hardStopToken : string) :
  Str.includes
    (buildPromptTemplate loopId i m mode token userPrompt todoFile hardStopToken)
    (if String.eqb mode "tag" then promiseTag token else token) = true.
Proof.
  unfold buildPromptTemplate. cbn [app]. rewrite !join_cons.
  destruct (String.eqb mode "tag"); [find_needle|].
  destruct (String.eqb mode "plain"); find_needle.
Qed.

Lemma continue_prompt_includes (loopId : string) (i m : nat) (mode token : string) :
  Str.includes (buildContinuePrompt loopId i m mode token)
    (if String.eqb mode "tag" then promiseTag token else token) = true.
Proof.
  unfold buildContinuePrompt. rewrite !join_cons.
  destruct (String.eqb mode "tag"); find_needle.
Qed.

Lemma detect_by_inclusion (message mode token : string) (w : World) :
  String.eqb mode "regex" = false ->
  detectCompletion (Some message) mode token w
  = (Normal (Str.truthy message
             && Str.includes message
                  (if String.eqb mode "tag" then promiseTag token else token)), w).
Proof.
  intros Hr. destruct (String.eqb mode "tag") eqn:Ht.
  - apply String.eqb_eq in Ht as ->. apply detect_tag.
  - now apply detect_substring.
Qed.

(** X10.  The prompts satisfy the promise they ask for.  In every mode
    but [regex], the full prompt and the continuation prompt of an
    iteration contain the text that detection looks for, so a final
    message that repeats the prompt counts as completion. *)
Theorem prompt_satisfies_its_promise (loopId : string) (i m : nat)
    (mode token userPrompt : string) (todoFile : option string) (hardStopToken : string)
    (w : World) :
  String.eqb mode "regex" = false ->
  detectCompletion
    (Some (buildPromptTemplate loopId i m mode token userPrompt todoFile hardStopToken))
    mode token w = (Normal true, w)
  /\ detectCompletion (Some (buildContinuePrompt loopId i m mode token)) mode token w
     = (Normal true, w).
Proof.
  intros Hr. split; rewrite detect_by_inclusion by exact Hr.
  - now rewrite full_prompt_includes.
  - now rewrite continue_prompt_includes.
Qed.

(** X11.  In every mode but [regex], detection looks for the promise
    anywhere in the message: a message that is detected stays detected
    when text is put before and after it, whether or not the promise
    stands on a line of its own. *)
Theorem detection_survives_surrounding_text (mode token before message after : string)
    (w : World) :
  String.eqb mode "regex" = false ->
  fst (detectCompletion (Some message) mode token w) = Normal true ->
  fst (detectCompletion (Some (before +:+ message +:+ after)) mode token w) = Normal true.
Proof.
  intros Hr. rewrite !detect_by_inclusion by exact Hr. cbn.
  intros [= H]. apply andb_true_iff in H as (Ht & Hi). f_equal.
  apply andb_true_iff. split.
  - destruct message as [|c r]; [discriminate|].
    destruct before; reflexivity.
  - now apply includes_app_r, includes_app_l.
Qed.

(** X12.  The text search for a session identifier misses nothing:
    [parseSessionIdFromText] answers [null] exactly when no line of the
    text has a part of the 8-4-4-4-12 hexadecimal shape. *)
Theorem uuid_search_is_complete (text : string) :
  parseSessionIdFromText text = None <->
  Forall (fun line =>
            ~ exists pre cs post,
                Str.chars line = pre ++ cs ++ post /\ uuid_shaped cs)
         (Str.split_lines text).
Proof.
  unfold parseSessionIdFromText. rewrite first_some_none.
  split; intros F; eapply List.Forall_impl; try exact F; cbn; intros line H;
    now apply match_uuid_none_iff.
Qed.

(* ===================================================================== *)
(** ** Further properties of the agent options *)
(* ===================================================================== *)

Lemma or_s_falsy (a b : option string) : truthy_s a = false -> or_s a b = b.
Proof. intros H. unfold or_s. now rewrite H. Qed.

Lemma or_s_truthy (a b : option string) : truthy_s a = true -> or_s a b = a.
Proof. intros H. unfold or_s. now rewrite H. Qed.

Lemma truthy_s_some (o : option string) :
  truthy_s o = true -> exists v, o = Some v /\ v <> EmptyString.
Proof. destruct o as [[|c r]|]; try discriminate. intros _. eexists. split; [reflexivity|discriminate]. Qed.

Lemma flag_truthy (name v : string) :
  v <> EmptyString -> flag name (Some v) = [JStr name; JStr v].
Proof. intros H. unfold flag. cbn. now rewrite truthy_nonempty. Qed.

(** X13.  The agent options built for a run always name a sandbox policy
    and an approval policy, and the child process is always given both.
    The sandbox is the one asked for on the command line; without one,
    [workspace-write] under [--full-auto], even over a fallback; else
    the fallback; else [read-only].  The approval policy is chosen the
    same way, with [on-request] under [--full-auto] and as the last
    resort. *)
Theorem codex_policy_is_always_explicit (options : Options) (root : string)
    (fallback : Fallback) (prompt : string) (sid : option Json) (lastMessagePath : string) :
  exists sb ap,
    co_sandbox (buildCodexOptions options root fallback) = Some sb
    /\ sb <> EmptyString
    /\ co_askForApproval (buildCodexOptions options root fallback) = Some ap
    /\ ap <> EmptyString
    /\ (exists pre post,
          codex_args prompt sid lastMessagePath (buildCodexOptions options root fallback)
          = pre ++ [JStr "--sandbox"; JStr sb; JStr "--ask-for-approval"; JStr ap] ++ post)
    /\ (truthy_s (opt_sandbox options) = true -> Some sb = opt_sandbox options)
    /\ (truthy_s (opt_sandbox options) = false ->
        (opt_fullAuto options = true -> sb = "workspace-write")
        /\ (opt_fullAuto options = false ->
            (truthy_s (fb_sandbox fallback) = true -> Some sb = fb_sandbox fallback)
            /\ (truthy_s (fb_sandbox fallback) = false -> sb = DEFAULT_SANDBOX)))
    /\ (truthy_s (opt_askForApproval options) = true -> Some ap = opt_askForApproval options)
    /\ (truthy_s (opt_askForApproval options) = false ->
        (opt_fullAuto options = true -> ap = "on-request")
        /\ (opt_fullAuto options = false ->
            (truthy_s (fb_approval fallback) = true -> Some ap = fb_approval fallback)
            /\ (truthy_s (fb_approval fallback) = false -> ap = DEFAULT_APPROVAL))).
Proof.
  assert (Hsb : exists sb,
             co_sandbox (buildCodexOptions options root fallback) = Some sb
             /\ sb <> EmptyString
             /\ (truthy_s (opt_sandbox options) = true -> Some sb = opt_sandbox options)
             /\ (truthy_s (opt_sandbox options) = false ->
                 (opt_fullAuto options = true -> sb = "workspace-write")
                 /\ (opt_fullAuto options = false ->
                     (truthy_s (fb_sandbox fallback) = true -> Some sb = fb_sandbox fallback)
                     /\ (truthy_s (fb_sandbox fallback) = false -> sb = DEFAULT_SANDBOX)))).
  { cbn. destruct (truthy_s (opt_sandbox options)) eqn:T1.
    - destruct (truthy_s_some _ T1) as (v & Hv & Hn). rewrite Hv, !or_s_some by exact Hn.
      exists v. repeat split; congruence.
    - rewrite (or_s_falsy (opt_sandbox options)) by exact T1.
      destruct (opt_fullAuto options).
      + rewrite !or_s_some by discriminate.
        exists "workspace-write". repeat split; congruence.
      + rewrite (or_s_falsy None) by reflexivity.
        destruct (truthy_s (fb_sandbox fallback)) eqn:T2.
        * destruct (truthy_s_some _ T2) as (v & Hv & Hn). rewrite Hv, !or_s_some by exact Hn.
          exists v. repeat split; congruence.
        * rewrite (or_s_falsy (fb_sandbox fallback)) by exact T2.
          exists DEFAULT_SANDBOX. repeat split; first [discriminate | congruence]. }
  assert (Hap : exists ap,
             co_askForApproval (buildCodexOptions options root fallback) = Some ap
             /\ ap <> EmptyString
             /\ (truthy_s (opt_askForApproval options) = true ->
                 Some ap = opt_askForApproval options)
             /\ (truthy_s (opt_askForApproval options) = false ->
                 (opt_fullAuto options = true -> ap = "on-request")
                 /\ (opt_fullAuto options = false ->
                     (truthy_s (fb_approval fallback) = true -> Some ap = fb_approval fallback)
                     /\ (truthy_s (fb_approval fallback) = false -> ap = DEFAULT_APPROVAL)))).
  { cbn. destruct (truthy_s (opt_askForApproval options)) eqn:T1.
    - destruct (truthy_s_some _ T1) as (v & Hv & Hn). rewrite Hv, !or_s_some by exact Hn.
      exists v. repeat split; congruence.
    - rewrite (or_s_falsy (opt_askForApproval options)) by exact T1.
      destruct (opt_fullAuto options).
      + rewrite !or_s_some by discriminate.
        exists "on-request". repeat split; congruence.
      + rewrite (or_s_falsy None) by reflexivity.
        destruct (truthy_s (fb_approval fallback)) eqn:T2.
        * destruct (truthy_s_some _ T2) as (v & Hv & Hn). rewrite Hv, !or_s_some by exact Hn.
          exists v. repeat split; congruence.
        * rewrite (or_s_falsy (fb_approval fallback)) by exact T2.
          exists DEFAULT_APPROVAL. repeat split; first [discriminate | congruence]. }
  destruct Hsb as (sb & Esb & Nsb & P1 & P2), Hap as (ap & Eap & Nap & Q1 & Q2).
  exists sb, ap.
  split; [exact Esb|]. split; [exact Nsb|]. split; [exact Eap|]. split; [exact Nap|].
  split; [|auto].
  unfold codex_args. rewrite Esb, Eap, !flag_truthy by assumption.
  match goal with
  | |- exists pre post,
         ?a1 ++ ?a2 ++ ?a3 ++ ?a4 ++ ?a5 ++ ?a6 ++ [?x; ?y] ++ [?u; ?v] ++ ?r = _ =>
      exists (a1 ++ a2 ++ a3 ++ a4 ++ a5 ++ a6), r
  end.
  rewrite <- !app_assoc. reflexivity.
Qed.

(** X14.  Resuming does not keep the agent options of the stored record.
    Without [--model] or [--profile] on the command line of the resume,
    the record that is saved has no model or profile, and the child
    processes are given none; without [--sandbox] and
    [--ask-for-approval] the sandbox is [workspace-write] under
    [--full-auto] and [read-only] otherwise, and the approval policy is
    [on-request], whatever the record held when it was stored. *)
Theorem resume_resets_agent_options options w p st :
  resolveStatePath env (opt_loopId options) (opt_stateFile options)
    (stateLookupRootOf env options) w = (Normal p, w) ->
  disk w !! p = Some st ->
  exists a st' w1,
    resume_step env options w = (Normal (a, st'), w1)
    /\ disk w1 !! p = Some st'
    /\ (truthy_s (opt_model options) = false ->
        model (codex st') = None /\ co_model (codexOptions a) = None)
    /\ (truthy_s (opt_profile options) = false ->
        profile (codex st') = None /\ co_profile (codexOptions a) = None)
    /\ (truthy_s (opt_sandbox options) = false ->
        sandbox (codex st')
        = Some (if opt_fullAuto options then "workspace-write" else DEFAULT_SANDBOX)
        /\ co_sandbox (codexOptions a) = sandbox (codex st'))
    /\ (truthy_s (opt_askForApproval options) = false ->
        approval (codex st') = Some "on-request"
        /\ co_askForApproval (codexOptions a) = approval (codex st')).
Proof.
  intros Hp Hd.
  destruct (resume_step_run options w p st Hp Hd)
    as (a & st' & w1 & E & _ & Dk & _ & _ & _ & _ & _ & _
        & _ & _ & _ & _ & Mo & Pf & Sb & Ap & Co).
  exists a, st', w1. split; [exact E|].
  split; [rewrite Dk; first [apply lookup_insert_eq | apply lookup_insert]|].
  rewrite Mo, Pf, Sb, Ap, Co. cbn.
  split; [intros H; rewrite (or_s_falsy _ _ H); now cbn|].
  split; [intros H; rewrite (or_s_falsy _ _ H); now cbn|].
  split; intros H; rewrite (or_s_falsy _ _ H); destruct (opt_fullAuto options); now cbn.
Qed.

(* ===================================================================== *)
(** ** Properties of [parseInteger] *)
(* ===================================================================== *)

Lemma decimal_not_space (c : ascii) : is_decimal c = true -> Str.is_space c = false.
Proof.
  unfold is_decimal, Str.is_space. cbn zeta.
  destruct (48 <=? nat_of_ascii c)%nat eqn:A; [|discriminate].
  destruct (nat_of_ascii c <=? 57)%nat eqn:B; [|discriminate].
  apply Nat.leb_le in A. apply Nat.leb_le in B. intros _.
  apply orb_false_iff. split.
  - apply andb_false_iff. right. apply Nat.leb_gt. lia.
  - apply Nat.eqb_neq. lia.
Qed.

Lemma decimal_not_sign (c : ascii) :
  is_decimal c = true -> Ascii.eqb c "-" = false /\ Ascii.eqb c "+" = false.
Proof.
  intros H. split; apply Ascii.eqb_neq; intros ->; discriminate.
Qed.

(** The first byte of a white-space character of two or three bytes. *)
Ltac head_byte H :=
  unfold Str.is_space2, Str.is_space3 in H; cbv zeta in H;
  repeat match type of H with
         | (_ || _) = true => apply orb_true_iff in H as [H|H]
         | (_ && _) = true => apply andb_true_iff in H as (H & _)
         end;
  apply Nat.eqb_eq in H.

Lemma space2_head (a b : ascii) : Str.is_space2 a b = true -> Str.is_space a = false.
Proof. intros H. head_byte H. unfold Str.is_space. now rewrite H. Qed.

Lemma space3_head (a b c : ascii) :
  Str.is_space3 a b c = true ->
  Str.is_space a = false /\ forall b', Str.is_space2 a b' = false.
Proof.
  intros H. head_byte H; unfold Str.is_space, Str.is_space2; now rewrite H.
Qed.

(** A byte of the ASCII range that is no white space opens no
    white-space character. *)
Lemma drop_spaces_plain (c : ascii) (r : list ascii) :
  nat_of_ascii c < 128 -> Str.is_space c = false ->
  Str.drop_spaces (c :: r) = c :: r.
Proof.
  intros Hc Hs. cbn [Str.drop_spaces]. rewrite Hs.
  destruct r as [|b r2]; [reflexivity|].
  assert (Str.is_space2 c b = false) as ->.
  { unfold Str.is_space2. apply andb_false_iff. left. apply Nat.eqb_neq. lia. }
  destruct r2 as [|d r3]; [reflexivity|].
  assert (Str.is_space3 c b d = false) as ->; [|reflexivity].
  unfold Str.is_space3. cbv zeta.
  repeat (apply orb_false_iff; split);
    repeat (apply andb_false_iff; left); apply Nat.eqb_neq; lia.
Qed.

Lemma drop_spaces_decimal (c : ascii) (r : list ascii) :
  is_decimal c = true -> Str.drop_spaces (c :: r) = c :: r.
Proof.
  intros H. apply drop_spaces_plain; [|now apply decimal_not_space].
  unfold is_decimal in H. cbn zeta in H.
  apply andb_true_iff in H as (_ & H). apply Nat.leb_le in H. lia.
Qed.

(** White space at the head of a text is dropped, whatever follows. *)
Lemma blank_dropped (ws t : list ascii) :
  Str.blank ws -> Str.drop_spaces (ws ++ t) = Str.drop_spaces t.
Proof.
  induction 1 as [|ch rest Hc B IH]; [reflexivity|].
  destruct ch as [|a [|b [|c [|? ?]]]]; try discriminate; cbn in Hc;
    rewrite <- app_assoc; cbn [app Str.drop_spaces].
  - now rewrite Hc.
  - now rewrite (space2_head a b Hc), Hc.
  - destruct (space3_head a b c Hc) as (H1 & H2). now rewrite H1, H2, Hc.
Qed.

Lemma trimStart_spaces (ws t : list ascii) :
  Str.blank ws ->
  Str.drop_spaces t = t ->
  Str.trimStart (Str.of_chars (ws ++ t)) = Str.of_chars t.
Proof.
  intros B Ht. unfold Str.trimStart. now rewrite chars_of_chars, blank_dropped, Ht.
Qed.

Lemma leading_digits_app (ds rest : list ascii) :
  Forall (fun c => is_decimal c = true) ds ->
  match rest with c :: _ => is_decimal c = false | [] => True end ->
  leading_digits (ds ++ rest) = ds.
Proof.
  intros F Hr. induction F as [|c ds Hc F IH]; cbn.
  - destruct rest as [|c r]; [reflexivity|]. cbn. now rewrite Hr.
  - now rewrite Hc, IH.
Qed.

Lemma fold_decimal_nonneg (ds : list ascii) (acc : Z) :
  (0 <= acc)%Z ->
  (0 <= fold_left (fun acc c => 10 * acc + digit_value c) ds acc)%Z.
Proof.
  revert acc. induction ds as [|c ds IH]; intros acc H; cbn; [exact H|].
  apply IH. unfold digit_value. lia.
Qed.

Lemma decimal_value_nonneg (ds : list ascii) : (0 <= decimal_value ds)%Z.
Proof. now apply fold_decimal_nonneg. Qed.

Lemma decimal_value_snoc (ds : list ascii) (c : ascii) :
  decimal_value (ds ++ [c]) = (10 * decimal_value ds + digit_value c)%Z.
Proof. unfold decimal_value. now rewrite fold_left_app. Qed.

Lemma parseInteger_digits (ws ds rest plus : list ascii) :
  Str.blank ws ->
  Forall (fun c => is_decimal c = true) ds ->
  ds <> [] ->
  match rest with c :: _ => is_decimal c = false | [] => True end ->
  plus = [] \/ plus = ["+"%char] ->
  parseInteger (Str.of_chars (ws ++ plus ++ ds ++ rest))
  = if (decimal_value ds <? safe_limit)%Z
    then if (decimal_value ds <=? 0)%Z
         then Throw "Value must be a positive integer."
         else Normal (Int (decimal_value ds))
    else Normal (Beyond false).
Proof.
  intros Fw Fd Hn Hr Hp.
  destruct ds as [|d ds]; [congruence|]. inversion Fd as [|? ? Hd Fd']; subst.
  destruct (decimal_not_sign d Hd) as (Hm & Hpl).
  unfold parseInteger, parseInt10.
  destruct Hp as [-> | ->].
  - change ([] ++ (d :: ds) ++ rest) with (d :: (ds ++ rest)).
    rewrite trimStart_spaces by first [exact Fw | now apply drop_spaces_decimal].
    rewrite chars_of_chars. rewrite Hm, Hpl.
    change (d :: (ds ++ rest)) with ((d :: ds) ++ rest).
    rewrite (leading_digits_app (d :: ds) rest Fd Hr).
    destruct (decimal_value (d :: ds) <? safe_limit)%Z; [|reflexivity].
    cbn [isNaN not_positive orb]. now destruct (decimal_value (d :: ds) <=? 0)%Z.
  - change (["+"%char] ++ (d :: ds) ++ rest) with ("+"%char :: ((d :: ds) ++ rest)).
    rewrite trimStart_spaces
      by first [exact Fw | apply drop_spaces_plain; [now apply Nat.ltb_lt | reflexivity]].
    rewrite chars_of_chars.
    replace (Ascii.eqb "+" "-") with false by reflexivity.
    replace (Ascii.eqb "+" "+") with true by reflexivity.
    rewrite (leading_digits_app (d :: ds) rest Fd Hr).
    destruct (decimal_value (d :: ds) <? safe_limit)%Z; [|reflexivity].
    cbn [isNaN not_positive orb]. now destruct (decimal_value (d :: ds) <=? 0)%Z.
Qed.

(** X15.  [parseInteger] reads a decimal numeral at the head of the
    text, after any run of white space (the no-break space and the
    other white space outside ASCII included) and an optional [+], and
    ignores whatever follows the digits: the result is the value of the
    digits when it is positive (exactly so below 2^53).  A value of
    zero, a text with a minus sign and a text without a digit at that
    place are refused with [Value must be a positive integer.]; no call
    returns zero, a negative number or [NaN]. *)
Theorem parseInteger_reads_leading_digits :
  (forall ws ds rest,
     Str.blank ws ->
     Forall (fun c => is_decimal c = true) ds ->
     ds <> [] ->
     match rest with c :: _ => is_decimal c = false | [] => True end ->
     forall plus, plus = [] \/ plus = ["+"%char] ->
     parseInteger (Str.of_chars (ws ++ plus ++ ds ++ rest))
     = if (decimal_value ds <? safe_limit)%Z
       then if (decimal_value ds <=? 0)%Z
            then Throw "Value must be a positive integer."
            else Normal (Int (decimal_value ds))
       else Normal (Beyond false))
  /\ (forall ws rest,
        Str.blank ws ->
        parseInteger (Str.of_chars (ws ++ "-"%char :: rest))
        = Throw "Value must be a positive integer.")
  /\ (forall value,
        leading_digits
          (match Str.chars (Str.trimStart value) with
           | c :: r => if Ascii.eqb c "-" || Ascii.eqb c "+" then r else c :: r
           | [] => []
           end) = [] ->
        parseInteger value = Throw "Value must be a positive integer.")
  /\ (forall value n,
        parseInteger value = Normal n ->
        (exists z, n = Int z /\ (0 < z < safe_limit)%Z) \/ n = Beyond false).
Proof.
  split; [|split; [|split]].
  - intros ws ds rest Fw Fd Hn Hr plus Hp. now apply parseInteger_digits.
  - intros ws rest Fw.
    unfold parseInteger, parseInt10.
    rewrite trimStart_spaces
      by first [exact Fw | apply drop_spaces_plain; [now apply Nat.ltb_lt | reflexivity]].
    rewrite chars_of_chars.
    replace (Ascii.eqb "-" "-") with true by reflexivity.
    destruct (leading_digits rest) as [|d ds] eqn:E; [reflexivity|].
    pose proof (decimal_value_nonneg (d :: ds)) as N.
    destruct (decimal_value (d :: ds) <? safe_limit)%Z; [|reflexivity].
    cbn [isNaN not_positive orb]. destruct (Z.leb_spec (- decimal_value (d :: ds)) 0); [reflexivity | lia].
  - intros value H. unfold parseInteger, parseInt10.
    destruct (Str.chars (Str.trimStart value)) as [|c r]; [reflexivity|].
    destruct (Ascii.eqb c "-"); cbn [orb] in H; [now rewrite H|].
    destruct (Ascii.eqb c "+"); now rewrite H.
  - intros value n. unfold parseInteger.
    destruct (parseInt10 value) as [|z|[|]] eqn:E; cbn; try discriminate.
    + destruct (Z.leb_spec z 0); [discriminate|]. intros [= <-]. left. exists z.
      split; [reflexivity|]. split; [assumption|].
      revert E. unfold parseInt10.
      destruct (Str.chars (Str.trimStart value)) as [|c r]; [discriminate|].
      destruct (Ascii.eqb c "-"); [|destruct (Ascii.eqb c "+")]; cbv beta iota zeta;
        (match goal with
         | |- context [leading_digits ?b] => destruct (leading_digits b) as [|d ds]
         end; [discriminate|]);
        pose proof (decimal_value_nonneg (d :: ds)) as N;
        (destruct (Z.ltb_spec (decimal_value (d :: ds)) safe_limit); [|discriminate]);
        intros [= <-]; lia.
    + intros [= <-]. now right.
Qed.

Lemma pretty_N_char_digit (d : N) :
  (d < 10)%N ->
  is_decimal (pretty_N_char d) = true /\ digit_value (pretty_N_char d) = Z.of_N d.
Proof.
  intros H.
  assert (d = 0 \/ d = 1 \/ d = 2 \/ d = 3 \/ d = 4 \/ d = 5 \/ d = 6 \/ d = 7 \/ d = 8
          \/ d = 9)%N as D by lia.
  repeat destruct D as [-> | D]; try subst d; split; reflexivity.
Qed.

(** The decimal rendering of a number, before the text [s]. *)
Lemma pretty_N_go_digits (x : N) :
  forall s,
    exists ds,
      Str.chars (pretty_N_go x s) = ds ++ Str.chars s
      /\ Forall (fun c => is_decimal c = true) ds
      /\ decimal_value ds = Z.of_N x
      /\ (0 < x -> ds <> [])%N.
Proof.
  induction x as [x IH] using (well_founded_ind N.lt_wf_0). intros s.
  destruct (N.eq_dec x 0%N) as [->|Hx].
  - rewrite pretty_N_go_0. exists []. repeat split; [constructor | lia].
  - rewrite pretty_N_go_step by lia.
    destruct (IH (x `div` 10)%N) with (s := String (pretty_N_char (x `mod` 10)) s)
      as (ds & Hc & Fd & Hv & _).
    { apply N.div_lt; lia. }
    destruct (pretty_N_char_digit (x `mod` 10)%N) as (Hd & Hdv).
    { apply N.mod_lt. lia. }
    exists (ds ++ [pretty_N_char (x `mod` 10)]). split; [|split; [|split]].
    + rewrite Hc. cbn. now rewrite <- app_assoc.
    + apply List.Forall_app. split; [exact Fd|]. constructor; [exact Hd | constructor].
    + rewrite decimal_value_snoc, Hv, Hdv.
      pose proof (N.div_mod x 10). lia.
    + intros _ E. now apply app_eq_nil in E as (_ & E).
Qed.

(** X16.  A positive number below 2^53 written in decimal, as the loop
    writes its iteration numbers, is read back by [parseInteger] as the
    same number. *)
Theorem parseInteger_reads_back_decimal (n : nat) :
  0 < n -> (Z.of_nat n < safe_limit)%Z ->
  parseInteger (pretty n) = Normal (Int (Z.of_nat n)).
Proof.
  intros Hn Hs. unfold pretty, pretty_nat, pretty, pretty_N.
  destruct (decide (N.of_nat n = 0%N)) as [E|_]; [lia|].
  destruct (pretty_N_go_digits (N.of_nat n) EmptyString) as (ds & Hc & Fd & Hv & Hne).
  change (Str.chars EmptyString) with (@nil ascii) in Hc. rewrite app_nil_r in Hc.
  rewrite <- (of_chars_chars (pretty_N_go (N.of_nat n) EmptyString)), Hc.
  pose proof (parseInteger_digits [] ds [] [] Str.blank_nil Fd
                (Hne ltac:(lia)) I (or_introl eq_refl)) as P.
  cbn [app] in P. rewrite app_nil_r in P. rewrite P.
  rewrite Hv, nat_N_Z.
  destruct (Z.ltb_spec (Z.of_nat n) safe_limit); [|lia].
  destruct (Z.leb_spec (Z.of_nat n) 0); [lia | reflexivity].
Qed.

(* ===================================================================== *)
(** ** Properties of [handleStart] and [handleCancel] *)
(* ===================================================================== *)

Context (toISOString : nat -> string) (below : string -> string -> bool).

(** [handleStart] always has a loop identifier that is not empty, and
    choosing it leaves the files, the records and the trace alone. *)
Lemma chosenLoopId_run (options : StartOptions) (w : World) :
  exists loopId w0,
    chosenLoopId env toISOString options w = (Normal loopId, w0)
    /\ Str.truthy loopId = true
    /\ files w0 = files w /\ disk w0 = disk w /\ trace w0 = trace w
    /\ sigintReceived w0 = sigintReceived w
    /\ (truthy_s (opt_loopId (so_common options)) = true ->
        opt_loopId (so_common options) = Some loopId /\ w0 = w).
Proof.
  unfold chosenLoopId. destruct (truthy_s (opt_loopId (so_common options))) eqn:T.
  - destruct (truthy_s_some _ T) as (v & Hv & Hn). rewrite Hv. cbn.
    exists v, w. repeat split; auto. now apply truthy_nonempty.
  - unfold defaultLoopId, nowIso, bind, ret. cbn.
    eexists _, _. split; [reflexivity|]. repeat split; try discriminate.
    match goal with |- Str.truthy (?name +:+ _) = true => destruct name; reflexivity end.
Qed.

Lemma resolveStatePath_given (loopId : string) (stateFile : option string)
    (root : string) (w : World) :
  Str.truthy loopId = true ->
  exists p, resolveStatePath env (Some loopId) stateFile root w = (Normal p, w).
Proof.
  intros T. unfold resolveStatePath. destruct (truthy_s stateFile); [eexists; reflexivity|].
  cbn. rewrite T. cbn. eexists. reflexivity.
Qed.

(** [handleStart] on a state path that is free. *)
Lemma start_step_run (task : string) (options : StartOptions) (w w0 : World)
    (loopId p : string) :
  chosenLoopId env toISOString options w = (Normal loopId, w0) ->
  resolveStatePath env (Some loopId) (opt_stateFile (so_common options))
    (stateLookupRootOf env (so_common options)) w0 = (Normal p, w0) ->
  files w0 !! p = None ->
  disk w0 !! p = None ->
  exists a init w1,
    handleStart env toISOString task options w = runLoop env a init w1
    /\ statePath a = p
    /\ maxIterations a = max_iterations init
    /\ completionPromise a = completion_promise init
    /\ promiseMode a = promise_mode init
    /\ codexOptions a
       = buildCodexOptions (so_common options) (workspaceRoot a) no_fallback
    /\ disk w1 = <[p := init]> (disk w0)
    /\ files w1 = files w0
    /\ saved (trace w1) = init :: saved (trace w0)
    /\ spawned (trace w1) = spawned (trace w0)
    /\ asked (trace w1) = asked (trace w0)
    /\ loop_id init = loopId
    /\ prompt init = task
    /\ iteration init = 0
    /\ status init = running
    /\ history init = []
    /\ session_id (codex init) = None
    /\ completion_promise init
       = default EmptyString
           (or_s (opt_completionPromise (so_common options))
                 (Some DEFAULT_COMPLETION_PROMISE))
    /\ promise_mode init
       = default EmptyString
           (or_s (opt_promiseMode (so_common options)) (Some DEFAULT_PROMISE_MODE))
    /\ max_iterations init
       = (if truthy_n (opt_maxIterations (so_common options))
          then default 0 (opt_maxIterations (so_common options))
          else DEFAULT_MAX_ITERATIONS).
Proof.
  intros Hc Hp Hf Hd.
  unfold handleStart. unfold chosenLoopId, stateLookupRootOf in *. cbv zeta.
  rewrite (bind_normal _ _ w w0 loopId Hc).
  rewrite (bind_normal _ _ w0 w0 p Hp).
  rewrite (bind_normal (fs_existsSync_any p) _ w0 w0 false)
    by (unfold fs_existsSync_any; now rewrite Hf, Hd).
  unfold createInitialState, saveState, updateSummary, nowIso, emit, bind, ret.
  cbn -[runLoop].
  match goal with
  | |- context [Str.truthy ?sj] =>
      match sj with
      | context [so_summaryJson] => destruct (Str.truthy sj)
      end
  end; cbn -[runLoop];
    (eexists _, _, _; split; [reflexivity|]; cbn; repeat apply conj; reflexivity).
Qed.

(** X17.  [handleStart] does not start on a state path that is taken:
    when the state path of the new loop holds a record or a file, the
    command fails with [State file already exists] before it has written
    or started anything.  No record is saved, no summary is written, no
    child process is started, and the files and records are as they
    were. *)
Theorem start_refuses_a_taken_state_path (task : string) (options : StartOptions)
    (w : World) :
  exists loopId p w0,
    chosenLoopId env toISOString options w = (Normal loopId, w0)
    /\ resolveStatePath env (Some loopId) (opt_stateFile (so_common options))
         (stateLookupRootOf env (so_common options)) w0 = (Normal p, w0)
    /\ (is_Some (disk w !! p) \/ is_Some (files w !! p) ->
        handleStart env toISOString task options w
        = (Throw ("State file already exists at " +:+ p
                  +:+ ". Use --loop-id to start a new loop."), w0)
        /\ files w0 = files w
        /\ disk w0 = disk w
        /\ trace w0 = trace w).
Proof.
  destruct (chosenLoopId_run options w) as (loopId & w0 & Hc & T & F0 & D0 & T0 & _ & _).
  destruct (resolveStatePath_given loopId (opt_stateFile (so_common options))
              (stateLookupRootOf env (so_common options)) w0 T) as (p & Hp).
  exists loopId, p, w0. split; [exact Hc|]. split; [exact Hp|].
  intros Hx. split; [|auto].
  unfold handleStart.
  pose proof Hc as Hc'. pose proof Hp as Hp'.
  unfold chosenLoopId, stateLookupRootOf in Hc', Hp'. cbv zeta.
  rewrite (bind_normal _ _ w w0 loopId Hc').
  rewrite (bind_normal _ _ w0 w0 p Hp').
  rewrite (bind_normal (fs_existsSync_any p) _ w0 w0 true); [reflexivity|].
  unfold fs_existsSync_any. rewrite F0, D0. f_equal. f_equal.
  destruct Hx as [Hx|Hx]; rewrite (bool_decide_eq_true_2 _ Hx);
    [apply orb_true_r | reflexivity].
Qed.

(** X18.  On a state path that is free, [handleStart] saves a fresh
    record before anything else (counter 0, status [running], empty
    history, no session, the given loop identifier and prompt, and the
    defaults [TASK_COMPLETE], [tag] and 30 where the command line gives
    no value) and runs the loop on it.  Every record saved afterwards
    extends that record and has as many history entries as its counter
    says, and the first child process is started as [exec <full
    prompt>] for iteration 1. *)
Theorem start_runs_from_a_fresh_record (task : string) (options : StartOptions)
    (w w0 : World) (loopId p : string) :
  chosenLoopId env toISOString options w = (Normal loopId, w0) ->
  resolveStatePath env (Some loopId) (opt_stateFile (so_common options))
    (stateLookupRootOf env (so_common options)) w0 = (Normal p, w0) ->
  files w0 !! p = None ->
  disk w0 !! p = None ->
  exists a init w1,
    handleStart env toISOString task options w = runLoop env a init w1
    /\ statePath a = p
    /\ disk w1 !! p = Some init
    /\ saved (trace w1) = init :: saved (trace w0)
    /\ spawned (trace w1) = spawned (trace w0)
    /\ loop_id init = loopId
    /\ prompt init = task
    /\ iteration init = 0
    /\ status init = running
    /\ history init = []
    /\ session_id (codex init) = None
    /\ (truthy_s (opt_completionPromise (so_common options)) = false ->
        completion_promise init = DEFAULT_COMPLETION_PROMISE)
    /\ (truthy_s (opt_promiseMode (so_common options)) = false ->
        promise_mode init = DEFAULT_PROMISE_MODE)
    /\ (truthy_n (opt_maxIterations (so_common options)) = false ->
        max_iterations init = DEFAULT_MAX_ITERATIONS)
    /\ 0 < max_iterations init
    /\ (exists sv,
          saved (trace (snd (handleStart env toISOString task options w)))
          = sv ++ init :: saved (trace w0)
          /\ Forall (fun snap => continues init snap
                                 /\ length (history snap) = iteration snap) sv)
    /\ (exists sp s0 rest,
          spawned (trace (snd (handleStart env toISOString task options w)))
          = sp ++ [args_of a 1 s0] ++ spawned (trace w0)
          /\ args_of a 1 s0
             = JStr "exec"
               :: JStr (buildPromptTemplate loopId 1 (max_iterations init)
                          (promise_mode init) (completion_promise init) task
                          (todoFile a) (hardStopToken a))
               :: rest).
Proof.
  intros Hc Hp Hf Hd.
  destruct (start_step_run task options w w0 loopId p Hc Hp Hf Hd)
    as (a & init & w1 & E & Pa & Ma & Ca & Pm & _ & D1 & _ & Sv & Sp & _
        & Li & Pr & It & St & Hi & Se & Cp & Mo & Mx).
  exists a, init, w1. split; [exact E|]. split; [exact Pa|].
  split; [rewrite D1; first [apply lookup_insert_eq | apply lookup_insert]|].
  split; [exact Sv|]. split; [exact Sp|].
  do 6 (split; [assumption|]).
  split; [intros H; rewrite Cp, (or_s_falsy _ _ H); reflexivity|].
  split; [intros H; rewrite Mo, (or_s_falsy _ _ H); reflexivity|].
  split; [intros H; rewrite Mx, H; reflexivity|].
  assert (Pos : 0 < max_iterations init).
  { rewrite Mx. destruct (opt_maxIterations (so_common options)) as [[|n]|]; cbn;
      unfold DEFAULT_MAX_ITERATIONS; lia. }
  split; [exact Pos|]. rewrite E. split.
  - destruct (runLoop_continues a init w1) as (sv & Hs & F & _ & _).
    exists sv. rewrite Hs, Sv. split; [reflexivity|].
    eapply List.Forall_impl; [|exact F]. cbn. intros x C. split; [exact C|].
    apply (continues_length init x); [now rewrite Hi, It | exact C].
  - destruct (runLoop_for a init w1) as (s0 & w2 & E0 & V0 & Sg & (_ & Sp0 & _)).
    rewrite E0.
    pose proof (for_iterations_run a
                  (seq (S (iteration s0)) (maxIterations a - iteration s0))
                  s0 (history s0) w2) as R.
    apply view_fields in V0. cbn in V0.
    destruct V0 as (_ & Vi & _ & _ & Vs & Vl & Vp).
    rewrite Vi, It, Ma in *.
    destruct (max_iterations init - 0) as [|k] eqn:Hk; [lia|].
    cbn [seq] in R |- *.
    destruct (run_first_spawn _ _ _ _ _ _ _ _ R Sg) as (sp & Hsp).
    exists sp, s0. eexists. split.
    + rewrite Hsp. cbn in Sp0. now rewrite Sp0, Sp.
    + unfold args_of, codex_args, promptOf. rewrite Vs, Se, Vl, Vp, Li, Pr, Ca, Pm, Ma.
      cbn. reflexivity.
Qed.

(** X19.  [handleCancel] on a record that is found gives it status
    [canceled] and saves it, changing nothing else in it but the time
    stamp, and starts no child process.  Without clean-up nothing else
    on disk changes.  With clean-up the saved record is then removed
    again together with everything in the artifacts directory of the
    loop, and what lies elsewhere stays.  On a state path at which
    there is no file the command fails with [State file not found] and
    changes nothing. *)
Theorem cancel_marks_or_removes_the_record (options : Options) (cleanup : bool)
    (w : World) (p : string) :
  resolveStatePath env (opt_loopId options) (opt_stateFile options)
    (stateLookupRootOf env options) w = (Normal p, w) ->
  (disk w !! p = None ->
   files w !! p = None ->
   handleCancel env below options cleanup w
   = (Throw ("State file not found at " +:+ p), w))
  /\ (forall st,
        disk w !! p = Some st ->
        exists w',
          handleCancel env below options cleanup w = (Normal tt, w')
          /\ saved (trace w')
             = set_updated_at (clock w) (set_status canceled st) :: saved (trace w)
          /\ spawned (trace w') = spawned (trace w)
          /\ (cleanup = false ->
              disk w' = <[p := set_updated_at (clock w) (set_status canceled st)]> (disk w)
              /\ files w' = files w)
          /\ (cleanup = true ->
              disk w' !! p = None
              /\ files w' !! p = None
              /\ (forall k,
                    below (path_resolve (stateLookupRootOf env options)
                             (dir (artifacts st))) k = true ->
                    disk w' !! k = None /\ files w' !! k = None)
              /\ (forall k,
                    k <> p ->
                    below (path_resolve (stateLookupRootOf env options)
                             (dir (artifacts st))) k = false ->
                    disk w' !! k = disk w !! k /\ files w' !! k = files w !! k))).
Proof.
  intros Hp. split.
  - intros Hd Hf. unfold handleCancel. cbv zeta.
    rewrite (bind_normal _ _ w w p Hp).
    unfold bind. now rewrite (loadState_missing p w Hd Hf).
  - intros st Hd. unfold handleCancel. cbv zeta.
    rewrite (bind_normal _ _ w w p Hp).
    rewrite (bind_normal (loadState p) _ w w st) by now apply loadState_found.
    unfold saveState, deleteArtifacts, fs_rmSync_recursive, fs_rmSync, console_log, emit,
      nowIso, bind, ret.
    destruct cleanup; cbn; eexists; (split; [reflexivity|]); cbn;
      (split; [reflexivity|]); (split; [reflexivity|]); split; try discriminate; intros _.
    + split; [apply lookup_delete_eq|]. split; [apply lookup_delete_eq|]. split.
      * intros k Hk. assert (k = p \/ k <> p) as [->|N] by (destruct (decide (k = p)); auto).
        { split; apply lookup_delete_eq. }
        rewrite !lookup_delete_ne by congruence.
        split; apply map_lookup_filter_None; right; intros x _; cbn; congruence.
      * intros k N Hk. rewrite !lookup_delete_ne by congruence.
        split.
        -- rewrite map_lookup_filter. rewrite lookup_insert_ne by congruence.
           destruct (disk w !! k) as [x|]; cbn; [|reflexivity].
           rewrite option_guard_True by exact Hk. reflexivity.
        -- rewrite map_lookup_filter.
           destruct (files w !! k) as [x|]; cbn; [|reflexivity].
           rewrite option_guard_True by exact Hk. reflexivity.
    + split; reflexivity.
Qed.

(* ===================================================================== *)
(** ** Further properties of runs and commands *)
(* ===================================================================== *)

(** X20.  The checkpoint scan answers yes exactly when the checkpoint
    path is given, a file is there and its text contains the token
    somewhere; so an absent path or a missing file is never taken for a
    checkpoint, and an empty token is found in every file that is read.
    The scan changes nothing. *)
Theorem checkpoint_scan (todoPath : option string) (token : string) (w : World) :
  snd (checkHardStop todoPath token w) = w
  /\ (fst (checkHardStop todoPath token w) = Normal true <->
      exists p text before after,
        todoPath = Some p /\ p <> EmptyString
        /\ files w !! p = Some text
        /\ text = before +:+ token +:+ after)
  /\ (forall p text,
        todoPath = Some p -> p <> EmptyString ->
        files w !! p = Some text ->
        fst (checkHardStop todoPath EmptyString w) = Normal true).
Proof.
  unfold checkHardStop, fs_existsSync, fs_readFileSync, bind, ret.
  destruct todoPath as [[|c r]|]; cbn.
  - split; [reflexivity|]. split.
    + split; [discriminate|]. intros (p & ? & ? & ? & [= <-] & N & _). congruence.
    + intros p text [= <-] N. congruence.
  - destruct (files w !! String c r) as [text|] eqn:E; cbn; rewrite ?E; cbn.
    + split; [reflexivity|]. split.
      * split.
        -- intros [= H]. apply includes_spec in H as (before & after & H).
           exists (String c r), text, before, after.
           split; [reflexivity|]. split; [discriminate|]. split; [exact E | exact H].
        -- intros (p & text' & before & after & [= <-] & _ & Hf & H).
           rewrite E in Hf. injection Hf as <-. f_equal.
           apply includes_spec. eauto.
      * intros p text' _ _ _. f_equal. apply includes_spec.
        exists EmptyString, text. reflexivity.
    + split; [reflexivity|]. split.
      * split; [discriminate|].
        intros (p & ? & ? & ? & [= <-] & _ & H & _). congruence.
      * intros p text [= <-] _ H. congruence.
  - split; [reflexivity|]. split.
    + split; [discriminate|]. intros (p & ? & ? & ? & H & _). discriminate.
    + intros p text H. discriminate.
Qed.

(** X22.  Resuming needs a stored record.  Without a state file and
    without a loop identifier [handleResume] fails with [A loop id is
    required]; with a state path at which there is no file it fails
    with [State file not found]; in both cases nothing is saved and no
    child process is started.  A state file given on the command line is
    used whatever the loop identifier. *)
Theorem resume_needs_a_stored_record (options : Options) (w : World) :
  (truthy_s (opt_stateFile options) = false ->
   truthy_s (opt_loopId options) = false ->
   handleResume env options w
   = (Throw "A loop id is required when no state file is provided.", w))
  /\ (forall p,
        resolveStatePath env (opt_loopId options) (opt_stateFile options)
          (stateLookupRootOf env options) w = (Normal p, w) ->
        disk w !! p = None ->
        files w !! p = None ->
        handleResume env options w = (Throw ("State file not found at " +:+ p), w))
  /\ (forall file,
        opt_stateFile options = Some file -> file <> EmptyString ->
        resolveStatePath env (opt_loopId options) (opt_stateFile options)
          (stateLookupRootOf env options) w
        = (Normal (path_resolve (process_cwd env) file), w)).
Proof.
  split; [|split].
  - intros Hf Hl. unfold handleResume, resume_step, resolveStatePath, bind, throw.
    now rewrite Hf, Hl.
  - intros p Hp Hd Hf. unfold handleResume, resume_step.
    unfold bind at 1. unfold bind at 1. rewrite Hp.
    unfold bind. now rewrite (loadState_missing p w Hd Hf).
  - intros file Hf Hn. unfold resolveStatePath. rewrite Hf. cbn.
    now rewrite truthy_nonempty.
Qed.

Lemma run_final a its s h w c w' :
  run env a its s h w c w' ->
  forall s' k,
    c = Normal s' ->
    sigintReceived w = false ->
    its = seq (S (iteration s)) (S k) ->
    iteration s + S k = maxIterations a ->
    (status s' = completed
     /\ exists h0 rec, history s' = h0 ++ [rec] /\ it_detected_promise rec = true)
    \/ (status s' = stopped_max_iterations /\ iteration s' = maxIterations a)
    \/ status s' = paused_hard_stop
    \/ status s' = error_spawn
    \/ status s' = error_no_session.
Proof.
  induction 1 as [s h w | i later s h w s1 h1 w1 c w2 O R IH
                 | i later s h w flow s1 h1 w1 O Hf | i later s h w z w1 O];
    intros s' k Hc Hs Hk Hm; try discriminate.
  - injection Hk as Hi Hl.
    assert (iteration s1 = i /\ (maxIterations a <=? i)%nat = false
            /\ sigintReceived w1 = false) as (Hi1 & Hlt & Hs1).
    { inversion O; subst;
      repeat match goal with
             | H : concluded _ _ _ _ _ _ _ _ _ _ |- _ =>
                 destruct H as (? & ? & ? & ? & ? & ?)
             end; read_views; repeat apply conj; congruence. }
    apply Nat.leb_gt in Hlt.
    destruct k as [|k]; [lia|].
    apply (IH s' k Hc Hs1); [rewrite Hi1, Hi; exact Hl | lia].
  - injection Hc as ->. injection Hk as Hi Hl.
    inversion O; subst;
    repeat match goal with
           | H : concluded _ _ _ _ _ _ _ _ _ _ |- _ =>
               destruct H as (? & ? & ? & ? & ? & ?)
           end; read_views; try congruence.
    all: try match goal with
             | Hle : (_ <=? _)%nat = true |- _ => apply Nat.leb_le in Hle
             end.
    all: first
           [ left; split;
             [ congruence
             | match goal with
               | Hr : it_detected_promise ?rec = true |- _ =>
                   exists h, rec; split; congruence
               end ]
           | right; left; split; [congruence | lia]
           | right; right; left; congruence
           | right; right; right; left; congruence
           | right; right; right; right; congruence ].
Qed.

(** X24.  A call of [runLoop] that has an iteration to run and returns
    leaves the record in a final status, never as [running]: it is
    [completed], with a last history entry that says the promise was
    detected, or [stopped_max_iterations], with the counter at the
    limit, or [paused_hard_stop], [error_spawn] or [error_no_session]. *)
Theorem run_ends_in_a_final_status a s w s' w' :
  iteration s < maxIterations a ->
  runLoop env a s w = (Normal s', w') ->
  (status s' = completed
   /\ exists h0 rec, history s' = h0 ++ [rec] /\ it_detected_promise rec = true)
  \/ (status s' = stopped_max_iterations /\ iteration s' = maxIterations a)
  \/ status s' = paused_hard_stop
  \/ status s' = error_spawn
  \/ status s' = error_no_session.
Proof.
  intros Lt E.
  destruct (runLoop_for a s w) as (s0 & w0 & E0 & V & Sg & _).
  apply view_fields in V. cbn in V. destruct V as (_ & Vi & _).
  pose proof (for_iterations_run a
                (seq (S (iteration s0)) (maxIterations a - iteration s0))
                s0 (history s0) w0) as R.
  rewrite <- E0, E in R. cbn [fst snd] in R.
  destruct (maxIterations a - iteration s0) as [|k] eqn:Hk; [lia|].
  apply (run_final _ _ _ _ _ _ _ R s' k eq_refl Sg eq_refl). lia.
Qed.

End Properties.

(* ===================================================================== *)
(** ** Regex-mode detection *)
(* ===================================================================== *)

(** C5, for messages that are not empty.  In [regex] mode detection
    always returns a truth value.  For a non-empty message: a token that
    compiles gives the result of testing the pattern on the message, and
    nothing is reported; a token that does not compile gives [false],
    with one line [Invalid completion regex: ...] on the error console.
    For an absent or empty message the result is [false] and the token
    is not looked at.  On [Mini.runtime]: [DONE-123] satisfies
    [DONE-\d+], [DONE] does not, and the token "[invalid" gives [false]
    on every message. *)
Theorem regex_detection_of_nonempty_message (RT : Runtime) (message : option string)
    (token : string) (w : World) :
  (exists b w', detectCompletion message "regex" token w = (Normal b, w'))
  /\ (forall text re,
        message = Some text -> text <> EmptyString -> RegExp_new token = inl re ->
        detectCompletion message "regex" token w = (Normal (RegExp_test re text), w))
  /\ (forall text diagnostic,
        message = Some text -> text <> EmptyString -> RegExp_new token = inr diagnostic ->
        detectCompletion message "regex" token w
        = (Normal false, with_error ("Invalid completion regex: " +:+ diagnostic) w))
  /\ (message = None \/ message = Some EmptyString ->
      detectCompletion message "regex" token w = (Normal false, w))
  /\ fst (detectCompletion (RT := Mini.runtime) (Some "DONE-123") "regex" "DONE-\d+" w)
     = Normal true
  /\ fst (detectCompletion (RT := Mini.runtime) (Some "DONE") "regex" "DONE-\d+" w)
     = Normal false
  /\ fst (detectCompletion (RT := Mini.runtime) message "regex" "[invalid" w)
     = Normal false.
Proof.
  split.
  { destruct (detect_total message "regex" token w) as (b & w' & E & _). eauto. }
  split.
  { intros [|c rest] re -> Hn Hc; [congruence|]. now rewrite detect_regex, Hc. }
  split.
  { intros [|c rest] d -> Hn Hc; [congruence|]. now rewrite detect_regex, Hc. }
  split.
  { intros [-> | ->]; now apply detect_falsy. }
  split; [now rewrite detect_regex|].
  split; [now rewrite detect_regex|].
  destruct message as [[|c rest]|].
  - now rewrite detect_falsy.
  - now rewrite detect_regex.
  - now rewrite detect_falsy.
Qed.

(** The pattern [a*] compiles and matches the empty text, and yet
    detection answers [false] on the empty message; the token
    "[invalid" does not compile, and yet nothing is reported on the
    empty message. *)
Lemma regex_detection_ignores_empty_message :
  (exists re : @RegExp Mini.runtime,
     RegExp_new "a*" = inl re
     /\ RegExp_test re EmptyString = true
     /\ detectCompletion (RT := Mini.runtime) (Some EmptyString) "regex" "a*" empty_world
        = (Normal false, empty_world))
  /\ (exists diagnostic : string,
        @RegExp_new Mini.runtime "[invalid" = inr diagnostic
        /\ detectCompletion (RT := Mini.runtime) (Some EmptyString) "regex" "[invalid"
             empty_world
           = (Normal false, empty_world)).
Proof.
  split.
  - eexists. split; [reflexivity|]. split; reflexivity.
  - eexists. split; reflexivity.
Qed.

(* ===================================================================== *)
(** ** The properties on the concrete runs *)
(* ===================================================================== *)

Lemma completion_precedes_checkpoint_witness :
  exists rec s1 s2 w',
    loop_body (RT := Mini.runtime) Scenario.env_done Scenario.loop_args 1 Scenario.fresh []
      Scenario.at_checkpoint
    = (Normal (Break, s2, [] ++ [rec]), w')
    /\ status s2 = completed
    /\ todo s2 = todo Scenario.fresh
    /\ paused_flag s2 = false
    /\ saved (trace w') = s2 :: s1 :: saved (trace Scenario.at_checkpoint)
    /\ status s1 = running.
Proof.
  destruct (@completion_precedes_checkpoint Mini.runtime Scenario.env_done
              Scenario.loop_args 1 Scenario.fresh [] Scenario.at_checkpoint
              (Some 0%Z) Scenario.session_line EmptyString
              (snd (respond (RT := Mini.runtime) Scenario.env_done Scenario.loop_args 1
                      Scenario.fresh Scenario.at_checkpoint)))
    as (rec & s1 & s2 & w' & H1 & H2 & H3 & _ & F & _ & _ & _ & _ & H4 & H5 & _);
    [vm_compute; reflexivity ..|].
  exists rec, s1, s2, w'.
  split; [exact H1|]. split; [exact H2|]. split; [exact H3|].
  split; [exact (proj2 (F eq_refl))|]. split; [exact H4 | exact H5].
Defined.

(** A loop is stopped at the checkpoint in [exit] mode, which stores its
    record with the paused flag set, and is resumed.  [handleResume]
    runs iteration 2 on the stored record; the final message satisfies
    the promise while the checkpoint file still holds the sentinel, and
    the loop ends [completed] with the paused flag still set. *)
Lemma completed_with_the_paused_flag_set :
  exists paused w1 a stored w2 finished w3,
    runLoop (RT := Mini.runtime) Scenario.env_busy Scenario.loop_args Scenario.fresh
      Scenario.at_checkpoint
    = (Normal paused, w1)
    /\ status paused = paused_hard_stop
    /\ paused_flag paused = true
    /\ disk w1 !! Scenario.state_file = Some paused
    /\ resume_step (RT := Mini.runtime) Scenario.env_done Scenario.bare_options
         (Scenario.restarted w1)
       = (Normal (a, stored), w2)
    /\ todoFile a = Some "/w/TODO.md"
    /\ hardStopToken a = "HARD STOP"
    /\ paused_flag stored = true
    /\ handleResume (RT := Mini.runtime) Scenario.env_done Scenario.bare_options
         (Scenario.restarted w1)
       = (Normal finished, w3)
    /\ length (spawned (trace w3)) = 1
    /\ iteration finished = 2
    /\ detected (RT := Mini.runtime)
         (file_text (files w3) (lastMessagePathOf (RT := Mini.runtime) a 2))
         (promiseMode a) (completionPromise a) = true
    /\ sentinel (files w3) (todoFile a) (hardStopToken a) = true
    /\ status finished = completed
    /\ paused_flag finished = true.
Proof.
  eexists _, _, _, _, _, _, _.
  split; [vm_compute; reflexivity|].
  do 3 (split; [vm_compute; reflexivity|]).
  split; [vm_compute; reflexivity|].
  do 3 (split; [vm_compute; reflexivity|]).
  split; [vm_compute; reflexivity|].
  repeat split; vm_compute; reflexivity.
Qed.

Lemma spawn_failure_is_terminal_witness :
  exists s' w',
    for_iterations (RT := Mini.runtime) Scenario.env_broken Scenario.loop_args [1; 2]
      Scenario.fresh [] Scenario.plain_workspace
    = (Normal s', w')
    /\ status s' = error_spawn
    /\ iteration s' = 0
    /\ history s' = [].
Proof.
  destruct (@spawn_failure_is_terminal Mini.runtime Scenario.env_broken
              Scenario.loop_args 1 [2] Scenario.fresh [] Scenario.plain_workspace
              "spawn codex ENOENT"
              (snd (respond (RT := Mini.runtime) Scenario.env_broken Scenario.loop_args 1
                      Scenario.fresh Scenario.plain_workspace)))
    as (s' & w' & H1 & _ & H2 & H3 & H4 & _);
    [vm_compute; reflexivity ..|].
  exists s', w'. auto.
Defined.

Lemma checkpoint_exit_stops_witness :
  exists s2 w',
    for_iterations (RT := Mini.runtime) Scenario.env_busy Scenario.loop_args [1; 2]
      Scenario.fresh [] Scenario.at_checkpoint
    = (Normal s2, w')
    /\ status s2 = paused_hard_stop
    /\ todo s2 = todo_with_paused_for_hard_stop true <$> todo Scenario.fresh
    /\ iteration s2 = 1
    /\ length (spawned (trace w')) = 1.
Proof.
  destruct (@checkpoint_exit_stops Mini.runtime Scenario.env_busy
              Scenario.loop_args 1 [2] Scenario.fresh [] Scenario.at_checkpoint
              (Some 0%Z) Scenario.session_line EmptyString
              (snd (respond (RT := Mini.runtime) Scenario.env_busy Scenario.loop_args 1
                      Scenario.fresh Scenario.at_checkpoint)))
    as (rec & s1 & s2 & w' & H1 & _ & H2 & H3 & _ & H4 & _ & _ & H5 & _);
    [vm_compute; reflexivity ..|].
  exists s2, w'. rewrite H5. auto.
Defined.

Lemma tag_detection_implies_plain_witness :
  fst (detectCompletion (RT := Mini.runtime)
         (Some "All checks pass. <promise>DONE</promise>") "plain" "DONE" empty_world)
  = Normal true.
Proof.
  apply (@tag_detection_implies_plain Mini.runtime
           (Some "All checks pass. <promise>DONE</promise>") "DONE" empty_world).
  vm_compute. reflexivity.
Defined.

Lemma history_is_append_only_witness :
  exists sv,
    saved (trace (snd (runLoop (RT := Mini.runtime) Scenario.env_busy Scenario.loop_args
                         Scenario.fresh Scenario.plain_workspace)))
    = sv ++ saved (trace Scenario.plain_workspace)
    /\ Forall (fun snap => continues Scenario.fresh snap
                           /\ length (history snap) = iteration snap) sv.
Proof.
  destruct (@history_is_append_only Mini.runtime Scenario.env_busy Scenario.loop_args
              Scenario.fresh Scenario.plain_workspace eq_refl)
    as ((sv & H1 & H2 & _) & _).
  exists sv. auto.
Defined.

Lemma exhaustion_stops_at_max_witness :
  exists s' w',
    runLoop (RT := Mini.runtime) Scenario.env_blank Scenario.loop_args Scenario.fresh
      Scenario.at_checkpoint
    = (Normal s', w')
    /\ status s' = stopped_max_iterations
    /\ iteration s' = 2
    /\ length (history s') = 2.
Proof.
  assert (Lt : iteration Scenario.fresh < maxIterations Scenario.loop_args)
    by (cbn; lia).
  destruct (proj1 (@exhaustion_stops_at_max Mini.runtime Scenario.env_blank
                     Scenario.loop_args Scenario.fresh Scenario.at_checkpoint Lt))
    as (s' & w' & sp & new & E & St & It & _ & _ & Hn & Ln & _).
  - intros i s w.
    exists (Some 0%Z), Scenario.session_line, EmptyString, ∅.
    split; [reflexivity|]. split; [vm_compute; reflexivity|]. split.
    + unfold message_of. rewrite file_text_missing by apply lookup_empty.
      apply detected_empty.
    + vm_compute. reflexivity.
  - exists s', w'. split; [exact E|]. split; [exact St|]. split; [exact It|].
    rewrite Hn, length_app, Ln. reflexivity.
Defined.

Lemma resume_applies_overrides_witness :
  exists a st' w1,
    resume_step (RT := Mini.runtime) Scenario.env_busy Scenario.resume_options
      Scenario.stored_workspace
    = (Normal (a, st'), w1)
    /\ disk w1 !! Scenario.state_file = Some st'
    /\ max_iterations st' = 7
    /\ completion_promise st' = "FINISHED"
    /\ loop_id st' = loop_id Scenario.stored
    /\ history st' = history Scenario.stored
    /\ iteration st' = 1.
Proof.
  destruct (@resume_applies_overrides Mini.runtime Scenario.env_busy
              Scenario.resume_options Scenario.stored_workspace Scenario.state_file
              Scenario.stored)
    as (a & st' & w1 & E & _ & D & _ & _ & Mx & Cp & _ & _ & _ & _ & _ & _ & _ & _ & _ & _
        & Li & _ & _ & Hh & Hi & _);
    [vm_compute; reflexivity ..|].
  exists a, st', w1.
  split; [exact E|]. split; [exact D|].
  split; [exact (proj1 (Mx 6 eq_refl))|].
  split; [apply (Cp "FINISHED" eq_refl); discriminate|].
  auto.
Defined.


(* ===================================================================== *)
(** ** The further properties on the concrete runs *)
(* ===================================================================== *)

Ltac by_running := first [ vm_compute; reflexivity | discriminate ].

(** White space outside ASCII is white space: a reply of [yes] followed
    by a no-break space is a yes, and a count that follows one is
    read. *)
Lemma no_break_space_is_skipped :
  says_yes ("yes" +:+ Scenario.nbsp) = true
  /\ says_yes (Scenario.nbsp +:+ "Y") = true
  /\ parseInteger (Scenario.nbsp +:+ "5") = Normal (Int 5).
Proof. repeat split; vm_compute; reflexivity. Qed.

Lemma missing_session_is_terminal_witness :
  exists s' w',
    for_iterations (RT := Mini.runtime) Scenario.env_mute Scenario.loop_args [1; 2]
      Scenario.fresh [] Scenario.at_checkpoint
    = (Normal s', w')
    /\ status s' = error_no_session
    /\ iteration s' = 0
    /\ history s' = [].
Proof.
  destruct (missing_session_is_terminal (RT := Mini.runtime) Scenario.env_mute
              Scenario.loop_args 1 [2] Scenario.fresh [] Scenario.at_checkpoint
              (Some 0%Z) "nothing to report" EmptyString
              (snd (respond (RT := Mini.runtime) Scenario.env_mute Scenario.loop_args 1
                      Scenario.fresh Scenario.at_checkpoint)))
    as (s' & w' & E & _ & St & It & Hi & _); [by_running ..|].
  exists s', w'. auto.
Defined.

Lemma interrupt_pauses_and_exits_witness :
  exists snap w',
    for_iterations (RT := Mini.runtime) Scenario.env_sigint Scenario.loop_args [1; 2]
      Scenario.fresh [] Scenario.plain_workspace
    = (Exit 1, w')
    /\ status snap = paused_user_interrupt
    /\ iteration snap = 0
    /\ disk w' !! Scenario.state_file = Some snap.
Proof.
  destruct (interrupt_pauses_and_exits (RT := Mini.runtime) Scenario.env_sigint
              Scenario.loop_args 1 [2] Scenario.fresh [] Scenario.plain_workspace
              (snd (respond (RT := Mini.runtime) Scenario.env_sigint Scenario.loop_args 1
                      Scenario.fresh Scenario.plain_workspace)))
    as (snap & w' & E & St & It & _ & _ & D & _); [by_running ..|].
  exists snap, w'. auto.
Defined.

Lemma checkpoint_pause_declined_witness :
  exists s2 w',
    for_iterations (RT := Mini.runtime) Scenario.env_busy Scenario.pause_args [1; 2]
      Scenario.fresh [] Scenario.at_checkpoint
    = (Normal s2, w')
    /\ status s2 = paused_hard_stop
    /\ todo s2 = todo_with_paused_for_hard_stop true <$> todo Scenario.fresh
    /\ length (asked (trace w')) = 1
    /\ length (spawned (trace w')) = 1.
Proof.
  destruct (checkpoint_pause_declined (RT := Mini.runtime) Scenario.env_busy
              Scenario.pause_args 1 [2] Scenario.fresh [] Scenario.at_checkpoint
              (Some 0%Z) Scenario.session_line EmptyString
              (snd (respond (RT := Mini.runtime) Scenario.env_busy Scenario.pause_args 1
                      Scenario.fresh Scenario.at_checkpoint)) "n")
    as (rec & s1 & s2 & q & w' & E & St & Td & _ & _ & _ & _ & _ & Sp & Ak);
    [by_running ..|].
  exists s2, w'. rewrite Sp, Ak. auto.
Defined.

Lemma checkpoint_pause_accepted_witness :
  exists s3 rec w',
    for_iterations (RT := Mini.runtime) Scenario.env_yes Scenario.pause_args [1; 2]
      Scenario.fresh [] Scenario.at_checkpoint
    = for_iterations (RT := Mini.runtime) Scenario.env_yes Scenario.pause_args [2]
        s3 ([] ++ [rec]) w'
    /\ status s3 = running
    /\ todo s3 = todo_with_paused_for_hard_stop false <$> todo Scenario.fresh
    /\ iteration s3 = 1.
Proof.
  destruct (checkpoint_pause_accepted (RT := Mini.runtime) Scenario.env_yes
              Scenario.pause_args 1 [2] Scenario.fresh [] Scenario.at_checkpoint
              (Some 0%Z) Scenario.session_line EmptyString
              (snd (respond (RT := Mini.runtime) Scenario.env_yes Scenario.pause_args 1
                      Scenario.fresh Scenario.at_checkpoint)) " YES ")
    as (Go & _); [by_running ..|].
  destruct (Go eq_refl) as (rec & s1 & s2 & s3 & q & w' & E & St & Td & It & _).
  exists s3, rec, w'. auto.
Defined.

Lemma interrupt_at_checkpoint_question_witness :
  exists snap w',
    for_iterations (RT := Mini.runtime) Scenario.env_ctrlc Scenario.pause_args [1; 2]
      Scenario.fresh [] Scenario.at_checkpoint
    = (Exit 1, w')
    /\ status snap = paused_user_interrupt
    /\ iteration snap = 1
    /\ disk w' !! Scenario.state_file = Some snap.
Proof.
  destruct (interrupt_at_checkpoint_question (RT := Mini.runtime) Scenario.env_ctrlc
              Scenario.pause_args 1 [2] Scenario.fresh [] Scenario.at_checkpoint
              (Some 0%Z) Scenario.session_line EmptyString
              (snd (respond (RT := Mini.runtime) Scenario.env_ctrlc Scenario.pause_args 1
                      Scenario.fresh Scenario.at_checkpoint)))
    as (rec & snap & w' & E & St & _ & It & _ & _ & D & _); [by_running ..|].
  exists snap, w'. auto.
Defined.

Lemma exit_code_is_only_recorded_witness :
  exists rec s1 w',
    for_iterations (RT := Mini.runtime) Scenario.env_failing Scenario.loop_args [1; 2]
      Scenario.fresh [] Scenario.plain_workspace
    = for_iterations (RT := Mini.runtime) Scenario.env_failing Scenario.loop_args [2]
        s1 ([] ++ [rec]) w'
    /\ it_exit_code rec = Some 1%Z
    /\ status s1 = running
    /\ iteration s1 = 1.
Proof.
  destruct (exit_code_is_only_recorded (RT := Mini.runtime) Scenario.env_failing
              Scenario.loop_args 1 [2] Scenario.fresh [] Scenario.plain_workspace
              (Some 1%Z) Scenario.session_line "error: tests failed"
              (snd (respond (RT := Mini.runtime) Scenario.env_failing Scenario.loop_args 1
                      Scenario.fresh Scenario.plain_workspace)))
    as (rec & s1 & w' & E & _ & Ec & _ & St & It & _); [by_running ..|].
  exists rec, s1, w'. auto.
Defined.

Lemma session_is_resumed_witness :
  exists rec s1 w' sid rest,
    loop_body (RT := Mini.runtime) Scenario.env_busy Scenario.loop_args 1 Scenario.fresh []
      Scenario.plain_workspace
    = (Normal (Next, s1, [] ++ [rec]), w')
    /\ session_id (codex s1) = Some sid
    /\ args_of (RT := Mini.runtime) Scenario.loop_args 2 s1
       = JStr "exec" :: JStr "resume" :: sid
         :: JStr (promptOf Scenario.loop_args 2 s1)
         :: JStr "--output-last-message"
         :: JStr (lastMessagePathOf (RT := Mini.runtime) Scenario.loop_args 2)
         :: JStr "--json" :: rest.
Proof.
  destruct (session_is_resumed (RT := Mini.runtime) Scenario.env_busy
              Scenario.loop_args 1 2 Scenario.fresh [] Scenario.plain_workspace
              (Some 0%Z) Scenario.session_line EmptyString
              (snd (respond (RT := Mini.runtime) Scenario.env_busy Scenario.loop_args 1
                      Scenario.fresh Scenario.plain_workspace)))
    as (_ & rec & s1 & w' & sid & rest & E & _ & Se & A & _); [by_running ..|].
  exists rec, s1, w', sid, rest. auto.
Defined.

Lemma returned_record_is_saved_witness :
  exists sv,
    saved (trace (snd (runLoop (RT := Mini.runtime) Scenario.env_busy Scenario.loop_args
                         Scenario.fresh Scenario.plain_workspace)))
    = value_or Scenario.fresh
        (runLoop (RT := Mini.runtime) Scenario.env_busy Scenario.loop_args
           Scenario.fresh Scenario.plain_workspace)
      :: sv ++ saved (trace Scenario.plain_workspace).
Proof.
  apply (returned_record_is_saved (RT := Mini.runtime) Scenario.env_busy
           Scenario.loop_args Scenario.fresh Scenario.plain_workspace).
  - cbn. lia.
  - vm_compute. reflexivity.
Defined.

Lemma prompt_satisfies_its_promise_witness :
  detectCompletion (RT := Mini.runtime)
    (Some (buildPromptTemplate "l1" 1 2 "tag" "DONE" "Make the tests pass." None
             "HARD STOP"))
    "tag" "DONE" empty_world
  = (Normal true, empty_world).
Proof.
  apply (prompt_satisfies_its_promise (RT := Mini.runtime) "l1" 1 2 "tag" "DONE"
           "Make the tests pass." None "HARD STOP" empty_world).
  reflexivity.
Defined.

Lemma detection_survives_surrounding_text_witness :
  fst (detectCompletion (RT := Mini.runtime)
         (Some ("All checks pass: " +:+ "DONE" +:+ ", see the log.")) "plain" "DONE"
         empty_world)
  = Normal true.
Proof.
  apply (detection_survives_surrounding_text (RT := Mini.runtime) "plain" "DONE"
           "All checks pass: " "DONE" ", see the log." empty_world).
  - reflexivity.
  - vm_compute. reflexivity.
Defined.

Lemma resume_resets_agent_options_witness :
  exists a st' w1,
    resume_step (RT := Mini.runtime) Scenario.env_busy Scenario.bare_options
      Scenario.tuned_workspace
    = (Normal (a, st'), w1)
    /\ model (codex Scenario.stored_tuned) = Some "o3"
    /\ model (codex st') = None
    /\ sandbox (codex Scenario.stored_tuned) = Some "workspace-write"
    /\ sandbox (codex st') = Some "read-only".
Proof.
  destruct (resume_resets_agent_options (RT := Mini.runtime) Scenario.env_busy
              Scenario.bare_options Scenario.tuned_workspace Scenario.state_file
              Scenario.stored_tuned)
    as (a & st' & w1 & E & _ & Mo & _ & Sb & _); [by_running ..|].
  exists a, st', w1. split; [exact E|]. split; [reflexivity|].
  split; [exact (proj1 (Mo eq_refl))|]. split; [reflexivity|].
  exact (proj1 (Sb eq_refl)).
Defined.

Lemma parseInteger_reads_back_decimal_witness :
  parseInteger (pretty 30) = Normal (Int 30).
Proof.
  apply (parseInteger_reads_back_decimal 30).
  - lia.
  - vm_compute. reflexivity.
Defined.

Lemma start_runs_from_a_fresh_record_witness :
  exists a init w1,
    handleStart (RT := Mini.runtime) Scenario.env_busy Scenario.iso "Make the tests pass."
      Scenario.start_options Scenario.plain_workspace
    = runLoop (RT := Mini.runtime) Scenario.env_busy a init w1
    /\ loop_id init = "l2"
    /\ iteration init = 0
    /\ status init = running
    /\ completion_promise init = "TASK_COMPLETE"
    /\ max_iterations init = 30.
Proof.
  destruct (start_runs_from_a_fresh_record (RT := Mini.runtime) Scenario.env_busy
              Scenario.iso "Make the tests pass." Scenario.start_options
              Scenario.plain_workspace Scenario.plain_workspace "l2"
              "/w/.codex/waylon-smithers/loops/l2.json")
    as (a & init & w1 & E & _ & _ & _ & _ & Li & _ & It & St & _ & _ & Cp & _ & Mx & _);
    [by_running ..|].
  exists a, init, w1. split; [exact E|]. split; [exact Li|]. split; [exact It|].
  split; [exact St|]. split; [exact (Cp eq_refl) | exact (Mx eq_refl)].
Defined.

Lemma cancel_marks_or_removes_the_record_witness :
  exists w',
    handleCancel (RT := Mini.runtime) Scenario.env_busy Scenario.posix_below
      Scenario.bare_options true Scenario.tuned_workspace
    = (Normal tt, w')
    /\ disk w' !! Scenario.state_file = None
    /\ files w' !! "/w/.codex/waylon-smithers/loops/l1/last_message_iter_1.txt" = None
    /\ files w' !! "/w/README.md" = Some "read me".
Proof.
  destruct (cancel_marks_or_removes_the_record (RT := Mini.runtime) Scenario.env_busy
              Scenario.posix_below Scenario.bare_options true Scenario.tuned_workspace
              Scenario.state_file)
    as (_ & Found); [by_running|].
  destruct (Found Scenario.stored_tuned eq_refl) as (w' & E & _ & _ & _ & Gone).
  destruct (Gone eq_refl) as (D & _ & In & Out).
  exists w'. split; [exact E|]. split; [exact D|]. split.
  - apply (In "/w/.codex/waylon-smithers/loops/l1/last_message_iter_1.txt").
    vm_compute. reflexivity.
  - rewrite (proj2 (Out "/w/README.md" ltac:(discriminate) ltac:(vm_compute; reflexivity))).
    reflexivity.
Defined.

Lemma run_ends_in_a_final_status_witness :
  status (value_or Scenario.fresh
            (runLoop (RT := Mini.runtime) Scenario.env_done Scenario.loop_args
               Scenario.fresh Scenario.plain_workspace))
  <> running.
Proof.
  destruct (run_ends_in_a_final_status (RT := Mini.runtime) Scenario.env_done
              Scenario.loop_args Scenario.fresh Scenario.plain_workspace
              (value_or Scenario.fresh
                 (runLoop (RT := Mini.runtime) Scenario.env_done Scenario.loop_args
                    Scenario.fresh Scenario.plain_workspace))
              (snd (runLoop (RT := Mini.runtime) Scenario.env_done Scenario.loop_args
                      Scenario.fresh Scenario.plain_workspace)))
    as [(H & _) | [(H & _) | [H | [H | H]]]];
    [cbn; lia | vm_compute; reflexivity | rewrite H; discriminate ..].
Defined.
